(** * cmi5 course example: session wrapper and xAPI tracker

    A shallow embedding of [js/cmi5-wrapper.js] (the [Cmi5] singleton) and of
    the statement queue of [js/xapi-tracker.js] (the [XAPITracker]
    singleton), with the properties of the delivery engine proved over it.

    Layout: JavaScript values and the object heap; the browser the scripts
    run in (session storage, network, clock); the wrapper, function by
    function; the tracker queue as a task machine with explicit suspension
    points; then the facts. *)

From Stdlib Require Import ZArith QArith Qround Qminmax Ascii String List Bool Lia.
From stdpp Require Import base tactics option list strings pretty.
Import ListNotations.
Local Open Scope string_scope.
Local Open Scope Z_scope.
Set Warnings "-register-all".

(* ===================================================================== *)
(** * JavaScript values, objects and JSON trees *)
(* ===================================================================== *)

Module JS.

Abbreviation loc := nat.

(** A value is a primitive or a reference to a heap object. Numbers are
    rationals: [NaN] and the infinities do not occur in the modelled
    code paths. *)
Inductive val :=
| VUndef
| VNull
| VBool (b : bool)
| VNum (q : Q)
| VStr (s : string)
| VRef (l : loc).

(** A heap object: named properties in insertion order and, for arrays,
    the indexed elements. *)
Record obj := Obj { elems : option (list val); props : list (string * val) }.

Abbreviation heap := (list obj).

(** The tree [JSON.parse] reads and [JSON.stringify] writes. *)
Inductive json :=
| JNull
| JBool (b : bool)
| JNum (q : Q)
| JStr (s : string)
| JArr (items : list json)
| JObj (fields : list (string * json)).

Record exn := Exn { e_name : string; e_message : string }.

Definition TypeError (m : string) : exn := Exn "TypeError" m.
Definition Error (m : string) : exn := Exn "Error" m.
Definition SyntaxError (m : string) : exn := Exn "SyntaxError" m.

(** ** Primitive operations *)

Definition truthy (v : val) : bool :=
  match v with
  | VUndef | VNull => false
  | VBool b => b
  | VNum q => negb (Qeq_bool q 0)
  | VStr s => negb (String.eqb s "")
  | VRef _ => true
  end.

(** [a === b] *)
Definition strict_eq (a b : val) : bool :=
  match a, b with
  | VUndef, VUndef | VNull, VNull => true
  | VBool x, VBool y => Bool.eqb x y
  | VNum x, VNum y => Qeq_bool x y
  | VStr x, VStr y => String.eqb x y
  | VRef x, VRef y => Nat.eqb x y
  | _, _ => false
  end.

(** [a ?? b] *)
Definition nullish (a b : val) : val :=
  match a with VUndef | VNull => b | _ => a end.

(** [a || b] on values already computed *)
Definition or_val (a b : val) : val := if truthy a then a else b.

Fixpoint assoc {A} (k : string) (l : list (string * A)) : option A :=
  match l with
  | [] => None
  | (k', x) :: r => if String.eqb k k' then Some x else assoc k r
  end.

(** Assignment to a property: replace in place, or append. *)
Fixpoint assoc_set {A} (k : string) (x : A) (l : list (string * A)) : list (string * A) :=
  match l with
  | [] => [(k, x)]
  | (k', y) :: r => if String.eqb k k' then (k, x) :: r else (k', y) :: assoc_set k x r
  end.

Definition startsWith (s p : string) : bool := String.prefix p s.

Fixpoint includes (s needle : string) : bool :=
  String.prefix needle s ||
  match s with
  | EmptyString => false
  | String _ r => includes r needle
  end.

Definition endsWith (s p : string) : bool :=
  let n := String.length s in
  let m := String.length p in
  (m <=? n)%nat && String.eqb (String.substring (n - m) m s) p.

(** A number in a template literal or a string concatenation. *)
Definition number_text (z : Z) : string := pretty z.

(** [s.split('/').pop()] *)
Fixpoint last_segment_from (acc s : string) : string :=
  match s with
  | EmptyString => acc
  | String c r =>
      if Ascii.eqb c "/"%char then last_segment_from EmptyString r
      else last_segment_from (acc ++ String c EmptyString) r
  end.
Definition last_segment (s : string) : string := last_segment_from EmptyString s.

(** ** Heap access *)

Definition plain (fields : list (string * val)) : obj := Obj None fields.
Definition array (items : list val) : obj := Obj (Some items) [].

Definition alloc (o : obj) (h : heap) : loc * heap := (length h, (h ++ [o])%list).

(** Reading [v.k] for a property name that is not an index, [length] or
    a method: [None] is the TypeError of reading through [undefined] or
    [null]. *)
Definition read_prop (h : heap) (v : val) (k : string) : option val :=
  match v with
  | VUndef | VNull => None
  | VRef l =>
      match h !! l with
      | Some o => Some (default VUndef (assoc k (props o)))
      | None => Some VUndef
      end
  | _ => Some VUndef
  end.

(** Writing [v.k = x] in strict mode: [None] is the TypeError of writing
    to a primitive. *)
Definition write_prop (h : heap) (v : val) (k : string) (x : val) : option heap :=
  match v with
  | VRef l =>
      match h !! l with
      | Some o => Some (<[l := Obj (elems o) (assoc_set k x (props o))]> h)
      | None => None
      end
  | _ => None
  end.

(** [v.push(x)]: only arrays have the method. *)
Definition array_push (h : heap) (v : val) (x : val) : option heap :=
  match v with
  | VRef l =>
      match h !! l with
      | Some (Obj (Some items) ps) => Some (<[l := Obj (Some (items ++ [x])%list) ps]> h)
      | _ => None
      end
  | _ => None
  end.

(** The elements of an array value; [None] when [v] is not an array (the
    call of a missing method throws). *)
Definition array_items (h : heap) (v : val) : option (list val) :=
  match v with
  | VRef l => match h !! l with Some o => elems o | None => None end
  | _ => None
  end.

(** ** JSON *)

(** [JSON.parse], from the tree onwards: children first, then the node. *)
Definition build_items (build : json -> heap -> val * heap) :
    list json -> heap -> list val * heap :=
  fix go (l : list json) (h : heap) : list val * heap :=
    match l with
    | [] => ([], h)
    | x :: r =>
        let '(v, h1) := build x h in
        let '(vs, h2) := go r h1 in
        (v :: vs, h2)
    end.

Definition build_fields (build : json -> heap -> val * heap) :
    list (string * json) -> heap -> list (string * val) * heap :=
  fix go (l : list (string * json)) (h : heap) : list (string * val) * heap :=
    match l with
    | [] => ([], h)
    | (k, x) :: r =>
        let '(v, h1) := build x h in
        let '(ps, h2) := go r h1 in
        ((k, v) :: ps, h2)
    end.

Fixpoint build (j : json) (h : heap) : val * heap :=
  match j with
  | JNull => (VNull, h)
  | JBool b => (VBool b, h)
  | JNum q => (VNum q, h)
  | JStr s => (VStr s, h)
  | JArr items =>
      let '(vs, h1) := build_items build items h in
      let '(l, h2) := alloc (array vs) h1 in
      (VRef l, h2)
  | JObj fields =>
      let '(ps, h1) := build_fields build fields h in
      let '(l, h2) := alloc (plain ps) h1 in
      (VRef l, h2)
  end.

Inductive ser := SerCyclic | SerUndefined | SerJson (j : json).

(** The elements of an array: an element that is undefined is written as
    [null]. *)
Fixpoint ser_items (f : val -> ser) (l : list val) (acc : list json) : ser :=
  match l with
  | [] => SerJson (JArr (rev acc))
  | x :: r =>
      match f x with
      | SerCyclic => SerCyclic
      | SerUndefined => ser_items f r (JNull :: acc)
      | SerJson j => ser_items f r (j :: acc)
      end
  end.

(** The properties of an object: a property that is undefined is left
    out. *)
Fixpoint ser_fields (f : val -> ser) (l : list (string * val))
    (acc : list (string * json)) : ser :=
  match l with
  | [] => SerJson (JObj (rev acc))
  | (k, x) :: r =>
      match f x with
      | SerCyclic => SerCyclic
      | SerUndefined => ser_fields f r acc
      | SerJson j => ser_fields f r ((k, j) :: acc)
      end
  end.

(** [JSON.stringify]: [depth] bounds the nesting that is followed, and
    running out of it is the TypeError for a cyclic structure. The named
    properties of an array are not written. *)
Fixpoint stringify_at (depth : nat) (h : heap) (v : val) : ser :=
  match v with
  | VUndef => SerUndefined
  | VNull => SerJson JNull
  | VBool b => SerJson (JBool b)
  | VNum q => SerJson (JNum q)
  | VStr s => SerJson (JStr s)
  | VRef l =>
      match depth with
      | O => SerCyclic
      | S d =>
          match h !! l with
          | None => SerUndefined
          | Some (Obj (Some items) _) => ser_items (stringify_at d h) items []
          | Some (Obj None ps) => ser_fields (stringify_at d h) ps []
          end
      end
  end.

(** A chain of distinct objects is no longer than the heap. *)
Definition stringify (h : heap) (v : val) : ser := stringify_at (S (length h)) h v.

End JS.

(* ===================================================================== *)
(** * The browser: storage, network, clock, and the module variables *)
(* ===================================================================== *)

Module Browser.
Import JS.

(** What the page is given and the built-ins the scripts call: the
    parameters of [window.location.search], the [session] parameter the
    [URL] constructor finds in a string ([None]: the constructor throws),
    [JSON.parse] on a string ([None]: it throws), [crypto.randomUUID] by
    call number, and [Date.prototype.toISOString]. *)
Record browser := {
  search : list (string * string);
  URL_session : string -> option (option string);
  JSON_parse : string -> option json;
  randomUUID : nat -> string;
  toISOString : Z -> string
}.

(** The target of a request, in place of the encoded URL text. *)
Inductive resource :=
| Exchange
| AgentProfile (profileId : string) (agent : ser)
| ActivityState (stateId : string) (activity : val) (agent : ser) (reg : val)
| Statements (statementId : val).

Record request := {
  rq_sync : bool;
  rq_method : string;
  rq_base : val;
  rq_resource : resource;
  rq_authorization : option val;
  rq_body : option json
}.

(** What comes back: no answer at all (the [fetch] promise rejects with a
    TypeError, a synchronous [send] throws), or a response with its
    status line, its text, and the tree [JSON.parse] reads from that
    text, if any. *)
Inductive response :=
| NetworkError
| Response (status : Z) (statusText : string) (text : string) (parsed : option json).

Definition ok (status : Z) : bool := (200 <=? status) && (status <=? 299).

(** One entry of [statementLog]. *)
Record log_entry := {
  lg_timestamp : val;
  lg_verb : val;
  lg_success : val;
  lg_error : val;
  lg_sync : bool
}.

Section Store.
Context {var : Type}.

(** [network] scripts the answers to the requests still to come, in
    order; [requests] is the trace of those issued, latest first.
    [vars] holds the module-level [let] variables of the script. *)
Record world := {
  heap : JS.heap;
  sessionStorage : option json;
  network : list response;
  requests : list request;
  now : Z;
  uuids : nat;
  statementLog : list log_entry;
  vars : var -> val
}.

Definition with_heap (h : JS.heap) (w : world) : world :=
  {| heap := h; sessionStorage := sessionStorage w; network := network w;
     requests := requests w; now := now w; uuids := uuids w;
     statementLog := statementLog w; vars := vars w |}.
Definition with_sessionStorage (s : option json) (w : world) : world :=
  {| heap := heap w; sessionStorage := s; network := network w;
     requests := requests w; now := now w; uuids := uuids w;
     statementLog := statementLog w; vars := vars w |}.
Definition with_network (n : list response) (r : list request) (w : world) : world :=
  {| heap := heap w; sessionStorage := sessionStorage w; network := n;
     requests := r; now := now w; uuids := uuids w;
     statementLog := statementLog w; vars := vars w |}.
Definition with_now (t : Z) (w : world) : world :=
  {| heap := heap w; sessionStorage := sessionStorage w; network := network w;
     requests := requests w; now := t; uuids := uuids w;
     statementLog := statementLog w; vars := vars w |}.
Definition with_uuids (n : nat) (w : world) : world :=
  {| heap := heap w; sessionStorage := sessionStorage w; network := network w;
     requests := requests w; now := now w; uuids := n;
     statementLog := statementLog w; vars := vars w |}.
Definition with_statementLog (l : list log_entry) (w : world) : world :=
  {| heap := heap w; sessionStorage := sessionStorage w; network := network w;
     requests := requests w; now := now w; uuids := uuids w;
     statementLog := l; vars := vars w |}.
Definition with_vars (f : var -> val) (w : world) : world :=
  {| heap := heap w; sessionStorage := sessionStorage w; network := network w;
     requests := requests w; now := now w; uuids := uuids w;
     statementLog := statementLog w; vars := f |}.

(** ** Computations that read and write the world and may throw *)

Inductive res (A : Type) :=
| Ret (a : A)
| Throw (e : exn).
Global Arguments Ret {A} a.
Global Arguments Throw {A} e.

Definition M (A : Type) : Type := world -> res A * world.

Definition ret {A} (a : A) : M A := fun w => (Ret a, w).
Definition throw {A} (e : exn) : M A := fun w => (Throw e, w).
Definition bind {A B} (m : M A) (k : A -> M B) : M B :=
  fun w => match m w with
           | (Ret a, w1) => k a w1
           | (Throw e, w1) => (Throw e, w1)
           end.
Definition try_catch {A} (m : M A) (handler : exn -> M A) : M A :=
  fun w => match m w with
           | (Ret a, w1) => (Ret a, w1)
           | (Throw e, w1) => handler e w1
           end.

Definition get (x : var) : M val := fun w => (Ret (vars w x), w).
Definition set `{EqDecision var} (x : var) (v : val) : M unit :=
  fun w => (Ret tt, with_vars (fun y => if decide (x = y) then v else vars w y) w).

(** An object or array literal. *)
Definition new (o : obj) : M val :=
  fun w => let '(l, h) := alloc o (heap w) in (Ret (VRef l), with_heap h w).

Definition prop (v : val) (k : string) : M val :=
  fun w => match read_prop (heap w) v k with
           | Some x => (Ret x, w)
           | None => (Throw (TypeError "Cannot read properties of undefined or null"), w)
           end.

(** [v?.k] *)
Definition opt_prop (v : val) (k : string) : M val :=
  match v with VUndef | VNull => ret VUndef | _ => prop v k end.

Definition set_prop (v : val) (k : string) (x : val) : M unit :=
  fun w => match write_prop (heap w) v k x with
           | Some h => (Ret tt, with_heap h w)
           | None => (Throw (TypeError "Cannot set properties of a non-object"), w)
           end.

Definition push (v : val) (x : val) : M unit :=
  fun w => match array_push (heap w) v x with
           | Some h => (Ret tt, with_heap h w)
           | None => (Throw (TypeError "push is not a function"), w)
           end.

Definition items (v : val) : M (list val) :=
  fun w => match array_items (heap w) v with
           | Some l => (Ret l, w)
           | None => (Throw (TypeError "some is not a function"), w)
           end.

Definition parse (j : json) : M val :=
  fun w => let '(v, h) := build j (heap w) in (Ret v, with_heap h w).

Definition JSON_stringify (v : val) : M ser :=
  fun w => match stringify (heap w) v with
           | SerCyclic => (Throw (TypeError "Converting circular structure to JSON"), w)
           | s => (Ret s, w)
           end.

Definition Date_now : M Z := fun w => (Ret (now w), w).

Definition sleep (ms : Z) : M unit := fun w => (Ret tt, with_now (now w + ms) w).

(** The next scripted answer to a request; with the script used up the
    network is down. *)
Definition transmit (rq : request) : M response :=
  fun w => match network w with
           | [] => (Ret NetworkError, with_network [] (rq :: requests w) w)
           | r :: rest => (Ret r, with_network rest (rq :: requests w) w)
           end.

Definition getItem : M (option json) := fun w => (Ret (sessionStorage w), w).
Definition setItem (j : json) : M unit :=
  fun w => (Ret tt, with_sessionStorage (Some j) w).
Definition removeItem : M unit :=
  fun w => (Ret tt, with_sessionStorage None w).

Definition log_push (e : log_entry) : M unit :=
  fun w => (Ret tt, with_statementLog (statementLog w ++ [e])%list w).

(** [statementLog[statementLog.length - 1] = f(...)] *)
Definition log_update_last (f : log_entry -> log_entry) : M unit :=
  fun w => (Ret tt,
            with_statementLog
              (match rev (statementLog w) with
               | [] => []
               | e :: r => rev (f e :: r)
               end) w).
End Store.
Global Arguments world var : clear implicits.
Global Arguments M var A : clear implicits.

Declare Scope js_scope.
Delimit Scope js_scope with js.
Notation "x <- m ;; k" := (bind m (fun x => k))
  (at level 100, m at next level, right associativity) : js_scope.
Notation "m ;; k" := (bind m (fun _ => k))
  (at level 100, right associativity) : js_scope.

End Browser.

(* ===================================================================== *)
(** * js/cmi5-wrapper.js *)
(* ===================================================================== *)

Module Cmi5.
Import JS Browser.
Local Open Scope js_scope.

(** The module-level variables of the wrapper. *)
Inductive var :=
| initialized | terminated
| endpoint | fetchUrl | actor | registration | activityId
| authToken | sessionId
| launchData | contextTemplate | launchMode | masteryScore | moveOn | returnURL
| completionSent | successSent | startTime
| learnerPreferences.

#[global] Instance var_eq_dec : EqDecision var.
Proof. solve_decision. Defined.

(** Their values when the script has just been loaded. *)
Definition initial (x : var) : val :=
  match x with
  | initialized | terminated | completionSent | successSent => VBool false
  | launchMode => VStr "Normal"
  | masteryScore => VNum (3 # 4)
  | moveOn => VStr "CompletedOrPassed"
  | _ => VNull
  end.

Abbreviation world := (Browser.world var).
Abbreviation M := (Browser.M var).

Definition MAX_RETRIES : nat := 3.
Definition RETRY_DELAY_MS : Z := 1000.

Definition VERB_INITIALIZED := "http://adlnet.gov/expapi/verbs/initialized".
Definition VERB_COMPLETED := "http://adlnet.gov/expapi/verbs/completed".
Definition VERB_PASSED := "http://adlnet.gov/expapi/verbs/passed".
Definition VERB_FAILED := "http://adlnet.gov/expapi/verbs/failed".
Definition VERB_TERMINATED := "http://adlnet.gov/expapi/verbs/terminated".
Definition CATEGORY_CMI5 := "https://w3id.org/xapi/cmi5/context/categories/cmi5".
Definition CATEGORY_MOVEON := "https://w3id.org/xapi/cmi5/context/categories/moveon".
Definition EXT_SESSIONID := "https://w3id.org/xapi/cmi5/context/extensions/sessionid".

Definition when (b : bool) (m : M unit) : M unit := if b then m else ret tt.

Definition ser_body (s : ser) : option json :=
  match s with SerJson j => Some j | _ => None end.

Section WithBrowser.
Context (B : browser).

(** [params.get(name)] on [window.location.search] *)
Definition param (name : string) : val :=
  match assoc name (search B) with Some s => VStr s | None => VNull end.

(** [new URL(u).searchParams.get('session')]; [None] when the
    constructor throws. *)
Definition session_of_url (u : val) : option val :=
  match u with
  | VStr s =>
      match URL_session B s with
      | Some (Some x) => Some (VStr x)
      | Some None => Some VNull
      | None => None
      end
  | _ => None
  end.

(** ** Session storage *)

(** The properties of the stored object, each with the variable it is
    taken from. *)
Definition stored_fields : list (string * var) :=
  [("endpoint", endpoint); ("authToken", authToken); ("actor", actor);
   ("registration", registration); ("activityId", activityId);
   ("sessionId", sessionId); ("launchData", launchData);
   ("contextTemplate", contextTemplate); ("launchMode", launchMode);
   ("masteryScore", masteryScore); ("moveOn", moveOn); ("returnURL", returnURL);
   ("startTime", startTime); ("initialized", initialized);
   ("completionSent", completionSent); ("successSent", successSent)].

(** The object literal [{ endpoint, authToken, ... }]. *)
Definition snapshot : M (list (string * val)) :=
  fun w => (Ret (map (fun f => (fst f, vars w (snd f))) stored_fields), w).

Definition saveSessionData : M unit :=
  try_catch
    (fields <- snapshot ;;
     data <- new (plain fields) ;;
     s <- JSON_stringify data ;;
     match s with
     | SerJson j => setItem j
     | _ => ret tt
     end)
    (fun _ => ret tt).

Definition clearSessionData : M unit :=
  try_catch removeItem (fun _ => ret tt).

(** The assignments of a restore, in order: the property read, the
    variable written, and the default applied ([x || d], [x ?? d]). *)
Definition restored_fields : list (string * var * (val -> val)) :=
  [("endpoint", endpoint, fun x => x);
   ("authToken", authToken, fun x => x);
   ("actor", actor, fun x => x);
   ("registration", registration, fun x => x);
   ("activityId", activityId, fun x => x);
   ("sessionId", sessionId, fun x => x);
   ("launchData", launchData, fun x => x);
   ("contextTemplate", contextTemplate, fun x => x);
   ("launchMode", launchMode, fun x => or_val x (VStr "Normal"));
   ("masteryScore", masteryScore, fun x => nullish x (VNum (3 # 4)));
   ("moveOn", moveOn, fun x => or_val x (VStr "CompletedOrPassed"));
   ("returnURL", returnURL, fun x => x);
   ("startTime", startTime, fun x => x);
   ("initialized", initialized, fun x => x);
   ("completionSent", completionSent, fun x => or_val x (VBool false));
   ("successSent", successSent, fun x => or_val x (VBool false))].

Fixpoint restore (data : val) (fields : list (string * var * (val -> val))) : M unit :=
  match fields with
  | [] => ret tt
  | (k, x, default) :: rest =>
      v <- prop data k ;;
      set x (default v) ;;
      restore data rest
  end.

(** The item under the storage key is only ever written by
    [saveSessionData], so it is kept as the tree [JSON.parse] reads
    from it. *)
Definition loadSessionData : M bool :=
  try_catch
    (saved <- getItem ;;
     match saved with
     | None => ret false
     | Some j =>
         data <- parse j ;;
         let currentRegistration := param "registration" in
         let currentFetchUrl := param "fetch" in
         let currentSessionIdFromUrl :=
           if truthy currentFetchUrl
           then default VNull (session_of_url currentFetchUrl)
           else VNull in
         d_registration <- prop data "registration" ;;
         let registrationMatches :=
           truthy d_registration && strict_eq d_registration currentRegistration in
         sessionMatches <-
           (if negb (truthy currentSessionIdFromUrl) then ret true
            else d_sessionId <- prop data "sessionId" ;;
                 ret (strict_eq d_sessionId currentSessionIdFromUrl)) ;;
         d_authToken <-
           (if registrationMatches && sessionMatches
            then prop data "authToken" else ret VUndef) ;;
         if registrationMatches && sessionMatches && truthy d_authToken then
           restore data restored_fields ;;
           ret true
         else
           clearSessionData ;;
           ret false
     end)
    (fun _ => ret false).

(** ** Launch parameters *)

Definition parseLaunchParameters : M bool :=
  set endpoint (param "endpoint") ;;
  set fetchUrl (param "fetch") ;;
  set registration (param "registration") ;;
  set activityId (param "activityId") ;;
  match param "actor" with
  | VStr s =>
      when (truthy (VStr s))
        (match JSON_parse B s with
         | Some j => a <- parse j ;; set actor a
         | None => ret tt
         end)
  | _ => ret tt
  end ;;
  e <- get endpoint ;;
  f <- get fetchUrl ;;
  a <- get actor ;;
  r <- get registration ;;
  i <- get activityId ;;
  ret (truthy e && truthy f && truthy a && truthy r && truthy i).

(** ** Credential exchange *)

Definition fetchAuthToken : M bool :=
  f <- get fetchUrl ;;
  if negb (truthy f) then throw (Error "No fetch URL available") else
  try_catch
    (r <- transmit {| rq_sync := false; rq_method := "POST"; rq_base := f;
                      rq_resource := Exchange; rq_authorization := None;
                      rq_body := None |} ;;
     match r with
     | NetworkError => throw (TypeError "Failed to fetch")
     | Response status statusText text parsed =>
         if negb (ok status) then
           throw (Error ("Auth fetch failed: " ++ number_text status ++ " " ++ statusText))
         else
           match parsed with
           | None => throw (SyntaxError "Unexpected token in JSON")
           | Some j =>
               data <- parse j ;;
               t1 <- prop data "auth-token" ;;
               t <- (if truthy t1 then ret t1
                     else t2 <- prop data "authToken" ;;
                          if truthy t2 then ret t2 else prop data "token") ;;
               set authToken t ;;
               if negb (truthy t) then throw (Error "No auth token in response") else
               match t with
               | VStr s =>
                   when (negb (startsWith s "Basic ") && negb (startsWith s "Bearer "))
                     (set authToken (VStr ("Basic " ++ s))) ;;
                   saveSessionData ;;
                   ret true
               | _ => throw (TypeError "authToken.startsWith is not a function")
               end
           end
     end)
    (fun error => throw error).

(** ** Talking to the record store *)

Definition failure_message (status : Z) (statusText text : string) : string :=
  "LRS request failed: " ++ number_text status ++ " " ++ statusText ++ " - " ++ text.

(** [lrsRequest(path, method, body, retryCount)] with
    [retryCount = MAX_RETRIES - attempts_left]: every caller starts at
    zero, and a retry is made only while [retryCount < MAX_RETRIES].
    The retry is the value the function returns, so a failure of the
    retry is not seen by the handler of the attempt that made it. *)
Fixpoint lrsRequest_from (attempts_left : nat) (path : resource) (method : string)
    (body : val) : M val :=
  let retryCount := (MAX_RETRIES - attempts_left)%nat in
  e <- get endpoint ;;
  a <- get authToken ;;
  if negb (truthy e) || negb (truthy a) then
    throw (Error "LRS not configured (missing endpoint or authToken)")
  else
    match e with
    | VStr es =>
        let baseUrl := if endsWith es "/" then es else es ++ "/" in
        payload <- (if truthy body
                    then s <- JSON_stringify body ;; ret (ser_body s)
                    else ret None) ;;
        outcome <-
          try_catch
            (r <- transmit {| rq_sync := false; rq_method := method;
                              rq_base := VStr baseUrl; rq_resource := path;
                              rq_authorization := Some a; rq_body := payload |} ;;
             match r with
             | NetworkError => throw (TypeError "Failed to fetch")
             | Response status statusText text parsed =>
                 if negb (ok status) then
                   if (status =? 404) && String.eqb method "GET" then ret (Some VNull)
                   else if (0 <? attempts_left)%nat && ((500 <=? status) || (status =? 0))
                   then ret None
                   else throw (Error (failure_message status statusText text))
                 else if String.eqb text "" then ret (Some VNull)
                 else match parsed with
                      | Some j => v <- parse j ;; ret (Some v)
                      | None => ret (Some (VStr text))
                      end
             end)
            (fun error =>
               if (0 <? attempts_left)%nat && String.eqb (e_name error) "TypeError"
               then ret None
               else throw error) ;;
        match outcome, attempts_left with
        | Some v, _ => ret v
        | None, S n =>
            sleep (RETRY_DELAY_MS * (Z.of_nat retryCount + 1)) ;;
            lrsRequest_from n path method body
        | None, O => ret VNull
        end
    | _ => throw (TypeError "endpoint.endsWith is not a function")
    end.

Definition lrsRequest (path : resource) (method : string) (body : val) : M val :=
  lrsRequest_from MAX_RETRIES path method body.

(** The synchronous request of page unload. The [sendBeacon] block of
    the source only builds a Blob and sends nothing. *)
Definition lrsRequestSync (path : resource) (method : string) (body : val) : M bool :=
  e <- get endpoint ;;
  a <- get authToken ;;
  if negb (truthy e) || negb (truthy a) then ret false
  else
    match e with
    | VStr es =>
        let baseUrl := if endsWith es "/" then es else es ++ "/" in
        try_catch
          (payload <- (if truthy body
                       then s <- JSON_stringify body ;; ret (ser_body s)
                       else ret None) ;;
           r <- transmit {| rq_sync := true; rq_method := method;
                            rq_base := VStr baseUrl; rq_resource := path;
                            rq_authorization := Some a; rq_body := payload |} ;;
           match r with
           | NetworkError => throw (Error "NetworkError")
           | Response status _ _ _ => ret ((200 <=? status) && (status <? 300))
           end)
          (fun _ => ret false)
    | _ => throw (TypeError "endpoint.endsWith is not a function")
    end.

(** ** Learner preferences and launch data *)

Definition fetchLearnerPreferences : M bool :=
  a <- get actor ;;
  agent <- JSON_stringify a ;;
  try_catch
    (p <- lrsRequest (AgentProfile "cmi5LearnerPreferences" agent) "GET" VNull ;;
     set learnerPreferences p ;;
     (if truthy p then ret tt
      else o <- new (plain []) ;; set learnerPreferences o) ;;
     ret true)
    (fun error =>
       o <- new (plain []) ;;
       set learnerPreferences o ;;
       ret true).

Definition fetchLaunchData : M bool :=
  act <- get activityId ;;
  a <- get actor ;;
  agent <- JSON_stringify a ;;
  reg <- get registration ;;
  try_catch
    (d <- lrsRequest (ActivityState "LMS.LaunchData" act agent reg) "GET" VNull ;;
     set launchData d ;;
     (if truthy d then
        x <- prop d "contextTemplate" ;; set contextTemplate x ;;
        x <- prop d "launchMode" ;; set launchMode (or_val x (VStr "Normal")) ;;
        x <- prop d "masteryScore" ;; set masteryScore (nullish x (VNum (3 # 4))) ;;
        x <- prop d "moveOn" ;; set moveOn (or_val x (VStr "CompletedOrPassed")) ;;
        x <- prop d "returnURL" ;; set returnURL x
      else ret tt) ;;
     ret true)
    (fun error => ret true).

(** ** Building statements *)

Definition generateUUID : M val :=
  fun w => (Ret (VStr (randomUUID B (uuids w))), with_uuids (S (uuids w)) w).

(** [new Date().toISOString()] *)
Definition timestamp : M val :=
  t <- Date_now ;; ret (VStr (toISOString B t)).

(** [category.some(cat => cat.id === id)] *)
Fixpoint some_id (id : string) (l : list val) : M bool :=
  match l with
  | [] => ret false
  | cat :: r =>
      i <- prop cat "id" ;;
      if strict_eq i (VStr id) then ret true else some_id id r
  end.

Definition has_category (context : val) (id : string) : M bool :=
  ca <- prop context "contextActivities" ;;
  category <- prop ca "category" ;;
  l <- items category ;;
  some_id id l.

Definition push_category (context : val) (id : string) : M unit :=
  ca <- prop context "contextActivities" ;;
  category <- prop ca "category" ;;
  marker <- new (plain [("id", VStr id); ("objectType", VStr "Activity")]) ;;
  push category marker.

Definition buildStatement (verb result objectOverride : val) : M val :=
  id <- generateUUID ;;
  a <- get actor ;;
  object <- (if truthy objectOverride then ret objectOverride
             else act <- get activityId ;;
                  new (plain [("id", act); ("objectType", VStr "Activity")])) ;;
  ts <- timestamp ;;
  statement <- new (plain [("id", id); ("actor", a); ("verb", verb);
                           ("object", object); ("timestamp", ts)]) ;;
  empty <- new (plain []) ;;
  template <- get contextTemplate ;;
  context <- (if truthy template then
                s <- JSON_stringify template ;;
                match s with
                | SerJson j => parse j
                | _ => throw (SyntaxError "undefined is not valid JSON")
                end
              else ret empty) ;;
  reg <- get registration ;;
  set_prop context "registration" reg ;;
  ext <- prop context "extensions" ;;
  when (negb (truthy ext))
    (o <- new (plain []) ;; set_prop context "extensions" o) ;;
  ext <- prop context "extensions" ;;
  sid <- get sessionId ;;
  set_prop ext EXT_SESSIONID sid ;;
  ca <- prop context "contextActivities" ;;
  when (negb (truthy ca))
    (o <- new (plain []) ;; set_prop context "contextActivities" o) ;;
  ca <- prop context "contextActivities" ;;
  category <- prop ca "category" ;;
  when (negb (truthy category))
    (o <- new (array []) ;;
     ca <- prop context "contextActivities" ;;
     set_prop ca "category" o) ;;
  hasCmi5Category <- has_category context CATEGORY_CMI5 ;;
  when (negb hasCmi5Category) (push_category context CATEGORY_CMI5) ;;
  verbId <- prop verb "id" ;;
  when (strict_eq verbId (VStr VERB_PASSED) || strict_eq verbId (VStr VERB_FAILED))
    (hasMoveOnCategory <- has_category context CATEGORY_MOVEON ;;
     when (negb hasMoveOnCategory) (push_category context CATEGORY_MOVEON)) ;;
  set_prop statement "context" context ;;
  when (truthy result) (set_prop statement "result" result) ;;
  ret statement.

(** ** Sending statements *)

(** [statement.verb.display?.['en-US'] || statement.verb.id.split('/').pop()] *)
Definition verbName_of (statement : val) : M val :=
  verb <- prop statement "verb" ;;
  display <- prop verb "display" ;;
  d <- opt_prop display "en-US" ;;
  if truthy d then ret d
  else
    verb <- prop statement "verb" ;;
    id <- prop verb "id" ;;
    match id with
    | VStr s => ret (VStr (last_segment s))
    | VUndef | VNull => throw (TypeError "Cannot read properties of undefined or null")
    | _ => throw (TypeError "split is not a function")
    end.

Definition mark_success (e : log_entry) : log_entry :=
  {| lg_timestamp := lg_timestamp e; lg_verb := lg_verb e;
     lg_success := VBool true; lg_error := lg_error e; lg_sync := lg_sync e |}.

Definition mark_error (m : string) (e : log_entry) : log_entry :=
  {| lg_timestamp := lg_timestamp e; lg_verb := lg_verb e;
     lg_success := lg_success e; lg_error := VStr m; lg_sync := lg_sync e |}.

Definition sendStatement (statement : val) : M val :=
  t <- get terminated ;;
  refused <- (if truthy t then
                verb <- prop statement "verb" ;;
                id <- prop verb "id" ;;
                ret (negb (strict_eq id (VStr VERB_TERMINATED)))
              else ret false) ;;
  if refused then ret VNull
  else
    verbName <- verbName_of statement ;;
    ts <- prop statement "timestamp" ;;
    log_push {| lg_timestamp := ts; lg_verb := verbName; lg_success := VNull;
                lg_error := VNull; lg_sync := false |} ;;
    try_catch
      (id <- prop statement "id" ;;
       lrsRequest (Statements id) "PUT" statement ;;
       log_update_last mark_success ;;
       prop statement "id")
      (fun error =>
         log_update_last (mark_error (e_message error)) ;;
         throw error).

Definition sendStatementSync (statement : val) : M val :=
  verbName <- verbName_of statement ;;
  id <- prop statement "id" ;;
  success <- lrsRequestSync (Statements id) "PUT" statement ;;
  ts <- prop statement "timestamp" ;;
  log_push {| lg_timestamp := ts; lg_verb := verbName; lg_success := VBool success;
              lg_error := VUndef; lg_sync := true |} ;;
  if success then prop statement "id" else ret VNull.

(** ** The statements cmi5 defines *)

(** [a % b] of JavaScript, on integers. *)
Definition js_rem (a b : Z) : Z := Z.rem a b.

Definition duration_of (ms : Q) : string :=
  let seconds := Qfloor (ms / 1000) in
  let minutes := seconds / 60 in
  let hours := minutes / 60 in
  let s := js_rem seconds 60 in
  let m := js_rem minutes 60 in
  let h := hours in
  "PT" ++ (if 0 <? h then number_text h ++ "H" else "")
       ++ (if 0 <? m then number_text m ++ "M" else "")
       ++ number_text s ++ "S".

(** A start time that is not a number makes the difference [NaN]; the
    variable holds [Date.now()] or what was stored of it. *)
Definition calculateDuration : M string :=
  st <- get startTime ;;
  if negb (truthy st) then ret "PT0S"
  else
    t <- Date_now ;;
    match st with
    | VNum q => ret (duration_of (inject_Z t - q))
    | VBool true => ret (duration_of (inject_Z t - 1))
    | _ => ret "PTNaNS"
    end.

Definition verb_literal (id name : string) : M val :=
  display <- new (plain [("en-US", VStr name)]) ;;
  new (plain [("id", VStr id); ("display", display)]).

Definition sendInitialized : M val :=
  verb <- verb_literal VERB_INITIALIZED "initialized" ;;
  statement <- buildStatement verb VNull VNull ;;
  sendStatement statement.

Definition sendCompleted : M val :=
  c <- get completionSent ;;
  if truthy c then ret VNull
  else
    verb <- verb_literal VERB_COMPLETED "completed" ;;
    d <- calculateDuration ;;
    result <- new (plain [("completion", VBool true); ("duration", VStr d)]) ;;
    statement <- buildStatement verb result VNull ;;
    id <- sendStatement statement ;;
    when (truthy id) (set completionSent (VBool true) ;; saveSessionData) ;;
    ret id.

(** [Math.min(1, Math.max(0, score))] *)
Definition clamp01 (score : Q) : Q := Qmin 1 (Qmax 0 score).

(** [Math.round]: to the nearest integer, halves upwards. *)
Definition Math_round (x : Q) : Q := inject_Z (Qfloor (x + (1 # 2))).

(** The [result.score] block shared by [sendPassed] and [sendFailed];
    [score] is [null] or a number. *)
Definition add_score (result : val) (score : option Q) : M unit :=
  match score with
  | None => ret tt
  | Some q =>
      sc <- new (plain [("scaled", VNum (clamp01 q))]) ;;
      set_prop result "score" sc ;;
      sc <- prop result "score" ;;
      scaled <- prop sc "scaled" ;;
      set_prop sc "raw"
        (match scaled with VNum x => VNum (Math_round (x * 100)) | _ => VUndef end) ;;
      sc <- prop result "score" ;;
      set_prop sc "min" (VNum 0) ;;
      sc <- prop result "score" ;;
      set_prop sc "max" (VNum 100)
  end.

Definition sendPassed (score : option Q) : M val :=
  s <- get successSent ;;
  if truthy s then ret VNull
  else
    verb <- verb_literal VERB_PASSED "passed" ;;
    d <- calculateDuration ;;
    result <- new (plain [("success", VBool true); ("duration", VStr d)]) ;;
    add_score result score ;;
    statement <- buildStatement verb result VNull ;;
    id <- sendStatement statement ;;
    when (truthy id) (set successSent (VBool true) ;; saveSessionData) ;;
    ret id.

Definition sendFailed (score : option Q) : M val :=
  s <- get successSent ;;
  if truthy s then ret VNull
  else
    verb <- verb_literal VERB_FAILED "failed" ;;
    d <- calculateDuration ;;
    result <- new (plain [("success", VBool false); ("duration", VStr d)]) ;;
    add_score result score ;;
    statement <- buildStatement verb result VNull ;;
    id <- sendStatement statement ;;
    when (truthy id) (set successSent (VBool true) ;; saveSessionData) ;;
    ret id.

Definition sendTerminated : M val :=
  t <- get terminated ;;
  if truthy t then ret VNull
  else
    verb <- verb_literal VERB_TERMINATED "terminated" ;;
    d <- calculateDuration ;;
    result <- new (plain [("duration", VStr d)]) ;;
    statement <- buildStatement verb result VNull ;;
    try_catch
      (id <- sendStatement statement ;;
       set terminated (VBool true) ;;
       clearSessionData ;;
       ret id)
      (fun error => throw error).

Definition sendTerminatedSync : M val :=
  t <- get terminated ;;
  if truthy t then ret VNull
  else
    verb <- verb_literal VERB_TERMINATED "terminated" ;;
    d <- calculateDuration ;;
    result <- new (plain [("duration", VStr d)]) ;;
    statement <- buildStatement verb result VNull ;;
    id <- sendStatementSync statement ;;
    when (truthy id) (set terminated (VBool true) ;; clearSessionData) ;;
    ret id.
End WithBrowser.

(** ** The public object *)

Module Public.
Section WithBrowser.
Context (B : browser).

Definition isConnected : M bool :=
  e <- get endpoint ;;
  a <- get authToken ;;
  ret (truthy e && truthy a).

Definition isInitialized : M val := get initialized.
Definition isTerminated : M val := get terminated.
Definition getMasteryScore : M val := get masteryScore.

(** The session id of a fresh launch: the [session] parameter of the
    fetch URL, or a generated one. *)
Definition choose_sessionId : M unit :=
  f <- get fetchUrl ;;
  if truthy f then
    match session_of_url B f with
    | Some s =>
        set sessionId s ;;
        if truthy s then ret tt
        else u <- generateUUID B ;; set sessionId u
    | None => u <- generateUUID B ;; set sessionId u
    end
  else u <- generateUUID B ;; set sessionId u.

Definition initialize : M bool :=
  i <- get initialized ;;
  if truthy i then ret true
  else
    hasExistingSession <- loadSessionData B ;;
    a <- get authToken ;;
    e <- get endpoint ;;
    if hasExistingSession && truthy a && truthy e then ret true
    else
      t <- Date_now ;;
      set startTime (VNum (inject_Z t)) ;;
      hasParams <- parseLaunchParameters B ;;
      choose_sessionId ;;
      if negb hasParams then
        set initialized (VBool true) ;;
        ret true
      else
        try_catch
          (fetchAuthToken ;;
           fetchLearnerPreferences ;;
           fetchLaunchData ;;
           sendInitialized B ;;
           set initialized (VBool true) ;;
           saveSessionData ;;
           ret true)
          (fun error =>
             set initialized (VBool true) ;;
             ret false).

Definition complete : M val :=
  i <- get initialized ;;
  if negb (truthy i) then ret VNull else sendCompleted B.

Definition pass (score : option Q) : M val :=
  i <- get initialized ;;
  if negb (truthy i) then ret VNull else sendPassed B score.

Definition fail (score : option Q) : M val :=
  i <- get initialized ;;
  if negb (truthy i) then ret VNull else sendFailed B score.

Definition terminate : M val :=
  i <- get initialized ;;
  if negb (truthy i) then ret VNull else sendTerminated B.

Definition terminateSync : M val :=
  i <- get initialized ;;
  c <- (if truthy i then isConnected else ret false) ;;
  if negb (truthy i) || negb c then ret VNull else sendTerminatedSync B.

(** The statement an "allowed" verb is sent with: registration and
    session id, and the parent and grouping of the context template. *)
Definition allowed_statement (verb result object : val) : M val :=
  id <- generateUUID B ;;
  a <- get actor ;;
  o <- (if truthy object then ret object
        else act <- get activityId ;;
             new (plain [("id", act); ("objectType", VStr "Activity")])) ;;
  ts <- timestamp B ;;
  reg <- get registration ;;
  sid <- get sessionId ;;
  extensions <- new (plain [(EXT_SESSIONID, sid)]) ;;
  context <- new (plain [("registration", reg); ("extensions", extensions)]) ;;
  statement <- new (plain [("id", id); ("actor", a); ("verb", verb);
                           ("object", o); ("timestamp", ts);
                           ("context", context)]) ;;
  when (truthy result) (set_prop statement "result" result) ;;
  template <- get contextTemplate ;;
  when (truthy template)
    (context <- prop statement "context" ;;
     ca <- prop context "contextActivities" ;;
     ca' <- (if truthy ca then ret ca else new (plain [])) ;;
     set_prop context "contextActivities" ca' ;;
     t_ca <- prop template "contextActivities" ;;
     parent <- opt_prop t_ca "parent" ;;
     when (truthy parent)
       (t_ca <- prop template "contextActivities" ;;
        parent <- prop t_ca "parent" ;;
        context <- prop statement "context" ;;
        ca <- prop context "contextActivities" ;;
        set_prop ca "parent" parent) ;;
     t_ca <- prop template "contextActivities" ;;
     grouping <- opt_prop t_ca "grouping" ;;
     when (truthy grouping)
       (t_ca <- prop template "contextActivities" ;;
        grouping <- prop t_ca "grouping" ;;
        context <- prop statement "context" ;;
        ca <- prop context "contextActivities" ;;
        set_prop ca "grouping" grouping)) ;;
  ret statement.

Definition sendStatement (verb result object : val) : M val :=
  i <- get initialized ;;
  c <- (if truthy i then isConnected else ret false) ;;
  if negb (truthy i) || negb c then ret VNull
  else
    t <- get terminated ;;
    if truthy t then ret VNull
    else
      statement <- allowed_statement verb result object ;;
      Cmi5.sendStatement statement.

Definition sendStatementSync (verb result object : val) : M val :=
  i <- get initialized ;;
  c <- (if truthy i then isConnected else ret false) ;;
  t <- get terminated ;;
  if negb (truthy i) || negb c || truthy t then ret VNull
  else
    statement <- allowed_statement verb result object ;;
    Cmi5.sendStatementSync statement.
End WithBrowser.
End Public.

(** ** Page life cycle *)

(** A page load starts the script afresh: new variables and heap, the
    same session storage, and the network goes on. *)
Definition fresh_page (w : world) : world :=
  {| heap := []; sessionStorage := sessionStorage w; network := network w;
     requests := requests w; now := now w; uuids := uuids w;
     statementLog := []; vars := initial |}.

(** The [DOMContentLoaded] handler. *)
Definition page_load (B : browser) (w : world) : res bool * world :=
  Public.initialize B (fresh_page w).

(** The [beforeunload] and [pagehide] handlers. *)
Definition beforeunload (B : browser) : M unit :=
  i <- Public.isInitialized ;;
  t <- Public.isTerminated ;;
  c <- Public.isConnected ;;
  if truthy i && negb (truthy t) && c then Public.terminateSync B ;; ret tt
  else ret tt.

(** The requests of the trace that are credential exchanges. *)
Definition is_exchange (rq : request) : bool :=
  match rq_resource rq with Exchange => true | _ => false end.

Definition exchanges (w : world) : nat := length (List.filter is_exchange (requests w)).

End Cmi5.

(* ===================================================================== *)
(** * js/xapi-tracker.js: the statement queue *)
(* ===================================================================== *)

Module XAPITracker.
Import JS.

Definition SEND_TO_LRS : bool := true.

(** What [sendStatement] queues. Every caller passes the verb by name;
    [object] and [result] are taken from the options as they are. *)
Record statement := {
  verb_id : string;
  verb_display : string;
  object : option json;
  result : option json;
  timestamp : string
}.

Record options := { o_object : option json; o_result : option json }.

Definition verbMap : list (string * string) :=
  [("experienced", "http://adlnet.gov/expapi/verbs/experienced");
   ("exited", "http://adlnet.gov/expapi/verbs/exited");
   ("interacted", "http://adlnet.gov/expapi/verbs/interacted");
   ("played", "https://w3id.org/xapi/video/verbs/played");
   ("paused", "https://w3id.org/xapi/video/verbs/paused");
   ("seeked", "https://w3id.org/xapi/video/verbs/seeked");
   ("answered", "http://adlnet.gov/expapi/verbs/answered");
   ("attempted", "http://adlnet.gov/expapi/verbs/attempted");
   ("suspended", "http://adlnet.gov/expapi/verbs/suspended");
   ("resumed", "http://adlnet.gov/expapi/verbs/resumed");
   ("progressed", "http://adlnet.gov/expapi/verbs/progressed")].

Definition getVerbId (verb : string) : string :=
  match assoc verb verbMap with
  | Some id => if String.eqb id "" then "http://adlnet.gov/expapi/verbs/" ++ verb else id
  | None => "http://adlnet.gov/expapi/verbs/" ++ verb
  end.

(** What the tracker sees of the wrapper. *)
Record cmi5_status := { isConnected : bool; isTerminated : bool }.

(** A call of [processBatch] is a task; its number stands for the promise
    the call returned. A task is suspended at [await batchPromise], or at
    [await Cmi5.sendStatement(...)] for [batch[i]], or it has returned. *)
Inductive task :=
| Returned
| AwaitBatch (promise : nat)
| AwaitSend (batch : list statement) (i : nat).

(** [Cmi5] is [None] while [typeof Cmi5 === 'undefined']. [transport]
    lists the calls of [Cmi5.sendStatement] made so far, in order, each
    with the task that made it. *)
Record state := {
  statementQueue : list statement;
  sessionEnded : bool;
  batchInProgress : bool;
  batchPromise : option nat;
  tasks : list task;
  transport : list (nat * statement);
  Cmi5 : option cmi5_status
}.

Definition initial : state :=
  {| statementQueue := []; sessionEnded := false; batchInProgress := false;
     batchPromise := None; tasks := []; transport := []; Cmi5 := None |}.

Definition set_statementQueue (q : list statement) (s : state) : state :=
  {| statementQueue := q; sessionEnded := sessionEnded s;
     batchInProgress := batchInProgress s; batchPromise := batchPromise s;
     tasks := tasks s; transport := transport s; Cmi5 := Cmi5 s |}.
Definition set_sessionEnded (b : bool) (s : state) : state :=
  {| statementQueue := statementQueue s; sessionEnded := b;
     batchInProgress := batchInProgress s; batchPromise := batchPromise s;
     tasks := tasks s; transport := transport s; Cmi5 := Cmi5 s |}.
Definition set_batchInProgress (b : bool) (s : state) : state :=
  {| statementQueue := statementQueue s; sessionEnded := sessionEnded s;
     batchInProgress := b; batchPromise := batchPromise s;
     tasks := tasks s; transport := transport s; Cmi5 := Cmi5 s |}.
Definition set_batchPromise (p : option nat) (s : state) : state :=
  {| statementQueue := statementQueue s; sessionEnded := sessionEnded s;
     batchInProgress := batchInProgress s; batchPromise := p;
     tasks := tasks s; transport := transport s; Cmi5 := Cmi5 s |}.
Definition set_tasks (t : list task) (s : state) : state :=
  {| statementQueue := statementQueue s; sessionEnded := sessionEnded s;
     batchInProgress := batchInProgress s; batchPromise := batchPromise s;
     tasks := t; transport := transport s; Cmi5 := Cmi5 s |}.
Definition set_transport (t : list (nat * statement)) (s : state) : state :=
  {| statementQueue := statementQueue s; sessionEnded := sessionEnded s;
     batchInProgress := batchInProgress s; batchPromise := batchPromise s;
     tasks := tasks s; transport := t; Cmi5 := Cmi5 s |}.
Definition set_Cmi5 (c : option cmi5_status) (s : state) : state :=
  {| statementQueue := statementQueue s; sessionEnded := sessionEnded s;
     batchInProgress := batchInProgress s; batchPromise := batchPromise s;
     tasks := tasks s; transport := transport s; Cmi5 := c |}.

(** [typeof Cmi5 !== 'undefined' && Cmi5.isTerminated()] *)
Definition wrapper_terminated (s : state) : bool :=
  match Cmi5 s with Some c => isTerminated c | None => false end.

(** [typeof Cmi5 !== 'undefined' && Cmi5.isConnected() && !Cmi5.isTerminated()] *)
Definition wrapper_ready (s : state) : bool :=
  match Cmi5 s with Some c => isConnected c && negb (isTerminated c) | None => false end.

Definition sendStatement (verb : string) (opts : options) (now : string) (s : state) : state :=
  if sessionEnded s then s
  else if wrapper_terminated s then
    set_statementQueue [] (set_sessionEnded true s)
  else
    let statement := {| verb_id := getVerbId verb; verb_display := verb;
                        object := o_object opts; result := o_result opts;
                        timestamp := now |} in
    set_statementQueue (statementQueue s ++ [statement])%list s.

(** The [finally] block. *)
Definition finish (s : state) : task * state := (Returned, set_batchInProgress false s).

(** [q.slice(-n)] *)
Definition slice_last {A} (n : nat) (q : list A) : list A := drop (length q - n) q.

(** Iteration [i] of the delivery loop of task [p]: the call of
    [Cmi5.sendStatement] for [batch[i]], or the end of the loop. *)
Definition deliver (p : nat) (batch : list statement) (i : nat) (s : state) : task * state :=
  match batch !! i with
  | Some stmt => (AwaitSend batch i, set_transport (transport s ++ [(p, stmt)])%list s)
  | None => finish s
  end.

(** From [batchInProgress = true] to the first suspension or the return. *)
Definition run_batch (p : nat) (s : state) : task * state :=
  let s := set_batchInProgress true s in
  if wrapper_ready s then
    let batch := statementQueue s in
    deliver p batch 0 (set_statementQueue [] s)
  else if wrapper_terminated s then
    finish (set_statementQueue [] (set_sessionEnded true s))
  else if (100 <? length (statementQueue s))%nat then
    finish (set_statementQueue (slice_last 100 (statementQueue s)) s)
  else finish s.

(** What follows [await batchPromise]. *)
Definition after_wait (p : nat) (s : state) : task * state :=
  if (length (statementQueue s) =? 0)%nat || sessionEnded s then (Returned, s)
  else run_batch p s.

(** A call of [processBatch], up to its first suspension. *)
Definition processBatch (p : nat) (s : state) : task * state :=
  if sessionEnded s then (Returned, set_statementQueue [] s)
  else if (length (statementQueue s) =? 0)%nat then (Returned, s)
  else if negb SEND_TO_LRS then (Returned, set_statementQueue [] s)
  else if batchInProgress s then
    match batchPromise s with
    | Some q => (AwaitBatch q, s)
    | None => after_wait p s
    end
  else run_batch p s.

(** How the promise of a [Cmi5.sendStatement] call settles; a rejection
    carries [e.message || e.toString()]. *)
Inductive outcome :=
| Resolved
| Rejected (errorMsg : string).

Definition session_invalidated (errorMsg : string) : bool :=
  includes errorMsg "session not found" || includes errorMsg "401".

(** Task [p] resumes in its loop at [batch[i]] with the outcome of the
    call. *)
Definition resume_send (p : nat) (batch : list statement) (i : nat) (o : outcome)
    (s : state) : task * state :=
  match o with
  | Resolved => deliver p batch (S i) s
  | Rejected errorMsg =>
      if session_invalidated errorMsg then
        finish (set_statementQueue [] (set_sessionEnded true s))
      else if negb (sessionEnded s) then
        finish (set_statementQueue (drop i batch ++ statementQueue s)%list s)
      else finish s
  end.

Definition set_task (p : nat) (t : task) (s : state) : state :=
  set_tasks (<[p := t]> (tasks s)) s.

Definition is_returned (s : state) (q : nat) : bool :=
  match tasks s !! q with Some Returned => true | _ => false end.

(** The first task whose awaited promise has resolved. *)
Fixpoint find_ready (s : state) (l : list task) (p : nat) : option nat :=
  match l with
  | [] => None
  | AwaitBatch q :: r => if is_returned s q then Some p else find_ready s r (S p)
  | _ :: r => find_ready s r (S p)
  end.

(** The microtasks that run before the next event: every task whose
    awaited promise has resolved goes on. A task is resumed from
    [await batchPromise] once only, so [n] rounds with [n] the number of
    tasks are enough. *)
Fixpoint drain (n : nat) (s : state) : state :=
  match n with
  | O => s
  | S n' =>
      match find_ready s (tasks s) 0 with
      | Some p => let '(t, s1) := after_wait p s in drain n' (set_task p t s1)
      | None => s
      end
  end.

(** What happens on the page, one macrotask at a time. [Flush] stands
    for [batchPromise = processBatch()] (timer tick, [flush()], game
    result, page unload). *)
Inductive event :=
| Submit (verb : string) (opts : options) (now : string)
| Flush
| Settle (p : nat) (o : outcome)
| Stop
| Wrapper (c : option cmi5_status).

Definition handle (e : event) (s : state) : state :=
  match e with
  | Submit verb opts now => sendStatement verb opts now s
  | Flush =>
      let p := length (tasks s) in
      let '(t, s1) := processBatch p s in
      set_batchPromise (Some p) (set_tasks (tasks s1 ++ [t])%list s1)
  | Settle p o =>
      match tasks s !! p with
      | Some (AwaitSend batch i) =>
          let '(t, s1) := resume_send p batch i o s in set_task p t s1
      | _ => s
      end
  | Stop => set_statementQueue [] (set_sessionEnded true s)
  | Wrapper c => set_Cmi5 c s
  end.

Definition step (s : state) (e : event) : state :=
  let s1 := handle e s in drain (length (tasks s1)) s1.

Definition run (s : state) (es : list event) : state := fold_left step es s.

Definition is_sending (t : task) : bool :=
  match t with AwaitSend _ _ => true | _ => false end.

(** The delivery loops that are under way. *)
Definition in_flight (s : state) : nat := length (List.filter is_sending (tasks s)).

End XAPITracker.

(* ===================================================================== *)
(** * js/xapi-tracker.js: utilities *)
(* ===================================================================== *)

Module TrackerUtil.
Import JS.

(** [formatDuration(ms)] *)
Definition formatDuration (ms : Q) : string :=
  let seconds := Qfloor (ms / 1000) in
  let minutes := seconds / 60 in
  let hours := minutes / 60 in
  let s := Z.rem seconds 60 in
  let m := Z.rem minutes 60 in
  let h := hours in
  "PT" ++ (if 0 <? h then number_text h ++ "H" else "")
       ++ (if 0 <? m then number_text m ++ "M" else "")
       ++ number_text s ++ "S".

(** ** [generateUUID]: the branch for a browser without
    [crypto.randomUUID] (the function of the same name in
    js/cmi5-wrapper.js has the same body) *)

(** The integer part of a number, towards zero. *)
Definition truncate (q : Q) : Z := Z.quot (Qnum q) (Z.pos (Qden q)).

Definition ToInt32 (z : Z) : Z := (z + 2147483648) mod 4294967296 - 2147483648.

(** [x | 0] *)
Definition or_zero (q : Q) : Z := ToInt32 (truncate q).

Definition hex_digits : string := "0123456789abcdef".

Definition hex_digit (d : Z) : ascii :=
  match String.get (Z.to_nat d) hex_digits with
  | Some c => c
  | None => "0"%char
  end.

Fixpoint hex_from (fuel : nat) (v : Z) (acc : string) : string :=
  match fuel with
  | O => acc
  | S f =>
      let acc' := String (hex_digit (v mod 16)) acc in
      if v / 16 =? 0 then acc' else hex_from f (v / 16) acc'
  end.

(** [v.toString(16)] of an integer *)
Definition toString16 (v : Z) : string :=
  if v <? 0 then String "-" (hex_from (S (Z.to_nat (Z.log2 (- v)))) (- v) "")
  else hex_from (S (Z.to_nat (Z.log2 v))) v "".

(** [template.replace(/[xy]/g, c => ...)]: every [x] and [y], from left
    to right, is replaced by what the callback returns; [random n] is
    what the [n]-th call of [Math.random()] returns. *)
Fixpoint replace_xy (template : string) (random : nat -> Q) (calls : nat) : string :=
  match template with
  | EmptyString => EmptyString
  | String c rest =>
      if Ascii.eqb c "x" || Ascii.eqb c "y" then
        let r := or_zero (random calls * 16) in
        let v := if Ascii.eqb c "x" then r else Z.lor (Z.land r 3) 8 in
        toString16 v ++ replace_xy rest random (S calls)
      else String c (replace_xy rest random calls)
  end.

(** [crypto_randomUUID] is what [crypto.randomUUID()] returns, when the
    browser has it. *)
Definition generateUUID (crypto_randomUUID : option string) (random : nat -> Q) : string :=
  match crypto_randomUUID with
  | Some u => u
  | None => replace_xy "xxxxxxxx-xxxx-4xxx-yxxx-xxxxxxxxxxxx" random 0
  end.

(** ** [logEvent] *)

(** The events in memory and the item [xapi-events] of the session
    store ([None]: there is none). An event stands for its JSON form;
    the item is only ever written here, so it is kept as the list
    [JSON.parse] reads from it. *)
Record event_log {event : Type} := {
  allEvents : list event;
  eventQueue : list event;
  xapi_events : option (list event)
}.
Arguments event_log : clear implicits.

(** [setItem] throws when the quota is exceeded, and the error is
    swallowed: [fits] tells whether the list can be stored. *)
Definition logEvent {event : Type} (fits : list event -> bool) (e : event)
    (s : event_log event) : event_log event :=
  let stored := (default [] (xapi_events s) ++ [e])%list in
  let stored := if (1000 <? length stored)%nat then tail stored else stored in
  {| allEvents := (allEvents s ++ [e])%list;
     eventQueue := (eventQueue s ++ [e])%list;
     xapi_events := if fits stored then Some stored else xapi_events s |}.

(** ** [makeActivityId] *)

(** A JavaScript string: its UTF-16 code units. *)
Definition units := list N.

(** [\s] *)
Definition is_space (c : N) : bool :=
  existsb (N.eqb c)
    [9; 10; 11; 12; 13; 32; 160; 5760; 8192; 8193; 8194; 8195; 8196; 8197; 8198; 8199;
     8200; 8201; 8202; 8232; 8233; 8239; 8287; 12288; 65279]%N.

(** [\w] *)
Definition is_word (c : N) : bool :=
  ((48 <=? c) && (c <=? 57) || (65 <=? c) && (c <=? 90) || (c =? 95)
   || (97 <=? c) && (c <=? 122))%N.

(** [.replace(/\s+/g, '-')]; [in_run] says that the unit before was a
    space. *)
Fixpoint spaces_to_hyphen (s : units) (in_run : bool) : units :=
  match s with
  | [] => []
  | c :: r =>
      if is_space c then
        if in_run then spaces_to_hyphen r true else 45%N :: spaces_to_hyphen r true
      else c :: spaces_to_hyphen r false
  end.

(** The units [[^\w\-\.]] does not match. *)
Definition kept (c : N) : bool := is_word c || existsb (N.eqb c) [45; 46]%N.

(** What is encoded of a segment. *)
Definition clean_segment (seg : units) : units :=
  take 50 (List.filter kept (spaces_to_hyphen seg false)).

(** The units [encodeURIComponent] leaves as they are. *)
Definition unreserved (c : N) : bool :=
  is_word c || existsb (N.eqb c) [45; 46; 33; 126; 42; 39; 40; 41]%N.

Definition utf8 (cp : N) : list N :=
  (if cp <? 128 then [cp]
   else if cp <? 2048 then [192 + cp / 64; 128 + cp mod 64]
   else if cp <? 65536 then [224 + cp / 4096; 128 + (cp / 64) mod 64; 128 + cp mod 64]
   else [240 + cp / 262144; 128 + (cp / 4096) mod 64; 128 + (cp / 64) mod 64;
         128 + cp mod 64])%N.

Definition upper_hex (d : N) : N := (if d <? 10 then 48 + d else 55 + d)%N.

Definition percent (bytes : list N) : units :=
  flat_map (fun b => [37; upper_hex (b / 16); upper_hex (b mod 16)]%N) bytes.

Definition is_high (c : N) : bool := ((55296 <=? c) && (c <=? 56319))%N.
Definition is_low (c : N) : bool := ((56320 <=? c) && (c <=? 57343))%N.

(** [encodeURIComponent]; [None] is the URIError for a surrogate that
    is not part of a pair. *)
Fixpoint encodeURIComponent (s : units) : option units :=
  match s with
  | [] => Some []
  | c :: r =>
      if unreserved c then option_map (cons c) (encodeURIComponent r)
      else if is_high c then
        match r with
        | d :: r' =>
            if is_low d then
              option_map
                (app (percent (utf8 ((c - 55296) * 1024 + (d - 56320) + 65536)%N)))
                (encodeURIComponent r')
            else None
        | [] => None
        end
      else if is_low c then None
      else option_map (app (percent (utf8 c))) (encodeURIComponent r)
  end.

Fixpoint encode_all (segments : list units) : option (list units) :=
  match segments with
  | [] => Some []
  | seg :: r =>
      match encodeURIComponent (clean_segment seg) with
      | Some e => option_map (cons e) (encode_all r)
      | None => None
      end
  end.

Fixpoint drop_slashes (s : units) : units :=
  match s with
  | c :: r => if (c =? 47)%N then drop_slashes r else s
  | [] => []
  end.

(** [.replace(/\/+$/, '')] *)
Definition cleanBase (basePath : units) : units :=
  rev (drop_slashes (rev basePath)).

(** [parts.join('/')] *)
Fixpoint join (parts : list units) : units :=
  match parts with
  | [] => []
  | [p] => p
  | p :: r => (p ++ 47%N :: join r)%list
  end.

(** [segments] are the strings [String(seg)] yields; [None] is an
    exception. *)
Definition makeActivityId (basePath : units) (segments : list units) : option units :=
  match encode_all segments with
  | Some encodedSegments => Some (cleanBase basePath ++ 47%N :: join encodedSegments)%list
  | None => None
  end.

End TrackerUtil.


(* ===================================================================== *)
(** * Vocabulary of the properties, and sample runs *)
(* ===================================================================== *)

Module TrackerSamples.
Import XAPITracker.

Definition live : option cmi5_status :=
  Some {| isConnected := true; isTerminated := false |}.

Definition bare : options := {| o_object := None; o_result := None |}.

(** The tracker next to a connected wrapper, nothing queued. *)
Definition connected : state := set_Cmi5 live initial.

(** A flush is under way (task 0); a timer tick finds the queue empty
    (task 1 returns at once and becomes [batchPromise]); an answer is
    queued and flushed (task 2). *)
Definition overlap : list event :=
  [Submit "experienced" bare "2026-01-01T10:00:00.000Z"; Flush;
   Flush;
   Submit "answered" bare "2026-01-01T10:00:04.000Z"; Flush].

Definition unauthorized : string :=
  "LRS request failed: 401 Unauthorized - session not found".

(** As [overlap] with two statements in the second batch, and then the
    first delivery is refused for a session that is gone. *)
Definition overlap_then_halt : list event :=
  [Submit "experienced" bare "2026-01-01T10:00:00.000Z"; Flush;
   Flush;
   Submit "answered" bare "2026-01-01T10:00:04.000Z";
   Submit "progressed" bare "2026-01-01T10:00:05.000Z"; Flush;
   Settle 0 (Rejected unauthorized)].

Definition numbered (n : string) : event := Submit n bare "2026-01-01T10:00:00.000Z".

(** Five statements are flushed, the first two are delivered and a sixth
    is queued meanwhile. *)
Definition two_of_five : list event :=
  [numbered "1"; numbered "2"; numbered "3"; numbered "4"; numbered "5"; Flush;
   Settle 0 Resolved; numbered "6"; Settle 0 Resolved].

Definition unavailable : string :=
  "LRS request failed: 503 Service Unavailable - try again".

(** One statement is flushed and the tracker is stopped before the
    delivery fails. *)
Definition stopped_in_flight : list event :=
  [numbered "1"; Flush; Stop].

(** Three statements are queued next to a connected wrapper. *)
Definition three_queued : state :=
  run connected [numbered "1"; numbered "2"; numbered "3"].

(** Two statements are queued and flushed; the first delivery is under
    way. *)
Definition first_in_flight : state :=
  run connected [numbered "1"; numbered "2"; Flush].

(** No wrapper on the page and [n] statements queued. *)
Definition offline (n : nat) : state :=
  set_statementQueue
    (map (fun i => {| verb_id := getVerbId "experienced"; verb_display := "experienced";
                      object := None; result := None;
                      timestamp := pretty i |}) (seq 0 n)) initial.

(** The tracker has no connection: there is no wrapper, or the wrapper
    has no endpoint or no credential. *)
Definition disconnected (s : state) : Prop :=
  match Cmi5 s with None => True | Some c => isConnected c = false end.

(** The tracker has halted: the session is ended and nothing is queued. *)
Definition halted (s : state) : Prop :=
  sessionEnded s = true /\ statementQueue s = [].

End TrackerSamples.

Module HeapSpec.
Import JS.

Fixpoint json_depth (j : json) : nat :=
  match j with
  | JArr items => S (list_max (map json_depth items))
  | JObj fields => S (list_max (map (fun f => json_depth (snd f)) fields))
  | _ => 0
  end.

Definition rep_items (rep : val -> json -> Prop) : list json -> list val -> Prop :=
  fix go (js : list json) (vs : list val) : Prop :=
    match js, vs with
    | [], [] => True
    | j :: js', v :: vs' => rep v j /\ go js' vs'
    | _, _ => False
    end.

Definition rep_fields (rep : val -> json -> Prop) :
    list (string * json) -> list (string * val) -> Prop :=
  fix go (fs : list (string * json)) (ps : list (string * val)) : Prop :=
    match fs, ps with
    | [], [] => True
    | (k, j) :: fs', (k', v) :: ps' => k = k' /\ rep v j /\ go fs' ps'
    | _, _ => False
    end.

(** The value [v] is, in the heap [h], the tree [j]: what [JSON.parse]
    builds, cell for cell. *)
Fixpoint rep (h : heap) (v : val) (j : json) : Prop :=
  match j with
  | JNull => v = VNull
  | JBool b => v = VBool b
  | JNum q => v = VNum q
  | JStr s => v = VStr s
  | JArr items =>
      exists l vs, v = VRef l /\ h !! l = Some (array vs) /\
                   rep_items (fun v j => rep h v j) items vs
  | JObj fields =>
      exists l ps, v = VRef l /\ h !! l = Some (plain ps) /\
                   rep_fields (fun v j => rep h v j) fields ps
  end.

(** Every cell of [h] is a cell of [h'], unchanged. *)
Definition grows (h h' : heap) : Prop :=
  forall l o, h !! l = Some o -> h' !! l = Some o.

(** Truthiness and [===] against a primitive, read off a stored field
    ([None]: the field is not there). *)
Definition jtruthy (j : option json) : bool :=
  match j with
  | None | Some JNull => false
  | Some (JBool b) => b
  | Some (JNum q) => negb (Qeq_bool q 0)
  | Some (JStr s) => negb (String.eqb s "")
  | Some (JArr _) | Some (JObj _) => true
  end.

Definition primitive (v : val) : Prop :=
  match v with VRef _ => False | _ => True end.

Definition jprim (j : option json) : val :=
  match j with
  | None => VUndef
  | Some JNull => VNull
  | Some (JBool b) => VBool b
  | Some (JNum q) => VNum q
  | Some (JStr s) => VStr s
  | Some (JArr _) | Some (JObj _) => VUndef
  end.

Definition jcompound (j : option json) : bool :=
  match j with Some (JArr _) | Some (JObj _) => true | _ => false end.

(** [v], read from a parsed object, is the stored field [j]. *)
Definition reads (v : val) (j : option json) : Prop :=
  if jcompound j then exists l, v = VRef l else v = jprim j.

(** A serialisation that did not meet a cycle. *)
Definition ser_ok (s : ser) : Prop := match s with SerCyclic => False | _ => True end.

End HeapSpec.

Module WrapperSpec.
Import JS Browser Cmi5.
Local Open Scope js_scope.

(** A computation leaves an observation of the world as it was, however
    it ends. *)
Definition keeps {A X : Type} (obs : world -> X) (m : M A) : Prop :=
  forall w, obs (snd (m w)) = obs w.

(** What a computation may leave alone. Building a statement is [quiet]:
    only the heap, the id supply and the clock move. Sending one to the
    record store keeps [core_log]; the senders write the log and keep
    [core]. *)
Definition quiet (w : world) :=
  (sessionStorage w, vars w, statementLog w, requests w, network w).
Definition core_log (w : world) :=
  (sessionStorage w, vars w, statementLog w, exchanges w).
Definition core (w : world) := (sessionStorage w, vars w, exchanges w).

Definition not_exchange (p : resource) : Prop :=
  match p with Exchange => False | _ => True end.

(** The session id [loadSessionData] and [initialize] read from the fetch
    parameter of the page ([null] when there is none). *)
Definition current_session (B : browser) : val :=
  let f := param B "fetch" in
  if truthy f then default VNull (session_of_url B f) else VNull.

(** The same, as [Some] of the id when one is there; an empty id counts
    as none, as it does for the code. *)
Definition launch_session (B : browser) : option string :=
  match assoc "fetch" (search B) with
  | Some u =>
      if String.eqb u "" then None
      else match URL_session B u with
           | Some (Some x) => if String.eqb x "" then None else Some x
           | _ => None
           end
  | None => None
  end.

(** The stored registration is the registration parameter of the page. *)
Definition same_registration (B : browser) (stored : list (string * json)) : Prop :=
  exists r, assoc "registration" stored = Some (JStr r) /\
            assoc "registration" (search B) = Some r.

(** If the fetch URL of the page names a session, it is the stored one. *)
Definition same_session (B : browser) (stored : list (string * json)) : Prop :=
  forall x, launch_session B = Some x -> assoc "sessionId" stored = Some (JStr x).

(** The tests of [loadSessionData], on the stored tree. *)
Definition registrationMatches (B : browser) (stored : list (string * json)) : bool :=
  HeapSpec.jtruthy (assoc "registration" stored) &&
  (if HeapSpec.jcompound (assoc "registration" stored) then false
   else strict_eq (HeapSpec.jprim (assoc "registration" stored)) (param B "registration")).

Definition sessionMatches (B : browser) (stored : list (string * json)) : bool :=
  negb (truthy (current_session B)) ||
  (if HeapSpec.jcompound (assoc "sessionId" stored) then false
   else strict_eq (HeapSpec.jprim (assoc "sessionId" stored)) (current_session B)).

(** Every launch parameter is there, and the actor parses to something
    truthy. *)
Definition complete_launch (B : browser) : Prop :=
  exists e f a r i ja,
    assoc "endpoint" (search B) = Some e /\ e <> "" /\
    assoc "fetch" (search B) = Some f /\ f <> "" /\
    assoc "actor" (search B) = Some a /\ a <> "" /\
    JSON_parse B a = Some ja /\ HeapSpec.jtruthy (Some ja) = true /\
    assoc "registration" (search B) = Some r /\ r <> "" /\
    assoc "activityId" (search B) = Some i /\ i <> "".

(** The stored object a later load of the same launch restores: the
    registration and the session match and the credential is there. *)
Definition Credential (B : browser) (w : world) : Prop :=
  exists fs, sessionStorage w = Some (JObj fs) /\
    registrationMatches B fs = true /\ sessionMatches B fs = true /\
    HeapSpec.jtruthy (assoc "authToken" fs) = true /\
    HeapSpec.jtruthy (assoc "endpoint" fs) = true.

(** The variables after the exchange of this launch. *)
Definition Launched (B : browser) (w : world) : Prop :=
  exists e t r sid,
    vars w endpoint = VStr e /\ e <> "" /\
    vars w authToken = VStr t /\ t <> "" /\
    vars w registration = VStr r /\ r <> "" /\ param B "registration" = VStr r /\
    vars w sessionId = VStr sid /\
    (truthy (current_session B) = true -> current_session B = VStr sid).

Definition Settled (B : browser) (w : world) : Prop := Credential B w /\ Launched B w.

(** Every variable holds a primitive or the root of a tree. *)
Definition Trees (w : world) : Prop :=
  forall x, HeapSpec.primitive (vars w x) \/
            exists j, HeapSpec.rep (heap w) (vars w x) j /\
                      (HeapSpec.json_depth j <= length (heap w))%nat.

(** What [Settled] depends on. *)
Definition credentials (w : world) :=
  (sessionStorage w, vars w endpoint, vars w authToken, vars w registration,
   vars w sessionId).

(** A property of the world a computation preserves, however it ends. *)
Definition holds {A : Type} (I : world -> Prop) (m : M A) : Prop :=
  forall w, I w -> I (snd (m w)).

(** The token of an answer to the exchange:
    [data['auth-token'] || data.authToken || data.token]. *)
Definition token_field (fs : list (string * json)) : option json :=
  if HeapSpec.jtruthy (assoc "auth-token" fs) then assoc "auth-token" fs
  else if HeapSpec.jtruthy (assoc "authToken" fs) then assoc "authToken" fs
  else assoc "token" fs.

(** The answer is a success with a JSON object that holds a token. *)
Definition carries_token (r : response) : Prop :=
  exists status statusText text fs s,
    r = Response status statusText text (Some (JObj fs)) /\ ok status = true /\
    token_field fs = Some (JStr s) /\ s <> "".

(** [n] loads of the page of one launch in one tab, one after the other. *)
Fixpoint loads (B : browser) (n : nat) (w : world) : world :=
  match n with
  | O => w
  | S n' => loads B n' (snd (page_load B w))
  end.

(** A call of [pass] or [fail] by the course. *)
Inductive verdict :=
| Pass (score : option Q)
| Fail (score : option Q).

Definition call (B : browser) (c : verdict) : M val :=
  match c with
  | Pass score => sendPassed B score
  | Fail score => sendFailed B score
  end.

(** The calls one after the other, each on the world the one before left,
    whether it returned or threw. *)
Fixpoint calls (B : browser) (l : list verdict) (w : world) : list (res val) * world :=
  match l with
  | [] => ([], w)
  | c :: r =>
      let '(x, w1) := call B c w in
      let '(xs, w2) := calls B r w1 in
      (x :: xs, w2)
  end.

(** The call sent its statement: it returned the statement id. *)
Definition sent (r : res val) : bool :=
  match r with Ret v => truthy v | Throw _ => false end.

(** The last entry of the statement log records a delivery. *)
Definition last_delivered (w : world) : Prop :=
  exists e, last (statementLog w) = Some e /\ lg_success e = VBool true.

End WrapperSpec.

Module FrameSpec.
Import JS Browser Cmi5.

(** A value that is no object of the first [n] cells of the heap. *)
Definition above (n : nat) (v : val) : Prop :=
  match v with VRef l => (n <= l)%nat | _ => True end.

(** Every property of the object is above [n]. *)
Definition all_above (n : nat) (o : obj) : Prop :=
  forall k v, In (k, v) (props o) -> above n v.

(** The properties through which the builders reach the objects they
    write to. *)
Definition links : list string :=
  ["context"; "extensions"; "contextActivities"; "category"].

(** Under a link, an object holds nothing of the first [n] cells. *)
Definition linked (n : nat) (ps : list (string * val)) : Prop :=
  forall k v, In k links -> assoc k ps = Some v -> above n v.

Definition closed (n : nat) (h : JS.heap) : Prop :=
  forall l o, (n <= l)%nat -> h !! l = Some o -> linked n (props o).

(** The heap [h0] and the variables [V0] are still there, whatever has
    been allocated since. *)
Definition framed (h0 : JS.heap) (V0 : var -> val) (w : world) : Prop :=
  (exists ext, heap w = (h0 ++ ext)%list) /\ closed (length h0) (heap w) /\ vars w = V0.

(** [m] keeps the frame, however it ends, and what it returns
    satisfies [post]. *)
Definition fr {A : Type} (h0 : JS.heap) (V0 : var -> val) (m : M A) (post : A -> Prop) : Prop :=
  forall w, framed h0 V0 w ->
    framed h0 V0 (snd (m w)) /\ forall a, fst (m w) = Ret a -> post a.

(** A statement built by the wrapper itself or for the tracker. *)
Inductive build_call :=
| Defined_statement (verb result objectOverride : val)
| Allowed_statement (verb result object : val).

Definition build_one (B : browser) (c : build_call) : M val :=
  match c with
  | Defined_statement verb result objectOverride => buildStatement B verb result objectOverride
  | Allowed_statement verb result object => Public.allowed_statement B verb result object
  end.

(** The builds one after the other, each on the world the one before
    left, whether it returned or threw. *)
Fixpoint build_all (B : browser) (l : list build_call) (w : world) : world :=
  match l with
  | [] => w
  | c :: r => build_all B r (snd (build_one B c w))
  end.

End FrameSpec.

Module MarkerSpec.
Import JS Browser Cmi5.

(** [cat.id === id] for an entry of a category list. *)
Definition has_id (h : JS.heap) (id : string) (v : val) : bool :=
  match read_prop h v "id" with
  | Some i => strict_eq i (VStr id)
  | None => false
  end.

(** [statement.context.contextActivities.category], when it is an
    array. *)
Definition category_of (h : JS.heap) (statement : val) : option (list val) :=
  match read_prop h statement "context" with
  | Some context =>
      match read_prop h context "contextActivities" with
      | Some ca =>
          match read_prop h ca "category" with
          | Some category => array_items h category
          | None => None
          end
      | None => None
      end
  | None => None
  end.

(** How often the category list of the statement holds the cmi5
    marker. *)
Definition markers (h : JS.heap) (statement : val) : option nat :=
  match category_of h statement with
  | Some l => Some (length (List.filter (has_id h CATEGORY_CMI5) l))
  | None => None
  end.

(** The same on a JSON tree. *)
Definition jhas_id (id : string) (j : json) : bool :=
  match j with
  | JObj fs =>
      match assoc "id" fs with
      | Some (JStr s) => String.eqb s id
      | _ => false
      end
  | _ => false
  end.

Definition jcategory (j : json) : list json :=
  match j with
  | JObj fs =>
      match assoc "contextActivities" fs with
      | Some (JObj ca) =>
          match assoc "category" ca with
          | Some (JArr items) => items
          | _ => []
          end
      | _ => []
      end
  | _ => []
  end.

Definition template_markers (j : json) : nat :=
  length (List.filter (jhas_id CATEGORY_CMI5) (jcategory j)).

(** The context template of the world is the tree [j]; no template
    counts as the empty object. *)
Definition template_is (w : world) (j : json) : Prop :=
  if truthy (vars w contextTemplate)
  then HeapSpec.rep (heap w) (vars w contextTemplate) j /\
       (HeapSpec.json_depth j <= length (heap w))%nat
  else j = JObj [].

(** A value that is not a reference to a cell that is not there. *)
Definition valid (h : JS.heap) (v : val) : Prop :=
  match v with VRef l => (l < length h)%nat | _ => True end.

(** The properties the category list is reached and judged by. *)
Definition protected : list string := ["contextActivities"; "category"; "id"].

(** From [h] to [h'] nothing that was there has changed under a
    protected property, and no array that was there has changed. *)
Definition quiet_heap (h h' : JS.heap) : Prop :=
  (length h <= length h')%nat /\
  forall v, valid h v ->
    (forall k, In k protected -> read_prop h' v k = read_prop h v k) /\
    array_items h' v = array_items h v.

(** The category list reached from a context, empty when there is
    none. *)
Definition category_items (h : JS.heap) (context : val) : list val :=
  match read_prop h context "contextActivities" with
  | Some ca =>
      match read_prop h ca "category" with
      | Some category => default [] (array_items h category)
      | None => []
      end
  | None => []
  end.

(** Nothing on the way from the context to the entries of its category
    list dangles. *)
Definition reach_valid (h : JS.heap) (context : val) : Prop :=
  valid h context /\
  forall ca, read_prop h context "contextActivities" = Some ca ->
    valid h ca /\
    forall category, read_prop h ca "category" = Some category ->
      valid h category /\
      forall l, array_items h category = Some l -> Forall (valid h) l.

(** What the steps before the marker is looked for establish: the heap
    has grown, the entries that were there are judged as before, and
    the category list of the context is the one it was. *)
Definition steady (context : val) (h h' : JS.heap) : Prop :=
  (length h <= length h')%nat /\
  (forall v id, valid h v -> has_id h' id v = has_id h id v) /\
  (reach_valid h context ->
   reach_valid h' context /\ category_items h' context = category_items h context).

(** The category list [l] is there, reached from the context through
    [ca] and [category]. *)
Definition chain (h : JS.heap) (context ca category : val) (l : list val) : Prop :=
  read_prop h context "contextActivities" = Some ca /\
  read_prop h ca "category" = Some category /\
  array_items h category = Some l /\
  valid h context /\ valid h ca /\ valid h category /\ Forall (valid h) l.

(** A computation that is quiet on the heap, however it ends. *)
Definition quietly {A : Type} (m : M A) : Prop :=
  forall w, quiet_heap (heap w) (heap (snd (m w))).

(** The keys of the object at [v]. *)
Definition keys_of (h : JS.heap) (v : val) : option (list string) :=
  match v with
  | VRef l => match h !! l with Some o => Some (map fst (props o)) | None => None end
  | _ => None
  end.

End MarkerSpec.

Module WrapperSamples.
Import JS Browser Cmi5 WrapperSpec.

(** A launch by an LMS: every parameter is there, the fetch URL names
    session S1. *)
Definition lms : browser :=
  {| search := [("endpoint", "https://lrs.example/xapi");
                ("fetch", "https://lms.example/fetch?session=S1");
                ("actor", "{name:Ann}");
                ("registration", "R1");
                ("activityId", "https://au.example/course")];
     URL_session := fun u =>
       if String.eqb u "https://lms.example/fetch?session=S1" then Some (Some "S1")
       else if String.eqb u "https://lms.example/fetch?session=S2" then Some (Some "S2")
       else None;
     JSON_parse := fun s =>
       if String.eqb s "{name:Ann}" then Some (JObj [("name", JStr "Ann")])
       else None;
     randomUUID := fun n => "00000000-0000-4000-8000-" ++ pretty n;
     toISOString := fun t => "T+" ++ pretty t |}.

(** The same page after the LMS has started session S2 for the same
    registration. *)
Definition lms_second_session : browser :=
  {| search := [("endpoint", "https://lrs.example/xapi");
                ("fetch", "https://lms.example/fetch?session=S2");
                ("actor", "{name:Ann}");
                ("registration", "R1");
                ("activityId", "https://au.example/course")];
     URL_session := URL_session lms; JSON_parse := JSON_parse lms;
     randomUUID := randomUUID lms; toISOString := toISOString lms |}.

Definition no_content : response := Response 204 "No Content" "" None.
Definition not_found : response := Response 404 "Not Found" "" None.
Definition forbidden : response := Response 403 "Forbidden" "already used" None.
Definition token : response :=
  Response 200 "OK" "{auth-token:QWxhZGRpbg==}"
    (Some (JObj [("auth-token", JStr "QWxhZGRpbg==")])).

Definition template : json :=
  JObj [("contextActivities",
         JObj [("grouping", JArr [JObj [("id", JStr "https://lms.example/course/7")]])]);
        ("extensions", JObj [(EXT_SESSIONID, JStr "S1")])].

Definition launch_data : response :=
  Response 200 "OK" "{...}"
    (Some (JObj [("contextTemplate", template); ("masteryScore", JNum (4 # 5))])).

(** A page that has just been opened, with the answers the network will
    give. *)
Definition opened (answers : list response) : world :=
  {| heap := []; sessionStorage := None; network := answers; requests := [];
     now := 1767261600000; uuids := 0; statementLog := []; vars := initial |}.

Definition answering (answers : list response) (w : world) : world :=
  with_network answers (requests w) w.

(** A first launch that goes well: exchange, no preferences, launch data,
    [initialized] accepted; further statements are accepted too. *)
Definition launched : world :=
  snd (page_load lms
         (opened [token; not_found; launch_data; no_content;
                  no_content; no_content; no_content; no_content])).

(** The launched session when the record store refuses whatever comes
    next. *)
Definition launched_refused : world := answering [forbidden] launched.

(** The launched session after [passed] has been delivered. *)
Definition passed : world := snd (sendPassed lms (Some (9 # 10)) launched).

(** The network is down at the first load and back at the second. *)
Definition offline_at_first : world :=
  opened [NetworkError; token; not_found; launch_data; no_content].

(** The launched page is left: the unload handler runs, and the record
    store accepts the [terminated] statement. *)
Definition left_page : world := snd (beforeunload lms launched).

End WrapperSamples.


Module RequestSpec.
Import JS Browser Cmi5.

(** The wrapper has an endpoint and a credential. *)
Definition configured (w : world) : Prop :=
  exists es, vars w endpoint = VStr es /\ es <> "" /\ truthy (vars w authToken) = true.

(** The body of a request for [body] on the heap [h]. *)
Definition payload_of (h : JS.heap) (body : val) : option json :=
  if truthy body then ser_body (stringify h body) else None.

(** [JSON.stringify(body)] does not throw. *)
Definition serialisable (h : JS.heap) (body : val) : Prop :=
  truthy body = true -> stringify h body <> SerCyclic.

(** The request [lrsRequest] issues in the world [w]. *)
Definition request_of (w : world) (path : resource) (method : string) (body : val) : request :=
  {| rq_sync := false; rq_method := method;
     rq_base := match vars w endpoint with
                | VStr es => VStr (if endsWith es "/" then es else es ++ "/")
                | v => v
                end;
     rq_resource := path;
     rq_authorization := Some (vars w authToken);
     rq_body := payload_of (heap w) body |}.

(** An answer after which [lrsRequest] tries again, while it has tries
    left: no answer at all, or a status of 500 and above (or 0). *)
Definition transient (method : string) (r : response) : bool :=
  match r with
  | NetworkError => true
  | Response status _ _ _ =>
      negb (ok status) && negb ((status =? 404) && String.eqb method "GET")
      && ((500 <=? status) || (status =? 0))
  end.

(** An answer that makes [lrsRequest] throw at once: a failure status
    below 500 other than 0, apart from the 404 of a GET. *)
Definition rejected (method : string) (r : response) : bool :=
  match r with
  | NetworkError => false
  | Response status _ _ _ =>
      negb (ok status) && negb ((status =? 404) && String.eqb method "GET")
      && negb ((500 <=? status) || (status =? 0))
  end.

(** The time slept before retries [first], [first + 1], ... ([k] of
    them), retry [i] being the one after the [i]-th failure. *)
Fixpoint backoff (first k : nat) : Z :=
  match k with
  | O => 0
  | S k' => RETRY_DELAY_MS * (Z.of_nat first + 1) + backoff (S first) k'
  end.

(** The world after [k] attempts that were answered by [k] transient
    answers. *)
Definition after_retries (k : nat) (first : nat) (rq : request) (net : list response)
    (w : world) : world :=
  with_now (now w + backoff first k) (with_network net (repeat rq k ++ requests w)%list w).

(** What [lrsRequest] throws when it gives up on the answer [r]. *)
Definition failure_of (r : response) : exn :=
  match r with
  | NetworkError => TypeError "Failed to fetch"
  | Response status statusText text _ => Error (failure_message status statusText text)
  end.

(** A success answer. *)
Definition accepted (r : response) : bool :=
  match r with
  | NetworkError => false
  | Response status _ _ _ => ok status
  end.

(** What [lrsRequest] makes of the answer it stops at, in the world
    [w1] the request was sent in: the 404 of a GET is [null], any other
    failure is thrown, an empty body is [null], and a body is returned
    parsed, or as text when it does not parse. *)
Definition conclude (method : string) (r : response) (w1 : world) : res val * world :=
  match r with
  | NetworkError => (Throw (failure_of r), w1)
  | Response status statusText text parsed =>
      if negb (ok status) then
        if (status =? 404) && String.eqb method "GET" then (Ret VNull, w1)
        else (Throw (failure_of r), w1)
      else if String.eqb text "" then (Ret VNull, w1)
      else match parsed with
           | Some j => parse j w1
           | None => (Ret (VStr text), w1)
           end
  end.

(** The world the last of [k + 1] tries is answered in. *)
Definition after_tries (k : nat) (rq : request) (net : list response) (w : world) : world :=
  with_network net (rq :: requests (after_retries k 0 rq net w))
    (after_retries k 0 rq net w).

(** A computation that issues at most [n] requests, each of them a [P]:
    the requests of the world grow by that many at the head. *)
Definition sends {A : Type} (P : request -> Prop) (n : nat) (m : M A) : Prop :=
  forall w, exists l,
    requests (snd (m w)) = (l ++ requests w)%list /\ (length l <= n)%nat /\ Forall P l.

(** [isConnected()] of the world. *)
Definition connected (w : world) : bool :=
  truthy (vars w endpoint) && truthy (vars w authToken).

(** What a sender that cannot reach the record store must leave alone:
    the session store, the variables, and the network. *)
Definition traffic (w : world) :=
  (sessionStorage w, vars w, requests w, network w).

(** Under the condition [P] on the variables, a computation that throws
    and leaves the traffic alone; and one that does not report a
    statement as sent. *)
Definition fails {A : Type} (P : (var -> val) -> Prop) (m : M A) : Prop :=
  forall w, P (vars w) ->
    traffic (snd (m w)) = traffic w /\ exists e, fst (m w) = Throw e.

Definition inert (P : (var -> val) -> Prop) (m : M val) : Prop :=
  forall w, P (vars w) ->
    traffic (snd (m w)) = traffic w /\ WrapperSpec.sent (fst (m w)) = false.

(** The variables of a wrapper without a connection, and of one that
    is not terminated either. *)
Definition offline (vs : var -> val) : Prop :=
  truthy (vs endpoint) && truthy (vs authToken) = false.

Definition offline_open (vs : var -> val) : Prop :=
  offline vs /\ truthy (vs terminated) = false.

(** The calls of the public object that send a statement cmi5 defines. *)
Inductive defined_call :=
| Complete
| Passed (score : option Q)
| Failed (score : option Q)
| Terminate.

Definition send_defined (B : browser) (c : defined_call) : M val :=
  match c with
  | Complete => Public.complete B
  | Passed score => Public.pass B score
  | Failed score => Public.fail B score
  | Terminate => Public.terminate B
  end.

(** A synchronous [PUT] of a statement. *)
Definition sync_put (rq : request) : Prop :=
  rq_sync rq = true /\ rq_method rq = "PUT" /\
  exists id, rq_resource rq = Statements id.

(** An asynchronous request of [method] on [path]. *)
Definition fetch_of (path : resource) (method : string) (rq : request) : Prop :=
  rq_sync rq = false /\ rq_method rq = method /\ rq_resource rq = path.

End RequestSpec.

Module RequestSamples.
Import JS Browser Cmi5 WrapperSpec WrapperSamples.

Definition unavailable : response := Response 503 "Service Unavailable" "" None.

(** A page opened without launch parameters, as from the file system. *)
Definition standalone : browser :=
  {| search := []; URL_session := URL_session lms; JSON_parse := JSON_parse lms;
     randomUUID := randomUUID lms; toISOString := toISOString lms |}.

Definition standalone_page : world := snd (page_load standalone (opened [])).

(** The record store of the launched session is down for two tries and
    then accepts. *)
Definition recovering : world := answering [unavailable; NetworkError; no_content] launched.

(** The launched session with the verb of a [completed] statement on the
    heap. *)
Definition completed_verb : val * world :=
  match verb_literal VERB_COMPLETED "completed" launched with
  | (Ret v, w) => (v, w)
  | (Throw _, w) => (VUndef, w)
  end.

(** A [completed] statement built in the launched session. *)
Definition completed_statement : val * world :=
  match buildStatement lms (fst completed_verb) VNull VNull (snd completed_verb) with
  | (Ret v, w) => (v, w)
  | (Throw _, w) => (VUndef, w)
  end.

(** The launched session, a good hour on. *)
Definition an_hour_later : world := with_now (now launched + 3725999) launched.

End RequestSamples.


Module LaunchSpec.
Import JS Browser Cmi5 WrapperSpec RequestSpec.

(** The parameters of a launch by an LMS. *)
Definition launch_parameters : list string :=
  ["endpoint"; "fetch"; "actor"; "registration"; "activityId"].

(** One of them is not there, or is empty. *)
Definition missing_parameter (B : browser) : Prop :=
  exists k, In k launch_parameters /\ truthy (param B k) = false.

(** The request of the credential exchange. *)
Definition exchange_request (B : browser) : request :=
  {| rq_sync := false; rq_method := "POST"; rq_base := param B "fetch";
     rq_resource := Exchange; rq_authorization := None; rq_body := None |}.

(** An answer to the exchange that gives no credential: no answer, a
    failure status, a body that is not JSON, or an object without a
    token. *)
Definition refuses_exchange (r : response) : Prop :=
  match r with
  | NetworkError => True
  | Response status _ _ parsed =>
      ok status = false \/ parsed = None \/
      exists fs, parsed = Some (JObj fs) /\ HeapSpec.jtruthy (token_field fs) = false
  end.

(** The launch settings the course reads always have a value: the mode
    and the move-on criterion are truthy, the mastery score is neither
    [null] nor [undefined]. *)
Definition launch_defaults (vs : var -> val) : Prop :=
  truthy (vs launchMode) = true /\ truthy (vs moveOn) = true /\
  match vs masteryScore with VUndef | VNull => False | _ => True end.

End LaunchSpec.


Module ValueSpec.
Import JS Browser Cmi5.

(** An ISO 8601 duration as the wrapper and the tracker write it: hours
    and minutes only when they are not zero. *)
Definition duration_text (h m s : Z) : string :=
  "PT" ++ (if 0 <? h then number_text h ++ "H" else "")
       ++ (if 0 <? m then number_text m ++ "M" else "")
       ++ number_text s ++ "S".

(** [h] hours, [m] minutes and [s] seconds are [total] seconds. *)
Definition splits (total h m s : Z) : Prop :=
  0 <= h /\ 0 <= m < 60 /\ 0 <= s < 60 /\ 3600 * h + 60 * m + s = total.

End ValueSpec.


Module FlowSpec.
Import XAPITracker.

(** Every call of [processBatch] made so far has returned. *)
Definition idle (s : state) : Prop := Forall (fun t => t = Returned) (tasks s).

(** The session goes on, no batch is marked as in progress, and the
    wrapper is connected and not terminated. *)
Definition ready (s : state) : Prop :=
  sessionEnded s = false /\ batchInProgress s = false /\ wrapper_ready s = true.

(** Task [p] is in its loop at [batch[k]], the statements up to that one
    handed over, in a tracker that was [s] when the batch was taken. *)
Definition delivering (s : state) (p k : nat) (sk : state) : Prop :=
  tasks sk = (tasks s ++ [AwaitSend (statementQueue s) k])%list /\
  transport sk = (transport s ++ map (pair p) (take (S k) (statementQueue s)))%list /\
  statementQueue sk = [] /\ sessionEnded sk = false /\
  (k < length (statementQueue s))%nat.

(** The batch of [s] has been handed over by task [p], and the task has
    returned. *)
Definition delivered (s : state) (p : nat) (s' : state) : Prop :=
  transport s' = (transport s ++ map (pair p) (statementQueue s))%list /\
  statementQueue s' = [] /\ batchInProgress s' = false /\
  sessionEnded s' = false /\ idle s'.

End FlowSpec.


Module AllowedSpec.
Import JS Browser Cmi5.

(** A computation that allocates nothing and writes only under the
    properties [ks]: what is read under any other property is as it
    was, however the computation ends. *)
Definition writes_under {A : Type} (ks : list string) (m : M A) : Prop :=
  forall w,
    length (heap (snd (m w))) = length (heap w) /\
    forall v k, ~ In k ks -> read_prop (heap (snd (m w))) v k = read_prop (heap w) v k.

End AllowedSpec.


Module UtilSpec.
Import JS TrackerUtil.

Definition is_hex (c : ascii) : bool :=
  existsb (Ascii.eqb c) (list_ascii_of_string hex_digits).

(** The string follows the pattern: a hexadecimal digit for [x], one of
    [8], [9], [a], [b] for [y], and any other character of the pattern
    itself. *)
Fixpoint follows (pattern s : string) : bool :=
  match pattern, s with
  | EmptyString, EmptyString => true
  | String p pattern', String c s' =>
      (if Ascii.eqb p "x" then is_hex c
       else if Ascii.eqb p "y" then existsb (Ascii.eqb c) (list_ascii_of_string "89ab")
       else Ascii.eqb c p) && follows pattern' s'
  | _, _ => false
  end.

(** A version 4 UUID in its canonical form. *)
Definition uuid_v4 (s : string) : bool := follows "xxxxxxxx-xxxx-4xxx-yxxx-xxxxxxxxxxxx" s.

(** The events [es] are logged one after the other. *)
Definition log_all {event : Type} (fits : list event -> bool) (es : list event)
    (s : event_log event) : event_log event :=
  fold_left (fun s e => logEvent fits e s) es s.

End UtilSpec.

(* ===================================================================== *)
(** * Reasoning about wrapper computations *)
(* ===================================================================== *)

Module MonadFacts.
Import JS Browser Cmi5 WrapperSpec.
Local Open Scope js_scope.

(** Number formatting is of no concern to the proofs. *)
#[global] Opaque number_text.

Lemma bind_inv {A C} (m : M A) (k : A -> M C) w r w' :
  bind m k w = (r, w') ->
  (exists e, m w = (Throw e, w') /\ r = Throw e) \/
  (exists a w1, m w = (Ret a, w1) /\ k a w1 = (r, w')).
Proof.
  unfold bind. destruct (m w) as [[a|e] w1]; intros H.
  - right. eauto.
  - left. inversion H; subst. eauto.
Qed.

Lemma try_catch_inv {A} (m : M A) (h : exn -> M A) w r w' :
  try_catch m h w = (r, w') ->
  (exists a, m w = (Ret a, w') /\ r = Ret a) \/
  (exists e w1, m w = (Throw e, w1) /\ h e w1 = (r, w')).
Proof.
  unfold try_catch. destruct (m w) as [[a|e] w1]; intros H.
  - left. inversion H; subst. eauto.
  - right. eauto.
Qed.

Section Keeps.
Context {X : Type} (obs : world -> X).

Lemma keeps_ret {A} (a : A) : keeps obs (ret a).
Proof. intros w. reflexivity. Qed.

Lemma keeps_throw {A} (e : exn) : keeps obs (@throw _ A e).
Proof. intros w. reflexivity. Qed.

Lemma keeps_bind {A C} (m : M A) (k : A -> M C) :
  keeps obs m -> (forall a, keeps obs (k a)) -> keeps obs (bind m k).
Proof.
  intros Hm Hk w. unfold bind. specialize (Hm w).
  destruct (m w) as [[a|e] w1]; simpl in *.
  - rewrite (Hk a w1). exact Hm.
  - exact Hm.
Qed.

Lemma keeps_try_catch {A} (m : M A) (h : exn -> M A) :
  keeps obs m -> (forall e, keeps obs (h e)) -> keeps obs (try_catch m h).
Proof.
  intros Hm Hh w. unfold try_catch. specialize (Hm w).
  destruct (m w) as [[a|e] w1]; simpl in *.
  - exact Hm.
  - rewrite (Hh e w1). exact Hm.
Qed.

Lemma keeps_when (b : bool) (m : M unit) : keeps obs m -> keeps obs (when b m).
Proof. intros H. destruct b; [exact H|apply keeps_ret]. Qed.

End Keeps.

(** Primitive steps: unfold and compute. *)
Ltac keeps_prim :=
  let w := fresh "w" in
  intros w;
  unfold opt_prop; unfold get, Browser.set, new, prop, set_prop, push, items, parse,
    JSON_stringify, Date_now, sleep, transmit, getItem, setItem, removeItem,
    log_push, log_update_last, generateUUID, snapshot, ret, throw, alloc;
  repeat match goal with
         | |- context [match ?x with _ => _ end] => destruct x
         end;
  reflexivity.

Ltac keeps_step :=
  match goal with
  | |- keeps _ (bind _ _) => apply keeps_bind; [|intros ?]
  | |- keeps _ (try_catch _ _) => apply keeps_try_catch; [|intros ?]
  | |- keeps _ (when _ _) => apply keeps_when
  | |- keeps _ (ret _) => apply keeps_ret
  | |- keeps _ (throw _) => apply keeps_throw
  | |- keeps _ (if ?b then _ else _) => destruct b
  | |- keeps _ (match ?x with _ => _ end) => destruct x
  | |- keeps _ (let '(_, _) := ?x in _) => destruct x
  end.

Ltac keeps_auto := repeat keeps_step; try solve [assumption | keeps_prim].

Tactic Notation "bret" hyp(H) "as" ident(a) ident(w1) ident(Hm) :=
  apply bind_inv in H;
  destruct H as [(? & ? & ?Hr) | (a & w1 & Hm & H)]; [discriminate | ].

Lemma prop_inv v k (w : world) r w' :
  prop v k w = (r, w') -> w' = w /\ (forall x, r = Ret x -> read_prop (heap w) v k = Some x).
Proof.
  unfold prop. destruct (read_prop (heap w) v k); intros H; inversion H; subst; split; auto.
  - intros x Hx. inversion Hx. reflexivity.
  - intros x Hx. discriminate.
Qed.

Lemma keeps_run {A X} (obs : world -> X) (m : M A) w r w' :
  keeps obs m -> m w = (r, w') -> obs w' = obs w.
Proof. intros K H. specialize (K w). rewrite H in K. exact K. Qed.

Tactic Notation "bkeep" hyp(H) "using" uconstr(K) "as" ident(a) ident(w1) ident(Hk) :=
  apply bind_inv in H;
  destruct H as [(? & Hk & ->) | (a & w1 & Hk & H)];
  [apply (keeps_run _ _ _ _ _ K) in Hk | apply (keeps_run _ _ _ _ _ K) in Hk].

Lemma get_inv (x : var) (w : world) r w' :
  get x w = (r, w') -> r = Ret (vars w x) /\ w' = w.
Proof. unfold get. intros H. inversion H. auto. Qed.

(** ** Invariants *)

Lemma holds_bind {A C} (I : world -> Prop) (m : M A) (k : A -> M C) :
  holds I m -> (forall a, holds I (k a)) -> holds I (bind m k).
Proof.
  intros Hm Hk w Hw. unfold bind. specialize (Hm w Hw).
  destruct (m w) as [[a|e] w1]; simpl in *; [apply Hk, Hm|exact Hm].
Qed.

Lemma holds_try_catch {A} (I : world -> Prop) (m : M A) (h : exn -> M A) :
  holds I m -> (forall e, holds I (h e)) -> holds I (try_catch m h).
Proof.
  intros Hm Hh w Hw. unfold try_catch. specialize (Hm w Hw).
  destruct (m w) as [[a|e] w1]; simpl in *; [exact Hm|apply Hh, Hm].
Qed.

Lemma holds_keeps {A X} (obs : world -> X) (I : world -> Prop) (m : M A) :
  (forall w w', obs w' = obs w -> I w -> I w') -> keeps obs m -> holds I m.
Proof. intros H K w Hw. eapply H; [apply K|exact Hw]. Qed.

(** What a guarded sequence leaves of an observation its first step
    changes. *)
Lemma try_bind_obs {A C X} (obs : world -> X) (m : M A) (K : A -> M C) h w :
  (forall a, keeps obs (K a)) -> (forall e, keeps obs (h e)) ->
  obs (snd (try_catch (bind m K) h w)) = obs (snd (m w)).
Proof.
  intros HK Hh. unfold try_catch, bind.
  destruct (m w) as [[a|e] w1]; simpl.
  - specialize (HK a w1). destruct (K a w1) as [[c|e] w2]; simpl in *.
    + exact HK.
    + rewrite (Hh e w2). exact HK.
  - apply Hh.
Qed.

Lemma try_bind_run {A C} (m : M A) (K : A -> M C) h w a w1 :
  m w = (Ret a, w1) -> try_catch (bind m K) h w = try_catch (K a) h w1.
Proof. intros E. unfold try_catch, bind. rewrite E. reflexivity. Qed.

End MonadFacts.

(* ===================================================================== *)
(** * The heap: what parsing builds and what serialising reads *)
(* ===================================================================== *)

Module HeapFacts.
Import JS HeapSpec.
Local Open Scope list_scope.

Lemma json_ind' (P : json -> Prop) :
  P JNull -> (forall b, P (JBool b)) -> (forall q, P (JNum q)) -> (forall s, P (JStr s)) ->
  (forall items, Forall P items -> P (JArr items)) ->
  (forall fields, Forall (fun f => P (snd f)) fields -> P (JObj fields)) ->
  forall j, P j.
Proof.
  intros Hn Hb Hq Hs Ha Ho.
  fix IH 1. intros [| b | q | s | items | fields].
  - exact Hn.
  - apply Hb.
  - apply Hq.
  - apply Hs.
  - apply Ha. induction items as [|x r IHr]; constructor; [apply IH | exact IHr].
  - apply Ho. induction fields as [|[k x] r IHr]; constructor; [apply IH | exact IHr].
Qed.

Lemma grows_refl h : grows h h.
Proof. intros l o H. exact H. Qed.

Lemma grows_trans h1 h2 h3 : grows h1 h2 -> grows h2 h3 -> grows h1 h3.
Proof. intros A B l o H. apply B, A, H. Qed.

Lemma grows_app h ext : grows h (h ++ ext).
Proof. intros l o H. apply lookup_app_l_Some. exact H. Qed.

Lemma rep_grows h h' : grows h h' -> forall j v, rep h v j -> rep h' v j.
Proof.
  intros G. induction j as [| b | q | s | items IH | fields IH] using json_ind';
    intros v; simpl; try (intros H; exact H).
  - intros (l & vs & -> & Hl & Hr). exists l, vs. split; [reflexivity|].
    split; [apply G, Hl|]. clear Hl. revert vs Hr.
    induction IH as [|x r Hx Hr' IHr]; intros [|v vs]; simpl; try tauto.
    intros [H1 H2]. split; [apply Hx, H1 | apply IHr, H2].
  - intros (l & ps & -> & Hl & Hr). exists l, ps. split; [reflexivity|].
    split; [apply G, Hl|]. clear Hl. revert ps Hr.
    induction IH as [|[k x] r Hx Hr' IHr]; intros [|[k' v] ps]; simpl; try tauto.
    intros (H0 & H1 & H2). split; [exact H0|]. split; [apply Hx, H1 | apply IHr, H2].
Qed.

Lemma rep_items_grows h h' : grows h h' -> forall js vs,
  rep_items (fun v j => rep h v j) js vs -> rep_items (fun v j => rep h' v j) js vs.
Proof.
  intros G. induction js as [|j js IH]; intros [|v vs]; simpl; try tauto.
  intros [H1 H2]. split; [eapply rep_grows; eassumption | apply IH, H2].
Qed.

Lemma rep_fields_grows h h' : grows h h' -> forall fs ps,
  rep_fields (fun v j => rep h v j) fs ps -> rep_fields (fun v j => rep h' v j) fs ps.
Proof.
  intros G. induction fs as [|[k j] fs IH]; intros [|[k' v] ps]; simpl; try tauto.
  intros (H0 & H1 & H2). split; [exact H0|].
  split; [eapply rep_grows; eassumption | apply IH, H2].
Qed.

(** What [build] does to the heap: it appends, at least one cell for
    every level of nesting, and the value it returns is the tree. *)
Lemma build_spec j : forall h,
  exists ext, snd (build j h) = h ++ ext /\ (json_depth j <= length ext)%nat /\
              rep (snd (build j h)) (fst (build j h)) j.
Proof.
  induction j as [| b | q | s | items IH | fields IH] using json_ind'; intros h;
    try (exists []; rewrite app_nil_r; simpl; split; [reflexivity|]; split; [lia|reflexivity]).
  - simpl.
    assert (L : exists ext, snd (build_items build items h) = h ++ ext /\
                (list_max (map json_depth items) <= length ext)%nat /\
                rep_items (fun v j => rep (snd (build_items build items h)) v j)
                  items (fst (build_items build items h))).
    { revert h. induction IH as [|x r Hx Hr IHr]; intros h; simpl.
      - exists []. rewrite app_nil_r. auto.
      - destruct (Hx h) as (e1 & E1 & D1 & R1).
        destruct (build x h) as [v h1]. simpl in *.
        destruct (IHr h1) as (e2 & E2 & D2 & R2).
        destruct (build_items build r h1) as [vs h2]. simpl in *.
        exists (e1 ++ e2). subst. rewrite app_assoc. split; [reflexivity|].
        rewrite length_app. split; [lia|]. split; [|exact R2].
        eapply rep_grows; [|exact R1]. apply grows_app. }
    destruct L as (ext & E & D & R).
    destruct (build_items build items h) as [vs h1]. simpl in *. subst h1.
    exists (ext ++ [array vs]). rewrite app_assoc. split; [reflexivity|].
    rewrite length_app. simpl. split; [lia|].
    exists (length (h ++ ext)), vs. split; [reflexivity|].
    split; [apply list_lookup_middle; reflexivity|].
    eapply rep_items_grows; [|exact R]. apply grows_app.
  - simpl.
    assert (L : exists ext, snd (build_fields build fields h) = h ++ ext /\
                (list_max (map (fun f => json_depth (snd f)) fields) <= length ext)%nat /\
                rep_fields (fun v j => rep (snd (build_fields build fields h)) v j)
                  fields (fst (build_fields build fields h))).
    { revert h. induction IH as [|[k x] r Hx Hr IHr]; intros h; simpl.
      - exists []. rewrite app_nil_r. auto.
      - simpl in Hx. destruct (Hx h) as (e1 & E1 & D1 & R1).
        destruct (build x h) as [v h1]. simpl in *.
        destruct (IHr h1) as (e2 & E2 & D2 & R2).
        destruct (build_fields build r h1) as [ps h2]. simpl in *.
        exists (e1 ++ e2). subst. rewrite app_assoc. split; [reflexivity|].
        rewrite length_app. split; [lia|]. split; [reflexivity|]. split; [|exact R2].
        eapply rep_grows; [|exact R1]. apply grows_app. }
    destruct L as (ext & E & D & R).
    destruct (build_fields build fields h) as [ps h1]. simpl in *. subst h1.
    exists (ext ++ [plain ps]). rewrite app_assoc. split; [reflexivity|].
    rewrite length_app. simpl. split; [lia|].
    exists (length (h ++ ext)), ps. split; [reflexivity|].
    split; [apply list_lookup_middle; reflexivity|].
    eapply rep_fields_grows; [|exact R]. apply grows_app.
Qed.

Lemma rep_stringify h j : forall v d,
  rep h v j -> (json_depth j <= d)%nat -> stringify_at d h v = SerJson j.
Proof.
  induction j as [| b | q | s | items IH | fields IH] using json_ind';
    intros v d; simpl; try (intros -> _; destruct d; reflexivity).
  - intros (l & vs & -> & Hl & Hr) Hd. destruct d as [|d]; [lia|].
    simpl. rewrite Hl. simpl.
    assert (G : forall acc, ser_items (stringify_at d h) vs acc
                            = SerJson (JArr (rev acc ++ items))).
    { assert (Hm : (list_max (map json_depth items) <= d)%nat) by lia.
      clear Hl Hd. revert vs Hr Hm.
      induction IH as [|x r Hx Hr' IHr]; intros [|v vs]; simpl; try tauto.
      - intros _ _ acc. rewrite app_nil_r. reflexivity.
      - intros [H1 H2] Hm acc. rewrite (Hx v d H1) by lia.
        rewrite (IHr vs H2) by lia. simpl. rewrite <- app_assoc. reflexivity. }
    apply G.
  - intros (l & ps & -> & Hl & Hr) Hd. destruct d as [|d]; [lia|].
    simpl. rewrite Hl. simpl.
    assert (G : forall acc, ser_fields (stringify_at d h) ps acc
                            = SerJson (JObj (rev acc ++ fields))).
    { assert (Hm : (list_max (map (fun f => json_depth (snd f)) fields) <= d)%nat) by lia.
      clear Hl Hd. revert ps Hr Hm.
      induction IH as [|[k x] r Hx Hr' IHr]; intros [|[k' v] ps]; simpl; try tauto.
      - intros _ _ acc. rewrite app_nil_r. reflexivity.
      - intros (H0 & H1 & H2) Hm acc. subst k'. simpl in Hx. rewrite (Hx v d H1) by lia.
        rewrite (IHr ps H2) by lia. simpl. rewrite <- app_assoc. reflexivity. }
    apply G.
Qed.

Lemma rep_reads h v j : rep h v j -> reads v (Some j).
Proof.
  destruct j; simpl; unfold reads; simpl; try (intros ->; reflexivity).
  - intros (l & vs & -> & _). eauto.
  - intros (l & ps & -> & _). eauto.
Qed.

Lemma rep_fields_assoc (R : val -> json -> Prop) fs : forall ps k,
  rep_fields R fs ps ->
  match assoc k fs with
  | Some j => exists v, assoc k ps = Some v /\ R v j
  | None => assoc k ps = None
  end.
Proof.
  induction fs as [|[k0 j0] fs IH]; intros [|[k' v] ps] k; simpl; try tauto.
  intros (<- & H1 & H2). destruct (String.eqb k k0).
  - eauto.
  - apply IH, H2.
Qed.

(** Reading a property of a parsed object gives the stored field. *)
Lemma rep_read_prop h l fs k :
  rep h (VRef l) (JObj fs) ->
  exists v, read_prop h (VRef l) k = Some v /\ reads v (assoc k fs).
Proof.
  simpl. intros (l' & ps & E & Hl & Hr). inversion E; subst l'.
  unfold read_prop. rewrite Hl. simpl.
  pose proof (rep_fields_assoc _ fs ps k Hr) as H.
  destruct (assoc k fs) as [j|].
  - destruct H as (v & -> & Hv). exists v. split; [reflexivity|].
    eapply rep_reads. exact Hv.
  - rewrite H. exists VUndef. split; reflexivity.
Qed.

Lemma reads_truthy v j : reads v j -> truthy v = jtruthy j.
Proof.
  unfold reads. destruct j as [[]|]; simpl; try (intros ->; reflexivity).
  - intros [l ->]. reflexivity.
  - intros [l ->]. reflexivity.
Qed.

Lemma reads_strict_eq v j p :
  reads v j -> primitive p ->
  strict_eq v p = if jcompound j then false else strict_eq (jprim j) p.
Proof.
  unfold reads. destruct j as [[]|]; simpl; try (intros -> _; reflexivity).
  - intros [l ->]. destruct p; simpl; tauto.
  - intros [l ->]. destruct p; simpl; tauto.
Qed.

Lemma reads_JStr v s : reads v (Some (JStr s)) -> v = VStr s.
Proof. unfold reads. simpl. auto. Qed.

Lemma truthy_VStr s : s <> "" -> truthy (VStr s) = true.
Proof.
  intros H. simpl. destruct (String.eqb s "") eqn:E; [|reflexivity].
  apply String.eqb_eq in E. contradiction.
Qed.

Lemma strict_eq_VStr s : strict_eq (VStr s) (VStr s) = true.
Proof. simpl. apply String.eqb_refl. Qed.

(** ** Serialising *)

Lemma stringify_at_VStr d h s : stringify_at d h (VStr s) = SerJson (JStr s).
Proof. destruct d; reflexivity. Qed.

Lemma stringify_at_prim_ok d h v : primitive v -> ser_ok (stringify_at d h v).
Proof. destruct v, d; simpl; tauto. Qed.

Lemma stringify_at_ref d h l :
  stringify_at (S d) h (VRef l)
  = match h !! l with
    | None => SerUndefined
    | Some (Obj (Some items) _) => ser_items (stringify_at d h) items []
    | Some (Obj None ps) => ser_fields (stringify_at d h) ps []
    end.
Proof. reflexivity. Qed.

(** An object whose properties serialise does. *)
Lemma ser_fields_ok f ps : forall acc,
  Forall (fun p => ser_ok (f (snd p))) ps -> exists j, ser_fields f ps acc = SerJson j.
Proof.
  induction ps as [|[k v] ps IH]; intros acc H; simpl.
  - eauto.
  - inversion H as [|? ? Hv Hr]; subst. simpl in Hv.
    destruct (f v); [contradiction| |]; apply IH, Hr.
Qed.

(** The fields of a serialised object are its serialised properties. *)
Lemma ser_fields_assoc f ps : forall acc j,
  ser_fields f ps acc = SerJson j ->
  exists fs, j = JObj (rev acc ++ fs) /\
    forall k v jv, assoc k ps = Some v -> f v = SerJson jv -> assoc k fs = Some jv.
Proof.
  induction ps as [|[k0 v0] ps IH]; intros acc j; simpl.
  - intros H. inversion H. exists []. split; [rewrite app_nil_r; reflexivity|].
    intros k v jv Hk. discriminate.
  - destruct (f v0) as [| |j0] eqn:E0; [discriminate| |]; intros H.
    + destruct (IH _ _ H) as (fs & -> & Hf). exists fs. split; [reflexivity|].
      intros k v jv Hk Hv. destruct (String.eqb k k0).
      * inversion Hk; subst. congruence.
      * eapply Hf; eassumption.
    + destruct (IH _ _ H) as (fs & -> & Hf). exists ((k0, j0) :: fs). split.
      * simpl. rewrite <- app_assoc. reflexivity.
      * intros k v jv Hk Hv. simpl. destruct (String.eqb k k0).
        -- inversion Hk; subst. congruence.
        -- eapply Hf; eassumption.
Qed.

(** Serialising an object that has just been allocated. *)
Lemma stringify_fresh h ps :
  stringify (h ++ [plain ps]) (VRef (length h))
  = ser_fields (stringify_at (S (length h)) (h ++ [plain ps])) ps [].
Proof.
  unfold stringify. rewrite stringify_at_ref.
  rewrite list_lookup_middle by reflexivity. unfold plain.
  rewrite length_app. simpl. replace (length h + 1)%nat with (S (length h)) by lia.
  reflexivity.
Qed.

End HeapFacts.

(* ===================================================================== *)
(** * The statement queue: facts *)
(* ===================================================================== *)

Module TrackerFacts.
Import XAPITracker TrackerSamples.

Lemma finish_returned s : fst (finish s) = Returned.
Proof. reflexivity. Qed.

Lemma slice_last_length {A} (n : nat) (q : list A) :
  (length (slice_last n q) <= n)%nat.
Proof. unfold slice_last. rewrite length_drop. lia. Qed.

Lemma slice_last_suffix {A} (n : nat) (q : list A) :
  q = (take (length q - n) q ++ slice_last n q)%list.
Proof. unfold slice_last. symmetry. apply take_drop. Qed.

Lemma slice_last_short {A} (n : nat) (q : list A) :
  (length q <= n)%nat -> slice_last n q = q.
Proof.
  intros H. unfold slice_last. replace (length q - n)%nat with 0%nat by lia.
  reflexivity.
Qed.

(** What a call does that reaches the branch for a wrapper that is not
    ready. *)
Lemma run_batch_disconnected p s :
  disconnected s ->
  fst (run_batch p s) = Returned /\
  (length (statementQueue (snd (run_batch p s))) <= 100)%nat /\
  (wrapper_terminated s = false ->
   statementQueue (snd (run_batch p s)) = slice_last 100 (statementQueue s)).
Proof.
  unfold disconnected, run_batch, wrapper_ready, wrapper_terminated.
  destruct s as [q e b bp ts tr c]; simpl.
  destruct c as [[conn term]|]; simpl.
  - intros ->. simpl. destruct term; simpl.
    + split; [reflexivity|]. split; [lia|]. discriminate.
    + destruct (100 <? length q)%nat eqn:E; simpl.
      * split; [reflexivity|]. split; [apply slice_last_length|]. reflexivity.
      * apply Nat.ltb_ge in E. split; [reflexivity|]. split; [lia|].
        intros _. symmetry. apply slice_last_short. lia.
  - intros _. destruct (100 <? length q)%nat eqn:E; simpl.
    + split; [reflexivity|]. split; [apply slice_last_length|]. reflexivity.
    + apply Nat.ltb_ge in E. split; [reflexivity|]. split; [lia|].
      intros _. symmetry. apply slice_last_short. lia.
Qed.

Lemma after_wait_disconnected p s :
  disconnected s -> sessionEnded s = false ->
  fst (after_wait p s) = Returned /\
  (length (statementQueue (snd (after_wait p s))) <= 100)%nat /\
  (wrapper_terminated s = false ->
   statementQueue (snd (after_wait p s)) = slice_last 100 (statementQueue s)).
Proof.
  intros Hd He. pose proof (run_batch_disconnected p s Hd) as (Hr & Hl & Hq).
  unfold after_wait. rewrite He.
  destruct (length (statementQueue s) =? 0)%nat eqn:E0; simpl.
  - apply Nat.eqb_eq in E0. split; [reflexivity|]. split; [lia|]. intros _.
    destruct (statementQueue s); [reflexivity|discriminate].
  - auto.
Qed.

(** C8. While the wrapper has no connection, a call of [processBatch]
    leaves at most 100 statements in the queue when it returns, and
    what it leaves is the last 100 of what was queued: the oldest
    statements are the ones dropped. The call returns at once, or, when
    a batch is in progress, it waits and the same holds from the state
    it resumes in. (A session that has been ended has its queue emptied
    instead.) *)
Theorem C8_queue_capped_while_disconnected (p : nat) (s : state) :
  disconnected s ->
  match fst (processBatch p s) with
  | Returned =>
      (length (statementQueue (snd (processBatch p s))) <= 100)%nat /\
      (sessionEnded s = false -> wrapper_terminated s = false ->
       statementQueue (snd (processBatch p s)) = slice_last 100 (statementQueue s) /\
       statementQueue s =
         (take (length (statementQueue s) - 100) (statementQueue s)
            ++ statementQueue (snd (processBatch p s)))%list)
  | AwaitBatch _ =>
      snd (processBatch p s) = s /\
      forall s1 : state,
        disconnected s1 -> sessionEnded s1 = false ->
        fst (after_wait p s1) = Returned /\
        (length (statementQueue (snd (after_wait p s1))) <= 100)%nat /\
        (wrapper_terminated s1 = false ->
         statementQueue (snd (after_wait p s1)) = slice_last 100 (statementQueue s1))
  | AwaitSend _ _ => False
  end.
Proof.
  intros Hd. pose proof (run_batch_disconnected p s Hd) as (Hr & Hl & Hq).
  unfold processBatch.
  destruct (sessionEnded s) eqn:Ee.
  { simpl. split; [lia|]. discriminate. }
  destruct (length (statementQueue s) =? 0)%nat eqn:E0.
  { simpl. apply Nat.eqb_eq in E0. split; [lia|]. intros _ _.
    destruct (statementQueue s); [|discriminate]. split; reflexivity. }
  simpl. destruct (batchInProgress s).
  - destruct (batchPromise s); simpl.
    + split; [reflexivity|]. intros s1 H1 H2. apply after_wait_disconnected; assumption.
    + pose proof (after_wait_disconnected p s Hd Ee) as (Ar & Al & Aq).
      rewrite Ar. split; [exact Al|]. intros _ Ht. rewrite (Aq Ht).
      split; [reflexivity|]. apply slice_last_suffix.
  - rewrite Hr. split; [exact Hl|].
    intros _ Ht. rewrite (Hq Ht). split; [reflexivity|]. apply slice_last_suffix.
Qed.

Lemma C8_witness :
  disconnected (offline 150) /\
  fst (processBatch 0 (offline 150)) = Returned /\
  length (statementQueue (snd (processBatch 0 (offline 150)))) = 100%nat /\
  statementQueue (snd (processBatch 0 (offline 150)))
    = slice_last 100 (statementQueue (offline 150)).
Proof.
  pose proof (C8_queue_capped_while_disconnected 0 (offline 150) I) as H.
  split; [exact I|].
  assert (E : fst (processBatch 0 (offline 150)) = Returned) by (vm_compute; reflexivity).
  rewrite E in H. destruct H as [_ H].
  destruct (H eq_refl eq_refl) as [Hq _].
  split; [exact E|]. split; [|exact Hq].
  rewrite Hq. vm_compute. reflexivity.
Defined.

(** C3 (as amended). When the delivery of [batch[i]] fails with an error
    that does not invalidate the session, the call puts [batch[i]] and
    everything after it back at the front of the queue, in order, unless
    the session has been ended meanwhile, in which case nothing is put
    back. Either way the call returns without another transport call,
    and the statements before [batch[i]] are not queued again. *)
Theorem C3_transient_failure_requeues_rest
    (s : state) (p i : nat) (batch : list statement) (errorMsg : string) :
  tasks s !! p = Some (AwaitSend batch i) ->
  session_invalidated errorMsg = false ->
  statementQueue (handle (Settle p (Rejected errorMsg)) s)
    = (if sessionEnded s then statementQueue s
       else (drop i batch ++ statementQueue s)%list) /\
  tasks (handle (Settle p (Rejected errorMsg)) s) !! p = Some Returned /\
  transport (handle (Settle p (Rejected errorMsg)) s) = transport s /\
  batchInProgress (handle (Settle p (Rejected errorMsg)) s) = false /\
  sessionEnded (handle (Settle p (Rejected errorMsg)) s) = sessionEnded s.
Proof.
  intros Ht Hm. unfold handle. rewrite Ht. unfold resume_send. rewrite Hm.
  assert (Hp : (p < length (tasks s))%nat) by (eapply lookup_lt_Some; eassumption).
  destruct (sessionEnded s) eqn:Ee; simpl;
    (split; [reflexivity|]); (split; [apply list_lookup_insert_eq; exact Hp|]);
    (split; [reflexivity|]); (split; [reflexivity|]); simpl; congruence.
Qed.

Lemma C3_witness :
  (exists batch,
     tasks (run connected two_of_five) !! 0%nat = Some (AwaitSend batch 2) /\
     map verb_display batch = ["1"; "2"; "3"; "4"; "5"]) /\
  session_invalidated unavailable = false /\
  map verb_display
    (statementQueue (handle (Settle 0 (Rejected unavailable)) (run connected two_of_five)))
    = ["3"; "4"; "5"; "6"] /\
  map (fun c => verb_display (snd c))
    (transport (handle (Settle 0 (Rejected unavailable)) (run connected two_of_five)))
    = ["1"; "2"; "3"].
Proof.
  remember (run connected two_of_five) as s eqn:Es.
  assert (Hs : s = run connected two_of_five) by exact Es.
  vm_compute in Es.
  match type of Es with
  | s = {| tasks := [AwaitSend ?b ?i] |} =>
      pose proof (C3_transient_failure_requeues_rest s 0 2 b unavailable) as H
  end.
  subst s.
  destruct (H eq_refl eq_refl) as (Hq & _ & Htr & _).
  split; [eexists; split; reflexivity|].
  split; [reflexivity|].
  rewrite Hq, Htr. split; reflexivity.
Defined.

(** C3, the claim as written fails: the tracker is stopped while the
    only statement of the batch is on its way; the delivery then fails
    with a 503, and the statement is not put back. *)
Lemma C3_counterexample :
  (exists st, tasks (run connected stopped_in_flight) !! 0%nat = Some (AwaitSend [st] 0)) /\
  session_invalidated unavailable = false /\
  statementQueue
    (handle (Settle 0 (Rejected unavailable)) (run connected stopped_in_flight)) = [].
Proof.
  split; [eexists; vm_compute; reflexivity|].
  split; vm_compute; reflexivity.
Qed.

(** C5, on the code: with [overlap], the third call of [processBatch]
    finds [batchInProgress] set, awaits [batchPromise], which is the
    promise of the second call and has resolved, and starts its own
    delivery loop while the first is still waiting for its answer: two
    loops are under way, each with a call of its own pending. *)
Theorem C5_two_loops_in_flight :
  in_flight (run connected overlap) = 2%nat /\
  (exists a b,
      tasks (run connected overlap) = [AwaitSend [a] 0; Returned; AwaitSend [b] 0] /\
      map (fun c => (fst c, verb_display (snd c))) (transport (run connected overlap))
      = [(0%nat, "experienced"); (2%nat, "answered")]) /\
  batchInProgress (run connected overlap) = true.
Proof.
  split; [vm_compute; reflexivity|].
  split; [|vm_compute; reflexivity].
  eexists; eexists; split; vm_compute; reflexivity.
Qed.

(** C2, on the code: with two loops under way as in C5, the first
    delivery of task 0 is refused with a 401. The session is ended and
    the queue emptied; then the call of task 2 resolves and its loop
    goes on to the next statement of its batch: a transport call after
    the halt. *)
Theorem C2_transport_call_after_halt :
  session_invalidated unauthorized = true /\
  sessionEnded (run connected overlap_then_halt) = true /\
  statementQueue (run connected overlap_then_halt) = [] /\
  map (fun c => (fst c, verb_display (snd c))) (transport (run connected overlap_then_halt))
    = [(0%nat, "experienced"); (2%nat, "answered")] /\
  map (fun c => (fst c, verb_display (snd c)))
    (transport (step (run connected overlap_then_halt) (Settle 2 Resolved)))
    = [(0%nat, "experienced"); (2%nat, "answered"); (2%nat, "progressed")].
Proof. repeat split; vm_compute; reflexivity. Qed.

(** ** What does hold of a halt *)

Lemma after_wait_halted p s : halted s -> after_wait p s = (Returned, s).
Proof.
  intros [He Hq]. unfold after_wait. rewrite He, Hq. reflexivity.
Qed.

Lemma drain_halted n s :
  halted s ->
  halted (drain n s) /\ transport (drain n s) = transport s /\
  (in_flight s = 0%nat -> in_flight (drain n s) = 0%nat).
Proof.
  revert s. induction n as [|n IH]; intros s Hs; simpl.
  - auto.
  - destruct (find_ready s (tasks s) 0) as [p|] eqn:Ef; [|auto].
    rewrite (after_wait_halted p s Hs).
    assert (Hs' : halted (set_task p Returned s)) by exact Hs.
    destruct (IH _ Hs') as (H1 & H2 & H3).
    split; [exact H1|]. split; [rewrite H2; reflexivity|].
    intros H0. apply H3. unfold in_flight, set_task. simpl.
    clear - H0. unfold in_flight in H0. revert p.
    induction (tasks s) as [|t ts IHts]; intros p; simpl in *.
    + reflexivity.
    + destruct p as [|p]; simpl.
      * destruct t; simpl in *; try discriminate; exact H0.
      * destruct t; simpl in *; try discriminate; apply IHts; exact H0.
Qed.

Lemma filter_sending_app (l : list task) (t : task) :
  List.filter is_sending (l ++ [t])%list
  = (List.filter is_sending l ++ List.filter is_sending [t])%list.
Proof. apply List.filter_app. Qed.

Lemma handle_halted e s :
  halted s ->
  halted (handle e s) /\
  (in_flight s = 0%nat ->
   in_flight (handle e s) = 0%nat /\ transport (handle e s) = transport s).
Proof.
  intros [He Hq]. destruct e as [verb opts now| |p o| |c]; simpl.
  - unfold sendStatement. rewrite He. repeat split; auto.
  - unfold processBatch. rewrite He. simpl. split; [split; simpl; auto|].
    intros H0. split; [|reflexivity].
    unfold in_flight in *. simpl. rewrite filter_sending_app, length_app, H0.
    reflexivity.
  - destruct (tasks s !! p) as [[|q|batch i]|] eqn:Et; try (repeat split; auto; fail).
    split.
    + destruct o as [|m]; simpl.
      * unfold deliver. destruct (batch !! S i); simpl; split; assumption.
      * destruct (session_invalidated m); simpl; [split; reflexivity|].
        rewrite He. simpl. split; assumption.
    + intros H0. exfalso. unfold in_flight in H0.
      apply list_elem_of_lookup_2 in Et. apply list_elem_of_In in Et.
      assert (Hin : In (AwaitSend batch i) (List.filter is_sending (tasks s)))
        by (apply List.filter_In; split; [exact Et|reflexivity]).
      destruct (List.filter is_sending (tasks s)); [destruct Hin|discriminate].
  - repeat split; auto.
  - repeat split; auto.
Qed.

(** Once the session has been ended and the queue emptied they stay so
    whatever happens: submissions are dropped, calls of [processBatch]
    return at once. If no delivery loop is under way at that moment, no
    transport call is made ever after. *)
Lemma halt_is_absorbing (es : list event) (s : state) :
  halted s ->
  halted (run s es) /\
  (in_flight s = 0%nat -> transport (run s es) = transport s).
Proof.
  revert s. induction es as [|e es IH]; intros s Hs; simpl.
  - auto.
  - destruct (handle_halted e s Hs) as [H1 H2].
    destruct (drain_halted (length (tasks (handle e s))) (handle e s) H1) as (D1 & D2 & D3).
    destruct (IH (step s e) D1) as [I1 I2].
    split; [exact I1|].
    intros H0. destruct (H2 H0) as [F1 F2].
    transitivity (transport (step s e)).
    + apply I2. apply D3. exact F1.
    + unfold step. rewrite D2. exact F2.
Qed.

(** A submission to a halted tracker changes nothing. *)
Lemma submit_after_halt verb opts now s :
  sessionEnded s = true -> sendStatement verb opts now s = s.
Proof. intros He. unfold sendStatement. rewrite He. reflexivity. Qed.

(** The halt itself: a refusal that names the session ends the session
    and empties the queue, whatever the state. *)
Lemma refusal_halts s p batch i errorMsg :
  tasks s !! p = Some (AwaitSend batch i) ->
  session_invalidated errorMsg = true ->
  halted (handle (Settle p (Rejected errorMsg)) s) /\
  transport (handle (Settle p (Rejected errorMsg)) s) = transport s.
Proof.
  intros Ht Hm. unfold handle. rewrite Ht. unfold resume_send. rewrite Hm.
  simpl. repeat split.
Qed.

End TrackerFacts.

(* ===================================================================== *)
(** * The statement queue: one loop at a time *)
(* ===================================================================== *)

Module FlowFacts.
Import XAPITracker TrackerSamples FlowSpec TrackerFacts.

Lemma find_ready_none s l : forall i,
  Forall (fun t => forall q, t <> AwaitBatch q) l -> find_ready s l i = None.
Proof.
  induction l as [|t l IH]; intros i F; [reflexivity|].
  inversion F as [|? ? Ht Hl]; subst. destruct t as [|q|batch k]; simpl.
  - apply IH, Hl.
  - exfalso. exact (Ht q eq_refl).
  - apply IH, Hl.
Qed.

Lemma drain_nothing_waiting n s :
  Forall (fun t => forall q, t <> AwaitBatch q) (tasks s) -> drain n s = s.
Proof.
  intros F. destruct n as [|n]; [reflexivity|]. simpl.
  rewrite (find_ready_none s (tasks s) 0 F). reflexivity.
Qed.

Lemma idle_not_waiting l t :
  Forall (fun t => t = Returned) l -> (forall q, t <> AwaitBatch q) ->
  Forall (fun t => forall q, t <> AwaitBatch q) (l ++ [t]).
Proof.
  intros I Ht. apply Forall_app. split.
  - eapply Forall_impl; [exact I|]. intros x -> q. discriminate.
  - constructor; [exact Ht|constructor].
Qed.

(** The flush of a ready, idle tracker takes the whole queue as its
    batch and hands over the first statement. *)
Lemma flush_starts s :
  idle s -> ready s -> statementQueue s <> [] ->
  delivering s (length (tasks s)) 0 (step s Flush).
Proof.
  intros I (He & Hb & Hr) Hq. unfold step, handle, processBatch.
  rewrite He, Hb.
  destruct (statementQueue s) as [|stmt q] eqn:Eq; [contradiction|].
  cbn [length Nat.eqb SEND_TO_LRS negb].
  unfold run_batch. change (wrapper_ready (set_batchInProgress true s)) with (wrapper_ready s).
  rewrite Hr. unfold deliver. cbn [statementQueue set_batchInProgress].
  rewrite Eq. cbn [lookup list_lookup].
  rewrite drain_nothing_waiting.
  - unfold delivering. cbn. rewrite Eq. cbn. repeat split; try reflexivity; try assumption.
    lia.
  - cbn. apply idle_not_waiting; [exact I|discriminate].
Qed.

Lemma settle_resolved s p k sk :
  idle s -> p = length (tasks s) -> delivering s p k sk ->
  (if decide (S k < length (statementQueue s))%nat
   then delivering s p (S k) (step sk (Settle p Resolved))
   else transport (step sk (Settle p Resolved))
          = (transport s ++ map (pair p) (statementQueue s))%list /\
        statementQueue (step sk (Settle p Resolved)) = [] /\
        batchInProgress (step sk (Settle p Resolved)) = false /\
        sessionEnded (step sk (Settle p Resolved)) = false /\
        idle (step sk (Settle p Resolved))).
Proof.
  intros I -> (Ht & Htr & Hq & He & Hk).
  assert (Hp : tasks sk !! length (tasks s) = Some (AwaitSend (statementQueue s) k)).
  { rewrite Ht. apply list_lookup_middle. reflexivity. }
  unfold step, handle. rewrite Hp. unfold resume_send, deliver.
  destruct (decide (S k < length (statementQueue s))%nat) as [Hlt|Hge].
  - destruct (lookup_lt_is_Some_2 (statementQueue s) (S k) Hlt) as (stmt & Es).
    rewrite Es. unfold set_task. cbn [tasks set_transport set_tasks].
    rewrite Ht, insert_app_r_alt, Nat.sub_diag by lia. cbn [insert list_insert].
    rewrite drain_nothing_waiting.
    + unfold delivering. cbn. rewrite Htr, Hq, He.
      rewrite (take_S_r _ _ _ Es), map_app, app_assoc. cbn. auto.
    + cbn. apply idle_not_waiting; [exact I|discriminate].
  - assert (En : statementQueue s !! S k = None) by (apply lookup_ge_None; lia).
    rewrite En. unfold finish, set_task. cbn [tasks set_batchInProgress set_tasks].
    rewrite Ht, insert_app_r_alt, Nat.sub_diag by lia. cbn [insert list_insert].
    rewrite drain_nothing_waiting.
    + cbn. rewrite Htr, Hq, He. rewrite take_ge by lia. repeat split.
      apply Forall_app. split; [exact I|repeat constructor].
    + cbn. apply idle_not_waiting; [exact I|discriminate].
Qed.

Lemma deliveries_resolve s p m : forall k sk,
  idle s -> p = length (tasks s) -> delivering s p k sk ->
  (S k + m = length (statementQueue s))%nat ->
  delivered s p (run sk (repeat (Settle p Resolved) (S m))).
Proof.
  induction m as [|m IH]; intros k sk I Hp D Hm.
  - pose proof (settle_resolved s p k sk I Hp D) as H.
    destruct (decide (S k < length (statementQueue s))%nat); [lia|].
    exact H.
  - pose proof (settle_resolved s p k sk I Hp D) as H.
    destruct (decide (S k < length (statementQueue s))%nat); [|lia].
    change (run sk (repeat (Settle p Resolved) (S (S m))))
      with (run (step sk (Settle p Resolved)) (repeat (Settle p Resolved) (S m))).
    apply (IH (S k)); [exact I|exact Hp|exact H|lia].
Qed.

(** A flush of an idle tracker whose deliveries all succeed: the
    statements queued are handed to the wrapper in the order in which
    they were queued, each once, by the one task of the flush; the
    queue is empty afterwards, and no batch is in progress. *)
Theorem flush_hands_over_in_order (s : state) :
  idle s -> ready s -> statementQueue s <> [] ->
  delivered s (length (tasks s))
    (run s (Flush :: repeat (Settle (length (tasks s)) Resolved) (length (statementQueue s)))).
Proof.
  intros I R Hq.
  pose proof (flush_starts s I R Hq) as D.
  change (run s (Flush :: ?l)) with (run (step s Flush) l).
  destruct (length (statementQueue s)) as [|m] eqn:El.
  - destruct (statementQueue s); [contradiction|discriminate].
  - apply (deliveries_resolve s _ m 0); [exact I|reflexivity|exact D|lia].
Qed.

Lemma flush_hands_over_in_order_witness :
  delivered three_queued (length (tasks three_queued))
    (run three_queued
       (Flush :: repeat (Settle (length (tasks three_queued)) Resolved)
                   (length (statementQueue three_queued)))).
Proof.
  apply (flush_hands_over_in_order three_queued).
  - vm_compute. constructor.
  - repeat split; reflexivity.
  - vm_compute. discriminate.
Defined.

Lemma sending_returned (l : list task) : forall p batch i,
  l !! p = Some (AwaitSend batch i) ->
  length (List.filter is_sending (<[p := Returned]> l))
  = (length (List.filter is_sending l) - 1)%nat.
Proof.
  induction l as [|t l IH]; intros p batch i H; [discriminate|].
  destruct p as [|p]; cbn [lookup list_lookup] in H.
  - inversion H; subst t. cbn. lia.
  - specialize (IH p batch i H).
    change (<[S p := Returned]> (t :: l)) with (t :: <[p := Returned]> l).
    cbn [List.filter]. destruct (is_sending t); [|exact IH].
    cbn [length]. rewrite IH.
    assert (0 < length (List.filter is_sending l))%nat; [|lia].
    apply list_elem_of_lookup_2 in H. apply list_elem_of_In in H.
    assert (Hin : In (AwaitSend batch i) (List.filter is_sending l))
      by (apply List.filter_In; split; [exact H|reflexivity]).
    destruct (List.filter is_sending l); [destruct Hin|cbn; lia].
Qed.

(** With one delivery loop under way, a refusal that names the session
    (a 401, or "session not found") is final: the session is ended and
    the queue is empty from then on, and whatever happens afterwards,
    submissions, flushes, answers, no statement is handed to the wrapper
    again. *)
Theorem single_loop_halt_is_final
    (s : state) (p : nat) (batch : list statement) (i : nat) (errorMsg : string)
    (es : list event) :
  tasks s !! p = Some (AwaitSend batch i) -> in_flight s = 1%nat ->
  session_invalidated errorMsg = true ->
  halted (run s (Settle p (Rejected errorMsg) :: es)) /\
  transport (run s (Settle p (Rejected errorMsg) :: es)) = transport s.
Proof.
  intros Ht H1 Hm.
  change (run s (Settle p (Rejected errorMsg) :: es))
    with (run (step s (Settle p (Rejected errorMsg))) es).
  destruct (refusal_halts s p batch i errorMsg Ht Hm) as [Hh Htr].
  assert (H0 : in_flight (handle (Settle p (Rejected errorMsg)) s) = 0%nat).
  { unfold handle. rewrite Ht. unfold resume_send. rewrite Hm.
    unfold finish, set_task, in_flight. cbn [tasks set_tasks set_batchInProgress
      set_statementQueue set_sessionEnded].
    rewrite (sending_returned _ _ _ _ Ht). unfold in_flight in H1. rewrite H1. reflexivity. }
  destruct (drain_halted (length (tasks (handle (Settle p (Rejected errorMsg)) s)))
              (handle (Settle p (Rejected errorMsg)) s) Hh) as (D1 & D2 & D3).
  destruct (halt_is_absorbing es (step s (Settle p (Rejected errorMsg))) D1) as [A1 A2].
  split; [exact A1|].
  rewrite A2 by (apply D3, H0). unfold step. rewrite D2. exact Htr.
Qed.

Lemma single_loop_halt_is_final_witness :
  halted (run first_in_flight
            (Settle 0 (Rejected unauthorized)
             :: [numbered "3"; Flush; Settle 0 Resolved; numbered "4"; Flush])) /\
  transport (run first_in_flight
               (Settle 0 (Rejected unauthorized)
                :: [numbered "3"; Flush; Settle 0 Resolved; numbered "4"; Flush]))
  = transport first_in_flight.
Proof.
  eapply (single_loop_halt_is_final first_in_flight 0 _ 0 unauthorized).
  - vm_compute. reflexivity.
  - vm_compute. reflexivity.
  - vm_compute. reflexivity.
Defined.

End FlowFacts.

(* ===================================================================== *)
(** * The wrapper: what the senders leave alone *)
(* ===================================================================== *)

Module WrapperFacts.
Import JS Browser Cmi5 WrapperSpec WrapperSamples MonadFacts.
Local Open Scope js_scope.

Lemma keeps_weaken {A X Y} (obs : world -> X) (obs' : world -> Y) (m : M A) :
  (forall w w', obs w' = obs w -> obs' w' = obs' w) ->
  keeps obs m -> keeps obs' m.
Proof. intros H K w. apply H, K. Qed.

Lemma keeps_core_of_log {A} (m : M A) : keeps core_log m -> keeps core m.
Proof.
  apply keeps_weaken. intros w w' H. unfold core_log, core in *. congruence.
Qed.

Lemma keeps_log_of_quiet {A} (m : M A) : keeps quiet m -> keeps core_log m.
Proof.
  apply keeps_weaken. intros w w' H. unfold core_log, quiet, exchanges in *.
  inversion H. congruence.
Qed.

Lemma keeps_core_of_quiet {A} (m : M A) : keeps quiet m -> keeps core m.
Proof. intros H. apply keeps_core_of_log, keeps_log_of_quiet, H. Qed.

Lemma keeps_transmit rq : is_exchange rq = false -> keeps core_log (transmit rq).
Proof.
  intros H w. unfold transmit, core_log, exchanges.
  destruct (network w); simpl; rewrite H; reflexivity.
Qed.

Lemma is_exchange_path sync method base path auth body :
  not_exchange path ->
  is_exchange {| rq_sync := sync; rq_method := method; rq_base := base;
                 rq_resource := path; rq_authorization := auth; rq_body := body |} = false.
Proof. destruct path; simpl; tauto. Qed.

Lemma keeps_lrsRequest_from n path method body :
  not_exchange path -> keeps core_log (lrsRequest_from n path method body).
Proof.
  intros Hp. induction n as [|n IH]; simpl; keeps_auto;
    apply keeps_transmit, is_exchange_path, Hp.
Qed.

Lemma keeps_lrsRequest path method body :
  not_exchange path -> keeps core_log (lrsRequest path method body).
Proof. apply keeps_lrsRequest_from. Qed.

Lemma keeps_lrsRequestSync path method body :
  not_exchange path -> keeps core_log (lrsRequestSync path method body).
Proof.
  intros Hp. unfold lrsRequestSync. keeps_auto;
    apply keeps_transmit, is_exchange_path, Hp.
Qed.

Lemma keeps_some_id id l : keeps quiet (some_id id l).
Proof. induction l as [|x l IH]; simpl; keeps_auto. Qed.

Lemma keeps_has_category c id : keeps quiet (has_category c id).
Proof. unfold has_category. keeps_auto. apply keeps_some_id. Qed.

Lemma keeps_push_category c id : keeps quiet (push_category c id).
Proof. unfold push_category. keeps_auto. Qed.

Lemma keeps_buildStatement B verb result object :
  keeps quiet (buildStatement B verb result object).
Proof.
  unfold buildStatement, timestamp.
  keeps_auto; first [apply keeps_has_category | apply keeps_push_category].
Qed.

Lemma keeps_verb_literal id name : keeps quiet (verb_literal id name).
Proof. unfold verb_literal. keeps_auto. Qed.

Lemma keeps_calculateDuration : keeps quiet calculateDuration.
Proof. unfold calculateDuration. keeps_auto. Qed.

Lemma keeps_add_score result score : keeps quiet (add_score result score).
Proof. unfold add_score. keeps_auto. Qed.

Lemma keeps_verbName_of st : keeps quiet (verbName_of st).
Proof. unfold verbName_of. keeps_auto. Qed.

Lemma keeps_new o : keeps quiet (new o).
Proof. keeps_prim. Qed.

(** [sendStatement] writes the log and nothing else of the core. *)
Lemma keeps_sendStatement st : keeps core (sendStatement st).
Proof.
  unfold sendStatement. keeps_auto;
    first [ apply keeps_core_of_quiet, keeps_verbName_of
          | apply keeps_core_of_log, keeps_lrsRequest; exact I ].
Qed.

Lemma keeps_sendStatementSync st : keeps core (sendStatementSync st).
Proof.
  unfold sendStatementSync. keeps_auto;
    first [ apply keeps_core_of_quiet, keeps_verbName_of
          | apply keeps_core_of_log, keeps_lrsRequestSync; exact I ].
Qed.

Lemma keeps_saveSessionData :
  keeps (fun w => (vars w, exchanges w, statementLog w)) saveSessionData.
Proof. unfold saveSessionData. keeps_auto. Qed.

Lemma keeps_vars_saveSessionData : keeps vars saveSessionData.
Proof.
  eapply keeps_weaken; [|apply keeps_saveSessionData]. intros w w' H. congruence.
Qed.

Lemma log_update_last_snoc (f : log_entry -> log_entry) (w : world) l e :
  statementLog w = (l ++ [e])%list ->
  statementLog (snd (log_update_last f w)) = (l ++ [f e])%list.
Proof.
  intros H. unfold log_update_last. simpl. rewrite H, rev_unit. simpl.
  rewrite rev_involutive. reflexivity.
Qed.

(** A statement that [sendStatement] returns from, in a session that is
    not terminated, has been delivered: the last log entry says so. *)
Lemma sendStatement_delivered st w id w' :
  sendStatement st w = (Ret id, w') ->
  truthy (vars w terminated) = false ->
  last_delivered w'.
Proof.
  intros Hs Ht. unfold sendStatement in Hs.
  bret Hs as t w1 Hg. apply get_inv in Hg as [Ha ->]. inversion Ha; subst t; clear Ha.
  rewrite Ht in Hs. bret Hs as b w1 Hb. inversion Hb; subst; clear Hb. simpl in Hs.
  bret Hs as name w2 Hn.
  bret Hs as ts w3 Hp. apply prop_inv in Hp as [-> _].
  bret Hs as u w4 Hl. unfold log_push in Hl. inversion Hl; subst; clear Hl.
  apply try_catch_inv in Hs as [(a & Hm & Hr) | (e & w5 & Hm & Hs)].
  - bret Hm as sid w5 Hp. apply prop_inv in Hp as [-> _].
    bret Hm as x w6 Hq.
    bret Hm as y w7 Hu.
    apply prop_inv in Hm as [-> _].
    pose proof (keeps_run _ _ _ _ _ (keeps_lrsRequest (Statements sid) _ _ I) Hq) as K2.
    unfold core_log in K2. simpl in K2.
    assert (L : statementLog w6 = (statementLog w2 ++
               [{| lg_timestamp := ts; lg_verb := name; lg_success := VNull;
                   lg_error := VNull; lg_sync := false |}])%list) by congruence.
    pose proof (log_update_last_snoc mark_success w6 _ _ L) as U.
    rewrite Hu in U. simpl in U.
    eexists. split; [rewrite U; apply last_snoc|reflexivity].
  - bret Hs as y w6 Hu. discriminate Hs.
Qed.

Lemma core_eq (w w' : world) :
  core w' = core w ->
  vars w' terminated = vars w terminated /\ sessionStorage w' = sessionStorage w.
Proof. unfold core. intros H. inversion H. split; congruence. Qed.

Lemma keeps_core_new o : keeps core (new o).
Proof. apply keeps_core_of_quiet, keeps_new. Qed.



Lemma call_done B c w :
  truthy (vars w successSent) = true -> call B c w = (Ret VNull, w).
Proof.
  intros H. destruct c; simpl; unfold sendPassed, sendFailed, bind, get; rewrite H; reflexivity.
Qed.

Lemma settle_success (x : var) (id : val) (w : world) r w' :
  (when (truthy id) (Browser.set x (VBool true) ;; saveSessionData) ;; ret id)%js w = (r, w') ->
  r = Ret id /\ (truthy id = true -> vars w' x = VBool true).
Proof.
  intros H. apply bind_inv in H as [(e & Hm & ->) | (u & w1 & Hm & H)].
  - exfalso. destruct (truthy id); simpl in Hm; [|discriminate].
    apply bind_inv in Hm as [(e' & Hs & _) | (u & w1 & Hs & Hm)]; [discriminate|].
    unfold saveSessionData in Hm.
    apply try_catch_inv in Hm as [(a & _ & ?) | (e' & w2 & _ & ?)]; discriminate.
  - inversion H; subst; clear H. split; [reflexivity|]. intros Hi. rewrite Hi in Hm. simpl in Hm.
    apply bind_inv in Hm as [(e' & Hs & _) | (u' & w1 & Hs & Hm)]; [discriminate|].
    apply (keeps_run _ _ _ _ _ keeps_vars_saveSessionData) in Hm. rewrite Hm.
    unfold Browser.set in Hs. inversion Hs; subst; clear Hs. simpl.
    destruct (decide (x = x)); [reflexivity|congruence].
Qed.

Lemma call_sent B c w id w' :
  call B c w = (Ret id, w') -> truthy id = true -> truthy (vars w' successSent) = true.
Proof.
  intros H Hi.
  assert (G : forall verb name ok score,
             (s <- get successSent ;;
              if truthy s then ret VNull
              else
                verb <- verb_literal verb name ;;
                d <- calculateDuration ;;
                result <- new (plain [("success", VBool ok); ("duration", VStr d)]) ;;
                add_score result score ;;
                statement <- buildStatement B verb result VNull ;;
                id <- sendStatement statement ;;
                when (truthy id) (Browser.set successSent (VBool true) ;; saveSessionData) ;;
                ret id)%js w = (Ret id, w') ->
             truthy (vars w' successSent) = true).
  { clear H. intros verb name ok score H.
    bret H as s w0 Hg. apply get_inv in Hg as [Ha ->]. inversion Ha; subst s; clear Ha.
    destruct (truthy (vars w successSent)) eqn:Es.
    { inversion H; subst. discriminate Hi. }
    bret H as v w1 H1. bret H as d w2 H2. bret H as res w3 H3. bret H as u w4 H4.
    bret H as st w5 H5. bret H as i w6 H6.
    apply settle_success in H as [Hr Hv]. inversion Hr; subst i.
    rewrite (Hv Hi). reflexivity. }
  destruct c as [score|score]; simpl in H; [apply (G _ _ _ _ H)|apply (G _ _ _ _ H)].
Qed.

Lemma calls_done B l w :
  truthy (vars w successSent) = true ->
  List.filter sent (fst (calls B l w)) = [] /\ snd (calls B l w) = w.
Proof.
  intros H. induction l as [|c l [IH1 IH2]]; simpl; [auto|].
  rewrite (call_done B c w H). destruct (calls B l w) as [xs w2]. simpl in *.
  split; assumption.
Qed.

Lemma calls_once B l w : (length (List.filter sent (fst (calls B l w))) <= 1)%nat.
Proof.
  revert w. induction l as [|c l IH]; intros w; simpl; [lia|].
  destruct (call B c w) as [x w1] eqn:Ec.
  specialize (IH w1). destruct (calls B l w1) as [xs w2] eqn:El. simpl in *.
  destruct (sent x) eqn:Ex; [|exact IH].
  destruct x as [id|e]; [|discriminate]. simpl in Ex.
  pose proof (call_sent B c w id w1 Ec Ex) as Hs.
  destruct (calls_done B l w1 Hs) as [Hn _]. rewrite El in Hn. simpl in Hn.
  rewrite Hn. simpl. lia.
Qed.

Lemma sendCompleted_sent B w id w' :
  sendCompleted B w = (Ret id, w') -> truthy id = true ->
  truthy (vars w' completionSent) = true.
Proof.
  intros H Hi. unfold sendCompleted in H.
  bret H as s w0 Hg. apply get_inv in Hg as [Ha ->]. inversion Ha; subst s; clear Ha.
  destruct (truthy (vars w completionSent)) eqn:Es.
  { inversion H; subst. discriminate Hi. }
  bret H as v w1 H1. bret H as d w2 H2. bret H as res w3 H3.
  bret H as st w5 H5. bret H as i w6 H6.
  apply settle_success in H as [Hr Hv]. inversion Hr; subst i.
  rewrite (Hv Hi). reflexivity.
Qed.



End WrapperFacts.

(* ===================================================================== *)
(** * The session store across page loads *)
(* ===================================================================== *)

Module SessionFacts.
Import JS Browser Cmi5 HeapSpec WrapperSpec WrapperSamples MonadFacts HeapFacts WrapperFacts.
Local Open Scope js_scope.
Local Open Scope string_scope.
Local Open Scope list_scope.

(** ** Reading what was parsed *)

Lemma prop_stored (w : world) l fs k :
  rep (heap w) (VRef l) (JObj fs) ->
  exists v, prop (VRef l) k w = (Ret v, w) /\ reads v (assoc k fs).
Proof.
  intros H. destruct (rep_read_prop _ _ _ k H) as (v & E & R).
  exists v. unfold prop. rewrite E. auto.
Qed.

Lemma parse_stored (w : world) fs :
  exists l ext,
    parse (JObj fs) w = (Ret (VRef l), with_heap (heap w ++ ext) w) /\
    rep (heap w ++ ext) (VRef l) (JObj fs).
Proof.
  unfold parse. destruct (build_spec (JObj fs) (heap w)) as (ext & E & _ & R).
  destruct (build (JObj fs) (heap w)) as [v h] eqn:Eb. simpl in *. subst h.
  pose proof R as R'. simpl in R'. destruct R' as (l & ps & -> & _).
  exists l, ext. auto.
Qed.

Ltac run_prop Hrep :=
  match goal with
  | |- context [bind (prop (VRef ?l) ?k) ?K ?w] =>
      let v := fresh "v" in let E := fresh "E" in let R := fresh "R" in
      destruct (prop_stored w l _ k Hrep) as (v & E & R);
      unfold bind at 1; rewrite E; clear E
  end.

Lemma current_session_prim B : primitive (current_session B).
Proof.
  unfold current_session, session_of_url. destruct (truthy (param B "fetch")); [|exact I].
  destruct (param B "fetch"); try exact I.
  destruct (URL_session B s) as [[x|]|]; exact I.
Qed.

Lemma param_prim B k : primitive (param B k).
Proof. unfold param. destruct (assoc k (search B)); exact I. Qed.

Lemma param_value B k s : assoc k (search B) = Some s -> param B k = VStr s.
Proof. unfold param. intros ->. reflexivity. Qed.

(** ** Restoring *)

(** After [restore], a variable of the table holds the stored field under
    its default, and any other variable is as it was. *)
Lemma restore_run fs l fields : forall w : world,
  rep (heap w) (VRef l) (JObj fs) ->
  exists g, restore (VRef l) fields w = (Ret tt, with_vars g w) /\
    forall x, (g x = vars w x /\ ~ In x (map (fun c => snd (fst c)) fields)) \/
              (exists k d v, In (k, x, d) fields /\ reads v (assoc k fs) /\ g x = d v).
Proof.
  induction fields as [|[[k x] d] rest IH]; intros w Hrep.
  - exists (vars w). split; [destruct w; reflexivity|]. intros x. left. simpl. tauto.
  - destruct (prop_stored w l fs k Hrep) as (v & E & R).
    cbn [restore]. unfold bind at 1. rewrite E. unfold bind at 1, Browser.set at 1.
    match goal with |- context [restore _ rest ?W] => destruct (IH W Hrep) as (g & Eg & Hg) end.
    exists g. split; [exact Eg|].
    intros y. destruct (Hg y) as [[Hy Hn] | (k' & d' & v' & Hin & Hr & Hy)].
    + simpl in Hy. destruct (decide (x = y)) as [->|Hxy].
      * right. exists k, d, v. simpl. auto.
      * left. split; [exact Hy|]. simpl. tauto.
    + right. exists k', d', v'. simpl. auto.
Qed.

(** The variables [initialize] looks at after a restore. *)
Lemma restore_credential fs l (w : world) :
  rep (heap w) (VRef l) (JObj fs) ->
  exists g, restore (VRef l) restored_fields w = (Ret tt, with_vars g w) /\
    truthy (g authToken) = jtruthy (assoc "authToken" fs) /\
    truthy (g endpoint) = jtruthy (assoc "endpoint" fs).
Proof.
  intros Hrep. destruct (restore_run fs l restored_fields w Hrep) as (g & Eg & Hg).
  exists g. split; [exact Eg|]. split.
  - destruct (Hg authToken) as [[_ Hn] | (k & d & v & Hin & Hr & Hy)].
    + exfalso. apply Hn. simpl. tauto.
    + simpl in Hin.
      repeat (destruct Hin as [Hin|Hin]; [inversion Hin; subst; clear Hin|]);
        try discriminate; try contradiction.
      rewrite Hy. apply reads_truthy, Hr.
  - destruct (Hg endpoint) as [[_ Hn] | (k & d & v & Hin & Hr & Hy)].
    + exfalso. apply Hn. simpl. tauto.
    + simpl in Hin.
      repeat (destruct Hin as [Hin|Hin]; [inversion Hin; subst; clear Hin|]);
        try discriminate; try contradiction.
      rewrite Hy. apply reads_truthy, Hr.
Qed.

(** What [loadSessionData] does with a stored object. *)
Lemma loadSessionData_cases B (w : world) fs :
  sessionStorage w = Some (JObj fs) ->
  if registrationMatches B fs && sessionMatches B fs && jtruthy (assoc "authToken" fs)
  then exists w', loadSessionData B w = (Ret true, w') /\
         sessionStorage w' = sessionStorage w /\ requests w' = requests w /\
         network w' = network w /\
         truthy (vars w' authToken) = true /\
         truthy (vars w' endpoint) = jtruthy (assoc "endpoint" fs)
  else exists w', loadSessionData B w = (Ret false, w') /\
         sessionStorage w' = None /\ vars w' = vars w /\ requests w' = requests w /\
         network w' = network w.
Proof.
  intros Hs.
  destruct (parse_stored w fs) as (l & ext & Ep & Hrep).
  assert (Hsm : forall w1 : world, heap w1 = heap w ++ ext ->
            (if negb (truthy (current_session B)) then ret true
             else d_sessionId <- prop (VRef l) "sessionId" ;;
                  ret (strict_eq d_sessionId (current_session B)))%js w1
            = (Ret (sessionMatches B fs), w1)).
  { intros w1 Hw1. unfold sessionMatches.
    destruct (negb (truthy (current_session B))); [reflexivity|]. simpl.
    assert (Hr1 : rep (heap w1) (VRef l) (JObj fs)) by (rewrite Hw1; exact Hrep).
    destruct (prop_stored w1 l fs "sessionId" Hr1) as (v & E & R).
    unfold bind. rewrite E. unfold ret.
    rewrite (reads_strict_eq _ _ _ R (current_session_prim B)). reflexivity. }
  assert (Hrun : exists w1, heap w1 = heap w ++ ext /\ sessionStorage w1 = sessionStorage w /\
            vars w1 = vars w /\ requests w1 = requests w /\ network w1 = network w /\
            loadSessionData B w =
            try_catch
              (d_authToken <-
                 (if registrationMatches B fs && sessionMatches B fs
                  then prop (VRef l) "authToken" else ret VUndef) ;;
               if registrationMatches B fs && sessionMatches B fs && truthy d_authToken then
                 restore (VRef l) restored_fields ;; ret true
               else clearSessionData ;; ret false)%js
              (fun _ => ret false) w1).
  { eexists. split; [|split; [|split; [|split; [|split]]]]; cycle 5.
    - unfold loadSessionData, try_catch.
      unfold bind at 1. unfold getItem at 1. rewrite Hs.
      unfold bind at 1. rewrite Ep.
      run_prop Hrep.
      fold (current_session B).
      unfold bind at 1. rewrite Hsm by reflexivity.
      rewrite (reads_truthy _ _ R), (reads_strict_eq _ _ _ R (param_prim B _)).
      fold (registrationMatches B fs). reflexivity.
    - reflexivity.
    - reflexivity.
    - reflexivity.
    - reflexivity.
    - reflexivity. }
  destruct Hrun as (w1 & Hh & H1 & H2 & H3 & H4 & ->).
  assert (Hrep1 : rep (heap w1) (VRef l) (JObj fs)) by (rewrite Hh; exact Hrep).
  rewrite <- H1, <- H2, <- H3, <- H4. clear Hsm Ep Hs Hh H1 H2 H3 H4 Hrep.
  unfold try_catch.
  destruct (registrationMatches B fs && sessionMatches B fs) eqn:C2.
  - destruct (prop_stored w1 l fs "authToken" Hrep1) as (v & E & R).
    cbn [andb]. destruct (jtruthy (assoc "authToken" fs)) eqn:Ct.
    + destruct (restore_credential fs l w1 Hrep1) as (g & Eg & Ha & He).
      unfold bind at 1. rewrite E. rewrite (reads_truthy _ _ R), Ct.
      unfold bind at 1. rewrite Eg. unfold ret.
      eexists. split; [reflexivity|]. cbn.
      rewrite Ha, He, Ct. auto.
    + unfold bind at 1. rewrite E. rewrite (reads_truthy _ _ R), Ct.
      unfold bind, clearSessionData, try_catch, removeItem, ret. cbn.
      eexists. split; [reflexivity|]. cbn. auto.
  - cbn [andb]. unfold bind, clearSessionData, try_catch, removeItem, ret. cbn.
    eexists. split; [reflexivity|]. cbn. auto.
Qed.

Lemma registrationMatches_same B fs :
  registrationMatches B fs = true -> same_registration B fs.
Proof.
  unfold registrationMatches, same_registration, param.
  destruct (assoc "registration" fs) as [[| b | q | s | items | fields]|]; simpl;
    try discriminate;
    destruct (assoc "registration" (search B)) as [r|]; simpl;
    rewrite ?andb_false_r; try discriminate.
  intros H. apply andb_prop in H as [_ H]. apply String.eqb_eq in H. subst. eauto.
Qed.

Lemma launch_session_current B x :
  launch_session B = Some x -> current_session B = VStr x /\ x <> "".
Proof.
  unfold launch_session, current_session, param, session_of_url.
  destruct (assoc "fetch" (search B)) as [u|]; [|discriminate].
  simpl. destruct (String.eqb u ""); [discriminate|]. simpl.
  destruct (URL_session B u) as [[y|]|]; try discriminate.
  destruct (String.eqb y "") eqn:E; [discriminate|].
  intros H. inversion H; subst. split; [reflexivity|].
  intros ->. discriminate.
Qed.

Lemma sessionMatches_same B fs :
  sessionMatches B fs = true -> same_session B fs.
Proof.
  unfold sessionMatches, same_session. intros H x Hx.
  apply launch_session_current in Hx as [Hc Hne]. rewrite Hc in H. simpl in H.
  destruct (String.eqb x "") eqn:E; [apply String.eqb_eq in E; contradiction|].
  simpl in H.
  destruct (assoc "sessionId" fs) as [[| b | q | s | items | fields]|]; simpl in H;
    try discriminate.
  apply String.eqb_eq in H. subst. reflexivity.
Qed.

(** ** The exchange request *)

Lemma keeps_exchanges_of_core {A} (m : M A) : keeps core m -> keeps exchanges m.
Proof. apply keeps_weaken. intros w w' H. unfold core in H. congruence. Qed.

Lemma keeps_restore {X} (obs : world -> X) data fields :
  (forall x v, keeps obs (Browser.set x v)) -> keeps obs (restore data fields).
Proof.
  intros Hset. induction fields as [|[[k x] d] rest IH]; cbn [restore].
  - apply keeps_ret.
  - apply keeps_bind; [keeps_prim|intros v].
    apply keeps_bind; [apply Hset|intros _; exact IH].
Qed.

Lemma keeps_exchanges_load B : keeps exchanges (loadSessionData B).
Proof.
  unfold loadSessionData, clearSessionData. keeps_auto.
  apply keeps_restore. intros x v. keeps_prim.
Qed.

Lemma keeps_exchanges_parse B : keeps exchanges (parseLaunchParameters B).
Proof. unfold parseLaunchParameters. keeps_auto. Qed.

Lemma keeps_exchanges_choose B : keeps exchanges (Public.choose_sessionId B).
Proof. unfold Public.choose_sessionId. keeps_auto. Qed.

Lemma keeps_exchanges_save : keeps exchanges saveSessionData.
Proof.
  eapply keeps_weaken; [|apply keeps_saveSessionData]. intros w w' H. congruence.
Qed.

Lemma keeps_exchanges_prefs : keeps exchanges fetchLearnerPreferences.
Proof.
  unfold fetchLearnerPreferences. keeps_auto.
  apply keeps_exchanges_of_core, keeps_core_of_log, keeps_lrsRequest. exact I.
Qed.

Lemma keeps_exchanges_launchData : keeps exchanges fetchLaunchData.
Proof.
  unfold fetchLaunchData. keeps_auto.
  apply keeps_exchanges_of_core, keeps_core_of_log, keeps_lrsRequest. exact I.
Qed.

Lemma keeps_exchanges_sendInitialized B : keeps exchanges (sendInitialized B).
Proof.
  unfold sendInitialized. keeps_auto; apply keeps_exchanges_of_core;
    first [ apply keeps_core_of_quiet, keeps_verb_literal
          | apply keeps_core_of_quiet, keeps_buildStatement
          | apply keeps_sendStatement ].
Qed.

(** The steps of a fresh launch after the exchange. *)
Lemma keeps_exchanges_after_fetch B :
  keeps exchanges
    (fetchLearnerPreferences ;; fetchLaunchData ;; sendInitialized B ;;
     Browser.set initialized (VBool true) ;; saveSessionData ;; ret true)%js.
Proof.
  keeps_auto; first [ apply keeps_exchanges_prefs | apply keeps_exchanges_launchData
                    | apply keeps_exchanges_sendInitialized | apply keeps_exchanges_save ].
Qed.

(** [fetchAuthToken] issues the exchange, once. *)
Lemma fetchAuthToken_exchanges (w : world) :
  truthy (vars w fetchUrl) = true ->
  exchanges (snd (fetchAuthToken w)) = S (exchanges w).
Proof.
  intros Hf. unfold fetchAuthToken. unfold bind at 1. unfold get at 1. rewrite Hf. simpl.
  rewrite try_bind_obs.
  - unfold transmit. destruct (network w); reflexivity.
  - intros r. keeps_auto. apply keeps_exchanges_save.
  - intros e. keeps_auto.
Qed.

(** ** Saving *)

Lemma saveSessionData_run (w : world) :
  saveSessionData w =
    (Ret tt,
     let ps := map (fun f => (fst f, vars w (snd f))) stored_fields in
     match ser_fields (stringify_at (S (length (heap w))) (heap w ++ [plain ps])) ps [] with
     | SerJson j => with_sessionStorage (Some j) (with_heap (heap w ++ [plain ps]) w)
     | _ => with_heap (heap w ++ [plain ps]) w
     end).
Proof.
  unfold saveSessionData, try_catch, bind, snapshot, new, alloc, JSON_stringify.
  generalize (map (fun f => (fst f, vars w (snd f))) stored_fields). intros ps.
  cbn [heap with_heap fst snd]. rewrite stringify_fresh.
  destruct (ser_fields _ _ _); reflexivity.
Qed.

Lemma Trees_ser_ok (w : world) o x :
  Trees w -> ser_ok (stringify_at (S (length (heap w))) (heap w ++ [o]) (vars w x)).
Proof.
  intros T. destruct (T x) as [P | (j & R & D)].
  - apply stringify_at_prim_ok, P.
  - rewrite (rep_stringify _ j); [exact I| |lia].
    eapply rep_grows; [apply grows_app|exact R].
Qed.

Lemma stored_field (w : world) k x :
  In (k, x) stored_fields -> NoDup (map fst stored_fields) ->
  assoc k (map (fun f => (fst f, vars w (snd f))) stored_fields) = Some (vars w x).
Proof.
  induction stored_fields as [|[k0 x0] rest IH]; simpl; [tauto|].
  intros [H|H] N; inversion N as [|? ? Hn Hr]; subst.
  - inversion H; subst. rewrite String.eqb_refl. reflexivity.
  - destruct (String.eqb k k0) eqn:E.
    + apply String.eqb_eq in E. subst. exfalso. apply Hn.
      apply list_elem_of_In, in_map_iff. exists (k0, x). auto.
    + apply IH; assumption.
Qed.

Lemma stored_fields_NoDup : NoDup (map fst stored_fields).
Proof.
  apply (bool_decide_unpack _). vm_compute. exact I.
Qed.

Ltac in_fields := cbn [In stored_fields]; repeat (first [left; reflexivity | right]).

(** With the variables of a launch, what [saveSessionData] stores is a
    credential for the launch, if it stores anything; and it does when the
    variables hold trees. *)
Lemma saveSessionData_stores B (w : world) :
  Launched B w ->
  vars (snd (saveSessionData w)) = vars w /\
  (Credential B (snd (saveSessionData w)) \/
   sessionStorage (snd (saveSessionData w)) = sessionStorage w) /\
  (Trees w -> Credential B (snd (saveSessionData w))).
Proof.
  intros (e & t & r & sid & He & Hen & Ht & Htn & Hr & Hrn & Hp & Hsid & Hcs).
  rewrite saveSessionData_run. cbn [snd].
  pose proof (fun k x H => stored_field w k x H stored_fields_NoDup) as Hfield.
  set (ps := map (fun f => (fst f, vars w (snd f))) stored_fields) in *.
  cbv zeta.
  set (f := stringify_at (S (length (heap w))) (heap w ++ [plain ps])) in *.
  assert (Cred : forall j, ser_fields f ps [] = SerJson j ->
            Credential B (with_sessionStorage (Some j) (with_heap (heap w ++ [plain ps]) w))).
  { intros j Ej. destruct (ser_fields_assoc _ _ _ _ Ej) as (fs & -> & Hf).
    cbn [rev app with_sessionStorage with_heap]. unfold Credential. cbn [sessionStorage].
    assert (A1 : assoc "registration" fs = Some (JStr r)).
    { apply (Hf "registration" (VStr r));
        [rewrite <- Hr; apply Hfield; in_fields|apply stringify_at_VStr]. }
    assert (A2 : assoc "sessionId" fs = Some (JStr sid)).
    { apply (Hf "sessionId" (VStr sid));
        [rewrite <- Hsid; apply Hfield; in_fields|apply stringify_at_VStr]. }
    assert (A3 : assoc "authToken" fs = Some (JStr t)).
    { apply (Hf "authToken" (VStr t));
        [rewrite <- Ht; apply Hfield; in_fields|apply stringify_at_VStr]. }
    assert (A4 : assoc "endpoint" fs = Some (JStr e)).
    { apply (Hf "endpoint" (VStr e));
        [rewrite <- He; apply Hfield; in_fields|apply stringify_at_VStr]. }
    exists fs. split; [reflexivity|].
    unfold registrationMatches, sessionMatches. rewrite A1, A2, A3, A4. simpl.
    rewrite Hp. simpl. rewrite String.eqb_refl.
    pose proof (truthy_VStr r Hrn) as T1. pose proof (truthy_VStr t Htn) as T3.
    pose proof (truthy_VStr e Hen) as T4. simpl in T1, T3, T4. rewrite T1, T3, T4.
    split; [reflexivity|]. split; [|split; reflexivity].
    destruct (truthy (current_session B)) eqn:Ec; [|reflexivity].
    rewrite (Hcs eq_refl). simpl. apply String.eqb_refl. }
  split; [destruct (ser_fields f ps []); reflexivity|]. split.
  - destruct (ser_fields f ps []) as [| |j] eqn:Ej; simpl; auto.
  - intros T.
    destruct (ser_fields_ok f ps []) as (j & Ej).
    { subst ps f. apply Forall_forall. intros p Hp'. apply list_elem_of_In, in_map_iff in Hp'.
      destruct Hp' as (c & <- & _). simpl. apply Trees_ser_ok, T. }
    rewrite Ej. apply Cred, Ej.
Qed.

Lemma Settled_credentials B w w' :
  credentials w' = credentials w -> Settled B w -> Settled B w'.
Proof.
  unfold credentials. intros E [(fs & Hs & C) (e & t & r & sid & L)].
  inversion E as [[E1 E2 E3 E4 E5]]. split.
  - exists fs. rewrite E1. auto.
  - exists e, t, r, sid. rewrite E2, E3, E4, E5. exact L.
Qed.

Lemma keeps_credentials_of_core {A} (m : M A) : keeps core m -> keeps credentials m.
Proof.
  apply keeps_weaken. intros w w' H. unfold core, credentials in *.
  inversion H as [[E1 E2 E3]]. rewrite E1, E2. reflexivity.
Qed.

Lemma keeps_credentials_prefs : keeps credentials fetchLearnerPreferences.
Proof.
  unfold fetchLearnerPreferences. keeps_auto.
  apply keeps_credentials_of_core, keeps_core_of_log, keeps_lrsRequest. exact I.
Qed.

Lemma keeps_credentials_launchData : keeps credentials fetchLaunchData.
Proof.
  unfold fetchLaunchData. keeps_auto.
  apply keeps_credentials_of_core, keeps_core_of_log, keeps_lrsRequest. exact I.
Qed.

Lemma keeps_credentials_sendInitialized B : keeps credentials (sendInitialized B).
Proof.
  unfold sendInitialized. keeps_auto; apply keeps_credentials_of_core;
    first [ apply keeps_core_of_quiet, keeps_verb_literal
          | apply keeps_core_of_quiet, keeps_buildStatement
          | apply keeps_sendStatement ].
Qed.

Lemma holds_Settled_save B : holds (Settled B) saveSessionData.
Proof.
  intros w [C L]. destruct (saveSessionData_stores B w L) as (Hv & [Hc | Hs] & _).
  - split; [exact Hc|]. destruct L as (e & t & r & sid & L).
    exists e, t, r, sid. rewrite Hv. exact L.
  - apply (Settled_credentials B w); [|split; assumption].
    unfold credentials. rewrite Hv, Hs. reflexivity.
Qed.

(** Once the credential is stored, the rest of the launch leaves a
    credential in the store, whatever the record store answers. *)
Lemma holds_Settled_after_fetch B :
  holds (Settled B)
    (fetchLearnerPreferences ;; fetchLaunchData ;; sendInitialized B ;;
     Browser.set initialized (VBool true) ;; saveSessionData ;; ret true)%js.
Proof.
  pose proof (fun A (m : M A) => holds_keeps credentials (Settled B) m (Settled_credentials B))
    as Hk.
  apply holds_bind; [apply Hk, keeps_credentials_prefs|intros _].
  apply holds_bind; [apply Hk, keeps_credentials_launchData|intros _].
  apply holds_bind; [apply Hk, keeps_credentials_sendInitialized|intros _].
  apply holds_bind; [apply Hk; keeps_prim|intros _].
  apply holds_bind; [apply holds_Settled_save|intros _].
  apply Hk. keeps_prim.
Qed.

(** ** A fresh launch *)

Lemma parseLaunchParameters_complete B (w : world) :
  complete_launch B -> (forall x, primitive (vars w x)) ->
  exists w', parseLaunchParameters B w = (Ret true, w') /\ Trees w' /\
    vars w' endpoint = param B "endpoint" /\ vars w' fetchUrl = param B "fetch" /\
    vars w' registration = param B "registration" /\
    vars w' authToken = vars w authToken /\
    sessionStorage w' = sessionStorage w /\ requests w' = requests w /\
    network w' = network w.
Proof.
  intros (e & f & a & r & i & ja & He & Hen & Hf & Hfn & Ha & Han & Hj & Hjt
          & Hr & Hrn & Hi & Hin) Hprim.
  unfold parseLaunchParameters.
  rewrite (param_value _ _ _ He), (param_value _ _ _ Hf), (param_value _ _ _ Ha),
    (param_value _ _ _ Hr), (param_value _ _ _ Hi).
  rewrite (truthy_VStr a Han), Hj. unfold when.
  destruct (build_spec ja (heap w)) as (ext & E & D & R).
  unfold bind, Browser.set, get, parse, ret. simpl.
  destruct (build ja (heap w)) as [va h'] eqn:Eb. simpl in E, R.
  pose proof (truthy_VStr e Hen) as Te. pose proof (truthy_VStr f Hfn) as Tf.
  pose proof (truthy_VStr r Hrn) as Tr. pose proof (truthy_VStr i Hin) as Ti.
  assert (Tv : truthy va = true)
    by (rewrite (reads_truthy _ _ (rep_reads _ _ _ R)); exact Hjt).
  simpl in Te, Tf, Tr, Ti. simpl. rewrite Te, Tf, Tr, Ti, Tv. simpl.
  eexists. split; [reflexivity|]. simpl.
  split; [|repeat split; reflexivity].
  intros x. simpl.
  destruct x; simpl; try (left; first [exact I | apply Hprim]).
  right. exists ja. split; [exact R|]. subst h'. rewrite length_app. lia.
Qed.

Ltac fin_choose :=
  try (intros; discriminate);
  try (match goal with
       | Hne : forall (x : var) (v : val) (f : var -> val), _ |- _ =>
           intros x Hx; rewrite ?Hne by exact Hx; reflexivity
       end).

Lemma choose_sessionId_run B (w : world) :
  vars w fetchUrl = param B "fetch" -> truthy (param B "fetch") = true ->
  exists w' sid, Public.choose_sessionId B w = (Ret tt, w') /\
    vars w' sessionId = VStr sid /\
    (truthy (current_session B) = true -> current_session B = VStr sid) /\
    (forall x, x <> sessionId -> vars w' x = vars w x) /\
    heap w' = heap w /\ sessionStorage w' = sessionStorage w /\
    requests w' = requests w /\ network w' = network w.
Proof.
  intros Hf Ht. unfold Public.choose_sessionId, current_session.
  unfold bind at 1. unfold get at 1. rewrite Hf, Ht.
  assert (Hne : forall (x : var) (v : val) (f : var -> val),
             x <> sessionId -> (if decide (sessionId = x) then v else f x) = f x).
  { intros x v f Hx. destruct (decide (sessionId = x)); [congruence|reflexivity]. }
  unfold session_of_url.
  unfold param in *. destruct (assoc "fetch" (search B)) as [u|]; [|discriminate].
  destruct (URL_session B u) as [[s|]|]; simpl.
  - unfold bind, Browser.set, generateUUID, ret. simpl.
    destruct (negb (String.eqb s "")) eqn:Es; simpl.
    + eexists _, s. split; [reflexivity|]. simpl. repeat split; auto; fin_choose.
    + eexists _, _. split; [reflexivity|]. simpl. repeat split; auto; fin_choose.
  - unfold bind, Browser.set, generateUUID, ret. simpl.
    eexists _, _. split; [reflexivity|]. simpl. repeat split; auto; fin_choose.
  - unfold bind, Browser.set, generateUUID, ret. simpl.
    eexists _, _. split; [reflexivity|]. simpl. repeat split; auto; fin_choose.
Qed.

Lemma saveSessionData_returns (w : world) :
  saveSessionData w = (Ret tt, snd (saveSessionData w)).
Proof. rewrite saveSessionData_run. cbn [snd]. reflexivity. Qed.

(** An answer with a token: the token is kept, under a scheme, and the
    store is written before [fetchAuthToken] returns. *)
Lemma fetchAuthToken_token (w : world) first rest :
  truthy (vars w fetchUrl) = true ->
  network w = first :: rest -> carries_token first ->
  exists w1 t,
    fetchAuthToken w = (Ret true, snd (saveSessionData w1)) /\
    vars w1 authToken = VStr t /\ t <> "" /\
    (forall x, x <> authToken -> vars w1 x = vars w x) /\
    (exists ext, heap w1 = heap w ++ ext) /\
    sessionStorage w1 = sessionStorage w.
Proof.
  intros Hf Hn (status & statusText & text & fs & s & -> & Hok & Htok & Hs).
  unfold fetchAuthToken. unfold bind at 1. unfold get at 1. rewrite Hf. cbn [negb].
  unfold try_catch. unfold bind at 1. unfold transmit at 1. rewrite Hn. rewrite Hok.
  cbn [negb].
  match goal with
  | |- context [bind (parse (JObj fs)) _ ?W] =>
      destruct (parse_stored W fs) as (l & ext & Ep & Hrep);
      unfold bind at 1; rewrite Ep; clear Ep
  end.
  cbn [heap with_network] in Hrep |- *.
  match goal with
  | |- context [bind (prop (VRef l) "auth-token") _ ?W] => set (W0 := W) in *
  end.
  assert (Hr0 : rep (heap W0) (VRef l) (JObj fs)) by exact Hrep.
  assert (Htail : forall W : world, heap W = heap W0 -> sessionStorage W = sessionStorage w ->
            vars W = vars w ->
            exists w1 t,
              (Browser.set authToken (VStr s) ;;
               if negb (truthy (VStr s)) then throw (Error "No auth token in response") else
                 when (negb (startsWith s "Basic ") && negb (startsWith s "Bearer "))
                   (Browser.set authToken (VStr ("Basic " ++ s))) ;;
                 saveSessionData ;;
                 ret true)%js W = (Ret true, snd (saveSessionData w1)) /\
              vars w1 authToken = VStr t /\ t <> "" /\
              (forall x, x <> authToken -> vars w1 x = vars w x) /\
              (exists ext, heap w1 = heap w ++ ext) /\
              sessionStorage w1 = sessionStorage w).
  { intros W HW HS HV. rewrite (truthy_VStr s Hs). cbn [negb].
    assert (Hne : forall (x : var) (v : val) (f : var -> val),
               x <> authToken -> (if decide (authToken = x) then v else f x) = f x).
    { intros x v f Hx. destruct (decide (authToken = x)); [congruence|reflexivity]. }
    unfold bind at 1. unfold Browser.set at 1.
    destruct (negb (startsWith s "Basic ") && negb (startsWith s "Bearer ")); unfold when.
    - unfold bind at 1. unfold Browser.set at 1.
      unfold bind at 1. rewrite saveSessionData_returns. unfold ret.
      eexists _, _. split; [reflexivity|]. cbn.
      split; [reflexivity|]. split; [discriminate|].
      split; [intros x Hx; rewrite !Hne by exact Hx; rewrite HV; reflexivity|].
      split; [exists ext; rewrite HW; reflexivity|exact HS].
    - unfold bind at 1. unfold ret at 1.
      unfold bind at 1. rewrite saveSessionData_returns. unfold ret.
      eexists _, _. split; [reflexivity|]. cbn.
      split; [reflexivity|]. split; [exact Hs|].
      split; [intros x Hx; rewrite !Hne by exact Hx; rewrite HV; reflexivity|].
      split; [exists ext; rewrite HW; reflexivity|exact HS]. }
  destruct (prop_stored W0 l fs "auth-token" Hr0) as (t1 & E1 & R1).
  destruct (prop_stored W0 l fs "authToken" Hr0) as (t2 & E2 & R2).
  destruct (prop_stored W0 l fs "token" Hr0) as (t3 & E3 & R3).
  destruct (Htail W0 eq_refl eq_refl eq_refl) as (w1 & t & Et & Hrest).
  exists w1, t. split; [|exact Hrest].
  unfold bind at 1. rewrite E1. rewrite (reads_truthy _ _ R1).
  unfold token_field in Htok.
  destruct (jtruthy (assoc "auth-token" fs)).
  - rewrite Htok in R1. apply reads_JStr in R1. subst t1.
    unfold bind at 1. unfold ret at 1. rewrite Et. reflexivity.
  - unfold bind at 1. unfold bind at 1. rewrite E2. rewrite (reads_truthy _ _ R2).
    destruct (jtruthy (assoc "authToken" fs)).
    + rewrite Htok in R2. apply reads_JStr in R2. subst t2.
      unfold ret at 1. rewrite Et. reflexivity.
    + rewrite E3. rewrite Htok in R3. apply reads_JStr in R3. subst t3.
      rewrite Et. reflexivity.
Qed.

Lemma initial_primitive x : primitive (initial x).
Proof. destruct x; exact I. Qed.

Lemma loadSessionData_none B (w : world) :
  sessionStorage w = None -> loadSessionData B w = (Ret false, w).
Proof.
  intros H. unfold loadSessionData, try_catch, bind, getItem. rewrite H. reflexivity.
Qed.

Lemma Trees_update (w w' : world) :
  Trees w -> (forall x, vars w' x = vars w x \/ primitive (vars w' x)) ->
  (exists ext, heap w' = heap w ++ ext) -> Trees w'.
Proof.
  intros T Hv (ext & Hh) x. destruct (Hv x) as [E|P]; [|left; exact P].
  rewrite E. destruct (T x) as [P | (j & R & D)]; [left; exact P|].
  right. exists j. rewrite Hh. split.
  - eapply rep_grows; [apply grows_app|exact R].
  - rewrite length_app. lia.
Qed.

(** A load that restores nothing goes on to a fresh launch: with every
    launch parameter there, the exchange is issued, once, and a token in
    the answer leaves a credential in the store. *)
Lemma fresh_launch B (W W' : world) :
  complete_launch B -> truthy (vars W initialized) = false ->
  loadSessionData B W = (Ret false, W') -> (forall x, primitive (vars W' x)) ->
  exchanges (snd (Public.initialize B W)) = S (exchanges W') /\
  (forall first rest, network W' = first :: rest -> carries_token first ->
     Credential B (snd (Public.initialize B W))).
Proof.
  intros HB Hi Hl Hprim.
  remember (Public.initialize B W) as run eqn:Erun.
  unfold Public.initialize in Erun.
  unfold bind at 1 in Erun. unfold get at 1 in Erun. rewrite Hi in Erun.
  unfold bind at 1 in Erun. rewrite Hl in Erun.
  unfold bind at 1 in Erun. unfold get at 1 in Erun.
  unfold bind at 1 in Erun. unfold get at 1 in Erun.
  cbn [andb] in Erun.
  unfold bind at 1 in Erun. unfold Date_now at 1 in Erun.
  unfold bind at 1 in Erun. unfold Browser.set at 1 in Erun.
  match type of Erun with
  | context [bind (parseLaunchParameters B) _ ?W1] =>
      destruct (parseLaunchParameters_complete B W1 HB)
        as (w1 & E1 & T1 & He1 & Hf1 & Hr1 & _ & Hs1 & Hq1 & Hn1)
  end.
  { intros x. cbn [vars with_vars].
    destruct (decide (startTime = x)); [exact I|apply Hprim]. }
  unfold bind at 1 in Erun. rewrite E1 in Erun.
  destruct HB as (e & f & a & r & i & ja & He & Hen & Hf & Hfn & Ha & Han & Hj & Hjt
                  & Hr & Hrn & Hi' & Hin).
  rewrite (param_value _ _ _ He) in He1. rewrite (param_value _ _ _ Hf) in Hf1.
  rewrite (param_value _ _ _ Hr) in Hr1.
  destruct (choose_sessionId_run B w1) as (w2 & sid & E2 & Hsid & Hcs & Hv2 & Hh2 & Hs2 & Hq2 & Hn2).
  { rewrite Hf1. symmetry. apply param_value, Hf. }
  { rewrite (param_value _ _ _ Hf). apply truthy_VStr, Hfn. }
  unfold bind at 1 in Erun. rewrite E2 in Erun. cbn [negb] in Erun.
  cbn [requests network with_vars] in Hq1, Hn1.
  assert (Hf2 : truthy (vars w2 fetchUrl) = true).
  { rewrite Hv2 by discriminate. rewrite Hf1. apply truthy_VStr, Hfn. }
  subst run. split.
  - rewrite try_bind_obs.
    + rewrite (fetchAuthToken_exchanges w2 Hf2). unfold exchanges.
      rewrite Hq2, Hq1. reflexivity.
    + intros _. apply keeps_exchanges_after_fetch.
    + intros _. keeps_auto.
  - intros first rest Hn Hc.
    destruct (fetchAuthToken_token w2 first rest Hf2) as (w3 & t & E3 & Ht & Htn & Hv3 & Hh3 & Hs3).
    { rewrite Hn2, Hn1. exact Hn. }
    { exact Hc. }
    assert (L3 : Launched B w3).
    { exists e, t, r, sid.
      rewrite (Hv3 endpoint), (Hv3 registration), (Hv3 sessionId) by discriminate.
      rewrite (Hv2 endpoint), (Hv2 registration) by discriminate.
      rewrite He1, Hr1, Hsid, (param_value _ _ _ Hr). auto 10. }
    assert (T3 : Trees w3).
    { apply (Trees_update w2); [apply (Trees_update w1); [exact T1| |]| |].
      - intros x. destruct (decide (x = sessionId)) as [->|Hx].
        + right. rewrite Hsid. exact I.
        + left. apply Hv2, Hx.
      - exists []. rewrite app_nil_r. exact Hh2.
      - intros x. destruct (decide (x = authToken)) as [->|Hx].
        + right. rewrite Ht. exact I.
        + left. apply Hv3, Hx.
      - exact Hh3. }
    destruct (saveSessionData_stores B w3 L3) as (Hv & _ & Hc3).
    assert (S3 : Settled B (snd (saveSessionData w3))).
    { split; [apply Hc3, T3|]. destruct L3 as (e' & t' & r' & sid' & L3).
      exists e', t', r', sid'. rewrite Hv. exact L3. }
    pose proof (holds_Settled_after_fetch B _ S3) as [(fs & Hfs & C) _].
    rewrite (try_bind_run _ _ _ _ _ _ E3). unfold try_catch.
    match type of Hfs with
    | sessionStorage (snd ?run) = _ => destruct run as [[b|err] w4]
    end; cbn [snd] in Hfs |- *.
    + exists fs. auto.
    + exists fs. auto.
Qed.

(** A load that finds a credential for the launch restores it, and
    [initialize] returns without an exchange. *)
Lemma reload B (w : world) :
  Credential B w ->
  fst (page_load B w) = Ret true /\
  Credential B (snd (page_load B w)) /\
  exchanges (snd (page_load B w)) = exchanges w.
Proof.
  intros (fs & Hs & Cr & Cs & Ct & Ce).
  pose proof (loadSessionData_cases B (fresh_page w) fs Hs) as H.
  rewrite Cr, Cs, Ct in H. cbn [andb] in H.
  destruct H as (w' & E & H1 & H2 & H3 & Ha & He).
  assert (Hrun : page_load B w = (Ret true, w')).
  { unfold page_load, Public.initialize.
    unfold bind at 1. unfold get at 1.
    change (truthy (vars (fresh_page w) initialized)) with false. cbv iota.
    unfold bind at 1. rewrite E.
    unfold bind at 1. unfold get at 1. unfold bind at 1. unfold get at 1.
    rewrite Ha, He, Ce. reflexivity. }
  rewrite Hrun. cbn [fst snd].
  split; [reflexivity|]. split.
  - exists fs. rewrite H1. auto.
  - unfold exchanges. rewrite H2. reflexivity.
Qed.

Lemma reloads B n : forall w : world,
  Credential B w ->
  Credential B (loads B n w) /\ exchanges (loads B n w) = exchanges w.
Proof.
  induction n as [|n IH]; intros w C; cbn [loads]; [auto|].
  destruct (reload B w C) as (_ & C1 & E1).
  destruct (IH _ C1) as (C2 & E2). split; [exact C2|congruence].
Qed.

Lemma mismatch_fails B stored :
  ~ (same_registration B stored /\ same_session B stored) ->
  registrationMatches B stored && sessionMatches B stored
    && jtruthy (assoc "authToken" stored) = false.
Proof.
  intros N. destruct (registrationMatches B stored) eqn:Cr; [|reflexivity].
  destruct (sessionMatches B stored) eqn:Cs; [|reflexivity].
  exfalso. apply N. split; [apply registrationMatches_same, Cr|apply sessionMatches_same, Cs].
Qed.

Lemma lms_complete : complete_launch lms.
Proof.
  exists "https://lrs.example/xapi", "https://lms.example/fetch?session=S1", "{name:Ann}",
    "R1", "https://au.example/course", (JObj [("name", JStr "Ann")]).
  repeat split; try reflexivity; discriminate.
Qed.

Lemma lms_second_session_complete : complete_launch lms_second_session.
Proof.
  exists "https://lrs.example/xapi", "https://lms.example/fetch?session=S2", "{name:Ann}",
    "R1", "https://au.example/course", (JObj [("name", JStr "Ann")]).
  repeat split; try reflexivity; discriminate.
Qed.

Lemma token_carries : carries_token token.
Proof.
  exists 200, "OK", "{auth-token:QWxhZGRpbg==}", [("auth-token", JStr "QWxhZGRpbg==")],
    "QWxhZGRpbg==".
  repeat split; try reflexivity; discriminate.
Qed.




(** C4. With an object in the store, [loadSessionData] returns true only
    if the stored registration is the registration parameter of the page
    and, when the fetch URL names a session, the stored session id is
    that one. Otherwise it returns false with the store emptied and the
    variables untouched, and [initialize], the launch parameters being
    complete, goes on to request the exchange. *)
Theorem C4_load_checks_registration_and_session
    (B : browser) (w : world) (stored : list (string * json)) :
  sessionStorage w = Some (JObj stored) ->
  (forall w', loadSessionData B w = (Ret true, w') ->
              same_registration B stored /\ same_session B stored) /\
  (~ (same_registration B stored /\ same_session B stored) ->
   (exists w', loadSessionData B w = (Ret false, w') /\
               sessionStorage w' = None /\ vars w' = vars w /\ requests w' = requests w) /\
   (complete_launch B -> exchanges (snd (page_load B w)) = S (exchanges w))).
Proof.
  intros Hs. split.
  - intros w' E. pose proof (loadSessionData_cases B w stored Hs) as H.
    destruct (registrationMatches B stored) eqn:Cr;
      [|destruct H as (w2 & E2 & _); rewrite E in E2; discriminate].
    destruct (sessionMatches B stored) eqn:Cs;
      [|destruct H as (w2 & E2 & _); rewrite E in E2; discriminate].
    split; [apply registrationMatches_same, Cr|apply sessionMatches_same, Cs].
  - intros N. pose proof (mismatch_fails B stored N) as C. split.
    + pose proof (loadSessionData_cases B w stored Hs) as H. rewrite C in H.
      destruct H as (w' & E & H1 & H2 & H3 & _). exists w'. auto.
    + intros HB.
      pose proof (loadSessionData_cases B (fresh_page w) stored Hs) as H. rewrite C in H.
      destruct H as (w' & E & H1 & H2 & H3 & _).
      destruct (fresh_launch B (fresh_page w) w' HB eq_refl E) as (E1 & _).
      { intros x. rewrite H2. apply initial_primitive. }
      unfold page_load. rewrite E1. unfold exchanges. rewrite H3. reflexivity.
Qed.

Lemma C4_witness :
  exists stored,
    sessionStorage launched = Some (JObj stored) /\
    assoc "sessionId" stored = Some (JStr "S1") /\
    launch_session lms_second_session = Some "S2" /\
    sessionStorage (snd (loadSessionData lms_second_session launched)) = None /\
    exchanges (snd (page_load lms_second_session launched)) = 2%nat.
Proof.
  assert (Hs : exists stored, sessionStorage launched = Some (JObj stored) /\
                 assoc "sessionId" stored = Some (JStr "S1")).
  { vm_compute. eexists. split; reflexivity. }
  destruct Hs as (stored & Hs & Hid). exists stored.
  assert (Hl : launch_session lms_second_session = Some "S2") by reflexivity.
  assert (N : ~ (same_registration lms_second_session stored /\
                 same_session lms_second_session stored)).
  { intros [_ S]. specialize (S "S2" Hl). rewrite Hid in S. discriminate. }
  destruct (C4_load_checks_registration_and_session lms_second_session launched stored Hs)
    as (_ & H).
  destruct (H N) as ((w' & E & Hc & _) & Hx).
  split; [exact Hs|]. split; [exact Hid|]. split; [exact Hl|]. split.
  - rewrite E. exact Hc.
  - rewrite (Hx lms_second_session_complete). reflexivity.
Defined.

End SessionFacts.

(* ===================================================================== *)
(** * Building a statement writes to what it has allocated *)
(* ===================================================================== *)

Module FrameFacts.
Import JS Browser Cmi5 HeapSpec WrapperSpec FrameSpec MonadFacts HeapFacts.
Local Open Scope js_scope.
Local Open Scope string_scope.
Local Open Scope list_scope.

Lemma above_le n m v : (n <= m)%nat -> above m v -> above n v.
Proof. destruct v; simpl; auto. lia. Qed.

Lemma assoc_In {A} k (ps : list (string * A)) v : assoc k ps = Some v -> In (k, v) ps.
Proof.
  induction ps as [|[k0 v0] ps IH]; simpl; [discriminate|].
  destruct (String.eqb k k0) eqn:E.
  - intros H. inversion H; subst. apply String.eqb_eq in E. subst. auto.
  - auto.
Qed.

Lemma assoc_assoc_set {A} k k' (x : A) ps :
  assoc k' (assoc_set k x ps) = if String.eqb k' k then Some x else assoc k' ps.
Proof.
  induction ps as [|[k0 v0] ps IH]; simpl.
  - destruct (String.eqb k' k); reflexivity.
  - destruct (String.eqb k k0) eqn:E; simpl.
    + apply String.eqb_eq in E. subst k0. destruct (String.eqb k' k); reflexivity.
    + destruct (String.eqb k' k0) eqn:E'; [|exact IH].
      destruct (String.eqb k' k) eqn:E''; [|reflexivity].
      apply String.eqb_eq in E', E''. subst. rewrite String.eqb_refl in E. discriminate.
Qed.

(** ** What [build] allocates *)

Lemma build_above j : forall h,
  exists ext, snd (build j h) = h ++ ext /\ above (length h) (fst (build j h)) /\
              Forall (all_above (length h)) ext.
Proof.
  induction j as [| b | q | s | items IH | fields IH] using json_ind'; intros h;
    try solve [exists []; rewrite app_nil_r; simpl; auto].
  - simpl.
    assert (L : exists ext, snd (build_items build items h) = h ++ ext /\
                            Forall (all_above (length h)) ext).
    { revert h. induction IH as [|x r Hx Hr IHr]; intros h; simpl.
      - exists []. rewrite app_nil_r. auto.
      - destruct (Hx h) as (e1 & E1 & _ & F1).
        destruct (build x h) as [v h1]. simpl in *.
        destruct (IHr h1) as (e2 & E2 & F2).
        destruct (build_items build r h1) as [vs h2]. simpl in *.
        exists (e1 ++ e2). subst. rewrite app_assoc. split; [reflexivity|].
        apply Forall_app. split; [exact F1|].
        eapply Forall_impl; [exact F2|]. intros o Ho k' v' Hk.
        eapply above_le; [|apply (Ho k' v' Hk)]. rewrite length_app. lia. }
    destruct L as (ext & E & F).
    destruct (build_items build items h) as [vs h1]. simpl in *. subst h1.
    exists (ext ++ [array vs]). rewrite app_assoc. split; [reflexivity|].
    split; [rewrite length_app; lia|].
    apply Forall_app. split; [exact F|].
    constructor; [|constructor]. intros k v Hk. simpl in Hk. contradiction.
  - simpl.
    assert (L : exists ext, snd (build_fields build fields h) = h ++ ext /\
                (forall k v, In (k, v) (fst (build_fields build fields h)) ->
                             above (length h) v) /\
                Forall (all_above (length h)) ext).
    { revert h. induction IH as [|[k x] r Hx Hr IHr]; intros h; simpl.
      - exists []. rewrite app_nil_r. split; [reflexivity|]. split; [tauto|constructor].
      - simpl in Hx. destruct (Hx h) as (e1 & E1 & A1 & F1).
        destruct (build x h) as [v h1]. simpl in *.
        destruct (IHr h1) as (e2 & E2 & A2 & F2).
        destruct (build_fields build r h1) as [ps h2]. simpl in *.
        assert (Hle : (length h <= length h1)%nat) by (subst h1; rewrite length_app; lia).
        exists (e1 ++ e2). subst h2 h1. rewrite app_assoc. split; [reflexivity|]. split.
        + intros k' v' [H|H].
          * inversion H; subst. exact A1.
          * eapply above_le; [exact Hle|]. apply (A2 k' v' H).
        + apply Forall_app. split; [exact F1|].
          eapply Forall_impl; [exact F2|]. intros o Ho k' v' Hk.
          eapply above_le; [exact Hle|apply (Ho k' v' Hk)]. }
    destruct L as (ext & E & A & F).
    destruct (build_fields build fields h) as [ps h1]. simpl in *. subst h1.
    exists (ext ++ [plain ps]). rewrite app_assoc. split; [reflexivity|].
    split; [rewrite length_app; lia|].
    apply Forall_app. split; [exact F|].
    constructor; [|constructor]. intros k v Hk. simpl in Hk. apply (A k v Hk).
Qed.

(** ** The rules *)

Section Frame.
Context (h0 : JS.heap) (V0 : var -> val).

Lemma framed_same (w w' : world) :
  heap w' = heap w -> vars w' = vars w -> framed h0 V0 w -> framed h0 V0 w'.
Proof. unfold framed. intros -> ->. auto. Qed.

Lemma fr_ret {A} (a : A) (post : A -> Prop) : post a -> fr h0 V0 (ret a) post.
Proof.
  intros H w F. split; [exact F|]. intros a' E. inversion E; subst. exact H.
Qed.

Lemma fr_throw {A} (e : exn) (post : A -> Prop) : fr h0 V0 (throw e) post.
Proof. intros w F. split; [exact F|]. intros a E. discriminate. Qed.

Lemma fr_bind {A C} (m : M A) (k : A -> M C) (post : A -> Prop) (post' : C -> Prop) :
  fr h0 V0 m post -> (forall a, post a -> fr h0 V0 (k a) post') ->
  fr h0 V0 (bind m k) post'.
Proof.
  intros Hm Hk w F. destruct (Hm w F) as [F1 P1]. unfold bind.
  destruct (m w) as [[a|e] w1]; simpl in *.
  - apply (Hk a (P1 a eq_refl) w1 F1).
  - split; [exact F1|]. intros a E. discriminate.
Qed.

Lemma fr_weaken {A} (m : M A) (post post' : A -> Prop) :
  (forall a, post a -> post' a) -> fr h0 V0 m post -> fr h0 V0 m post'.
Proof.
  intros H Hm w F. destruct (Hm w F) as [F1 P1]. split; [exact F1|].
  intros a E. apply H, P1, E.
Qed.

Lemma fr_any {A} (m : M A) (post : A -> Prop) :
  fr h0 V0 m post -> fr h0 V0 m (fun _ => True).
Proof. apply fr_weaken. auto. Qed.

Lemma fr_when (b : bool) (m : M unit) :
  fr h0 V0 m (fun _ => True) -> fr h0 V0 (when b m) (fun _ => True).
Proof. intros H. destruct b; [exact H|apply fr_ret; exact I]. Qed.

Lemma fr_try_catch {A} (m : M A) (h : exn -> M A) (post : A -> Prop) :
  fr h0 V0 m post -> (forall e, fr h0 V0 (h e) post) -> fr h0 V0 (try_catch m h) post.
Proof.
  intros Hm Hh w F. destruct (Hm w F) as [F1 P1]. unfold try_catch.
  destruct (m w) as [[a|e] w1]; simpl in *.
  - split; [exact F1|exact P1].
  - apply (Hh e w1 F1).
Qed.

(** A step that writes neither the heap nor a variable. *)
Lemma fr_pure {A} (m : M A) :
  (forall w, heap (snd (m w)) = heap w /\ vars (snd (m w)) = vars w) ->
  fr h0 V0 m (fun _ => True).
Proof.
  intros H w F. destruct (H w) as [Hh Hv]. split; [|auto].
  apply (framed_same w); assumption.
Qed.

Lemma fr_get x : fr h0 V0 (get x) (fun _ => True).
Proof. apply fr_pure. intros w. split; reflexivity. Qed.

Lemma fr_prop v k : fr h0 V0 (prop v k) (fun _ => True).
Proof.
  apply fr_pure. intros w. unfold prop. destruct (read_prop (heap w) v k); split; reflexivity.
Qed.

Lemma fr_opt_prop v k : fr h0 V0 (opt_prop v k) (fun _ => True).
Proof. unfold opt_prop. destruct v; first [apply fr_prop | apply fr_ret; exact I]. Qed.

Lemma fr_items v : fr h0 V0 (items v) (fun _ => True).
Proof.
  apply fr_pure. intros w. unfold items. destruct (array_items (heap w) v); split; reflexivity.
Qed.

Lemma fr_JSON_stringify v : fr h0 V0 (JSON_stringify v) (fun _ => True).
Proof.
  apply fr_pure. intros w. unfold JSON_stringify.
  destruct (stringify (heap w) v); split; reflexivity.
Qed.

Lemma fr_generateUUID B : fr h0 V0 (generateUUID B) (fun _ => True).
Proof. apply fr_pure. intros w. split; reflexivity. Qed.

Lemma fr_timestamp B : fr h0 V0 (timestamp B) (fun _ => True).
Proof. apply fr_pure. intros w. split; reflexivity. Qed.

(** Reading through a link from an object above the frame. *)
Lemma fr_prop_link v k :
  above (length h0) v -> In k links -> fr h0 V0 (prop v k) (above (length h0)).
Proof.
  intros Hv Hk w F. split.
  - apply (fr_prop v k w F).
  - intros a E. destruct F as (_ & C & _). unfold prop in E.
    destruct v as [| | b | q | s | l]; simpl in E; try discriminate;
      try (inversion E; subst; exact I).
    destruct (heap w !! l) as [o|] eqn:El; simpl in E; inversion E; subst; [|exact I].
    destruct (assoc k (props o)) as [v|] eqn:Ea; simpl; [|exact I].
    apply (C l o Hv El k v Hk Ea).
Qed.

Lemma fr_new o : linked (length h0) (props o) -> fr h0 V0 (new o) (above (length h0)).
Proof.
  intros Ho w ((ext & E) & C & V). unfold new, alloc. simpl. split.
  - split; [|split; [|exact V]].
    + exists (ext ++ [o]). rewrite E, app_assoc. reflexivity.
    + intros l o' Hl Hlook.
      destruct (lookup_app_Some (heap w) [o] l o') as [Hcases _].
      destruct (Hcases Hlook) as [H|[_ H]].
      * apply (C l o' Hl H).
      * destruct (l - length (heap w))%nat; simpl in H; [|discriminate].
        inversion H; subst. exact Ho.
  - intros a Ea. inversion Ea; subst. simpl. rewrite E, length_app. lia.
Qed.

Lemma fr_set_prop v k x :
  above (length h0) v -> (In k links -> above (length h0) x) ->
  fr h0 V0 (set_prop v k x) (fun _ => True).
Proof.
  intros Hv Hx w ((ext & E) & C & V). split; [|auto].
  unfold set_prop, write_prop.
  destruct v as [| | b | q | s | l]; simpl; try (split; [eauto|split; assumption]).
  destruct (heap w !! l) as [o|] eqn:El; simpl; [|split; [eauto|split; assumption]].
  simpl in Hv. split; [|split; [|exact V]].
  - exists (<[(l - length h0)%nat := Obj (elems o) (assoc_set k x (props o))]> ext).
    rewrite E. apply insert_app_r_alt. exact Hv.
  - intros l' o' Hl' Hlook. simpl in Hlook.
    destruct (decide (l = l')) as [<-|Hne].
    + rewrite list_lookup_insert_eq in Hlook by (eapply lookup_lt_Some; exact El).
      inversion Hlook; subst. simpl. intros k' v' Hk'. rewrite assoc_assoc_set.
      destruct (String.eqb k' k) eqn:Ek.
      * apply String.eqb_eq in Ek. subst k'. intros H. inversion H; subst. apply Hx, Hk'.
      * apply (C l o Hv El k' v' Hk').
    + rewrite list_lookup_insert_ne in Hlook by exact Hne.
      apply (C l' o' Hl' Hlook).
Qed.

Lemma fr_push v x :
  above (length h0) v -> fr h0 V0 (push v x) (fun _ => True).
Proof.
  intros Hv w ((ext & E) & C & V). split; [|auto].
  unfold push, array_push.
  destruct v as [| | b | q | s | l]; simpl; try (split; [eauto|split; assumption]).
  destruct (heap w !! l) as [[[its|] ps]|] eqn:El; simpl;
    try (split; [eauto|split; assumption]).
  simpl in Hv. split; [|split; [|exact V]].
  - exists (<[(l - length h0)%nat := Obj (Some (its ++ [x])) ps]> ext).
    rewrite E. apply insert_app_r_alt. exact Hv.
  - intros l' o' Hl' Hlook. simpl in Hlook.
    destruct (decide (l = l')) as [<-|Hne].
    + rewrite list_lookup_insert_eq in Hlook by (eapply lookup_lt_Some; exact El).
      inversion Hlook; subst. simpl. apply (C l _ Hv El).
    + rewrite list_lookup_insert_ne in Hlook by exact Hne.
      apply (C l' o' Hl' Hlook).
Qed.

Lemma fr_parse j : fr h0 V0 (parse j) (above (length h0)).
Proof.
  intros w ((ext & E) & C & V). unfold parse.
  destruct (build_above j (heap w)) as (e1 & E1 & A1 & F1).
  destruct (build j (heap w)) as [v h1]. simpl in *. subst h1.
  assert (Hle : (length h0 <= length (heap w))%nat) by (rewrite E, length_app; lia).
  split.
  - split; [|split; [|exact V]].
    + exists (ext ++ e1). rewrite E, app_assoc. reflexivity.
    + intros l o Hl Hlook.
      destruct (lookup_app_Some (heap w) e1 l o) as [Hcases _].
      destruct (Hcases Hlook) as [H|[_ H]].
      * apply (C l o Hl H).
      * intros k x Hk Hx.
        eapply above_le; [exact Hle|].
        rewrite Forall_forall in F1.
        apply (F1 o (list_elem_of_lookup_2 _ _ _ H) k x), assoc_In, Hx.
  - intros a Ea. inversion Ea; subst. eapply above_le; [exact Hle|exact A1].
Qed.

Lemma fr_some_id id l : fr h0 V0 (some_id id l) (fun _ => True).
Proof.
  induction l as [|c r IH]; simpl.
  - apply fr_ret. exact I.
  - eapply fr_bind; [apply fr_prop|]. intros i _.
    destruct (strict_eq i (VStr id)); [apply fr_ret; exact I|exact IH].
Qed.

End Frame.

(** ** The builders *)

Ltac not_a_link H :=
  unfold EXT_SESSIONID in H; simpl in H;
  repeat (destruct H as [H|H]; [discriminate H|]); contradiction.

Ltac linked_obj :=
  let k := fresh "k" in let v := fresh "v" in
  let Hk := fresh "Hk" in let Ha := fresh "Ha" in
  intros k v Hk Ha; unfold EXT_SESSIONID in Ha; simpl in Hk;
  repeat (destruct Hk as [Hk|Hk];
          [subst k; simpl in Ha; try discriminate Ha; inversion Ha; subst; assumption|]);
  contradiction.

Ltac fr_rule :=
  first
    [ apply fr_get | apply fr_generateUUID | apply fr_timestamp
    | apply fr_JSON_stringify | apply fr_items | apply fr_some_id
    | apply fr_parse | apply fr_throw
    | apply fr_new; linked_obj
    | apply fr_prop_link; [assumption | simpl; tauto]
    | apply fr_prop | apply fr_opt_prop
    | apply fr_set_prop;
      [ assumption
      | let H := fresh "H" in intros H; first [assumption | not_a_link H] ]
    | apply fr_push; assumption
    | apply fr_ret; first [assumption | exact I] ].

Ltac fr_go :=
  lazymatch goal with
  | |- fr _ _ (bind _ _) _ => eapply fr_bind; [fr_go | intros ? ?; fr_go]
  | |- fr _ _ (when _ _) _ => apply fr_when; fr_go
  | |- fr _ _ (has_category _ _) _ => unfold has_category; fr_go
  | |- fr _ _ (push_category _ _) _ => unfold push_category; fr_go
  | |- fr ?h ?V (if ?b then _ else _) _ =>
      first [ apply fr_weaken with (post := above (length h));
              [first [intros ? HH; exact HH | intros; exact I] | destruct b; solve [fr_go]]
            | apply fr_any with (post := fun _ => True); destruct b; fr_go ]
  | |- fr _ _ (match ?s with _ => _ end) _ =>
      destruct s; fr_go
  | |- _ => first [fr_rule | eapply fr_any; fr_rule]
  end.

Lemma fr_buildStatement h0 V0 B verb result objectOverride :
  fr h0 V0 (buildStatement B verb result objectOverride) (above (length h0)).
Proof. unfold buildStatement. fr_go. Qed.

Lemma fr_allowed_statement h0 V0 B verb result object :
  fr h0 V0 (Public.allowed_statement B verb result object) (above (length h0)).
Proof. unfold Public.allowed_statement. fr_go. Qed.

Lemma framed_start (w : world) : framed (heap w) (vars w) w.
Proof.
  split; [exists []; rewrite app_nil_r; reflexivity|]. split; [|reflexivity].
  intros l o Hl Hlook. apply lookup_lt_Some in Hlook. lia.
Qed.

Lemma build_one_frame B c (w : world) :
  (exists ext, heap (snd (build_one B c w)) = heap w ++ ext) /\
  vars (snd (build_one B c w)) = vars w.
Proof.
  destruct c as [verb result objectOverride | verb result object]; simpl.
  - destruct (fr_buildStatement (heap w) (vars w) B verb result objectOverride w
                (framed_start w)) as [(E & _ & V) _]. auto.
  - destruct (fr_allowed_statement (heap w) (vars w) B verb result object w
                (framed_start w)) as [(E & _ & V) _]. auto.
Qed.

Lemma build_all_frame B l : forall w : world,
  (exists ext, heap (build_all B l w) = heap w ++ ext) /\
  vars (build_all B l w) = vars w.
Proof.
  induction l as [|c r IH]; intros w; simpl.
  - split; [exists []; rewrite app_nil_r; reflexivity|reflexivity].
  - destruct (build_one_frame B c w) as ((e1 & E1) & V1).
    destruct (IH (snd (build_one B c w))) as ((e2 & E2) & V2).
    split; [|congruence]. exists (e1 ++ e2). rewrite E2, E1, app_assoc. reflexivity.
Qed.

(** Whatever statements are built, by [buildStatement] or for the
    public [sendStatement], in whatever order and whether a build returns
    or throws: no variable is written, every cell of the heap there was
    before is as it was (the builders write to cells they have allocated,
    the copy of the template among them), and so a template that was the
    tree [j] is still the tree [j]. *)
Theorem builds_write_fresh_cells_only
    (B : browser) (calls : list build_call) (w : world) :
  vars (build_all B calls w) = vars w /\
  (exists ext, heap (build_all B calls w) = heap w ++ ext) /\
  (forall j, rep (heap w) (vars w contextTemplate) j ->
             rep (heap (build_all B calls w)) (vars (build_all B calls w) contextTemplate) j).
Proof.
  destruct (build_all_frame B calls w) as ((ext & E) & V).
  split; [exact V|]. split; [exists ext; exact E|].
  intros j R. rewrite V, E. eapply rep_grows; [apply grows_app|exact R].
Qed.

End FrameFacts.

(* ===================================================================== *)
(** * The category marker of the statements *)
(* ===================================================================== *)

Module MarkerFacts.
Import JS Browser Cmi5 HeapSpec WrapperSpec WrapperSamples RequestSamples FrameSpec MarkerSpec
  MonadFacts HeapFacts FrameFacts.
Local Open Scope js_scope.
Local Open Scope string_scope.
Local Open Scope list_scope.

(** ** Reading after allocating and writing *)

Lemma valid_le h h' v : (length h <= length h')%nat -> valid h v -> valid h' v.
Proof. destruct v; simpl; auto. lia. Qed.

Lemma read_alloc h o v k : valid h v -> read_prop (h ++ [o]) v k = read_prop h v k.
Proof.
  destruct v; simpl; auto. intros H. rewrite lookup_app_l by exact H. reflexivity.
Qed.

Lemma items_alloc h o v : valid h v -> array_items (h ++ [o]) v = array_items h v.
Proof.
  destruct v; simpl; auto. intros H. rewrite lookup_app_l by exact H. reflexivity.
Qed.

Lemma read_fresh h o k :
  read_prop (h ++ [o]) (VRef (length h)) k = Some (default VUndef (assoc k (props o))).
Proof. simpl. rewrite list_lookup_middle by reflexivity. reflexivity. Qed.

Lemma items_fresh h o : array_items (h ++ [o]) (VRef (length h)) = elems o.
Proof. simpl. rewrite list_lookup_middle by reflexivity. reflexivity. Qed.

Lemma read_write_same h l o e k x :
  h !! l = Some o ->
  read_prop (<[l := Obj e (assoc_set k x (props o))]> h) (VRef l) k = Some x.
Proof.
  intros H. simpl. rewrite list_lookup_insert_eq by (eapply lookup_lt_Some; exact H).
  simpl. rewrite assoc_assoc_set, String.eqb_refl. reflexivity.
Qed.

Lemma read_write_key h l o e k x v k' :
  h !! l = Some o -> String.eqb k' k = false ->
  read_prop (<[l := Obj e (assoc_set k x (props o))]> h) v k' = read_prop h v k'.
Proof.
  intros H E. destruct v as [| | b | q | s | l']; simpl; auto.
  destruct (decide (l = l')) as [<-|Hne].
  - rewrite list_lookup_insert_eq by (eapply lookup_lt_Some; exact H).
    rewrite H. simpl. rewrite assoc_assoc_set, E. reflexivity.
  - rewrite list_lookup_insert_ne by exact Hne. reflexivity.
Qed.

Lemma items_write h l o ps v :
  h !! l = Some o ->
  array_items (<[l := Obj (elems o) ps]> h) v = array_items h v.
Proof.
  intros H. destruct v as [| | b | q | s | l']; simpl; auto.
  destruct (decide (l = l')) as [<-|Hne].
  - rewrite list_lookup_insert_eq by (eapply lookup_lt_Some; exact H).
    rewrite H. reflexivity.
  - rewrite list_lookup_insert_ne by exact Hne. reflexivity.
Qed.

Lemma read_push h l its its' ps v k :
  h !! l = Some (Obj (Some its) ps) ->
  read_prop (<[l := Obj (Some its') ps]> h) v k = read_prop h v k.
Proof.
  intros H. destruct v as [| | b | q | s | l']; simpl; auto.
  destruct (decide (l = l')) as [<-|Hne].
  - rewrite list_lookup_insert_eq by (eapply lookup_lt_Some; exact H).
    rewrite H. reflexivity.
  - rewrite list_lookup_insert_ne by exact Hne. reflexivity.
Qed.

Lemma items_push_same h l its its' ps :
  h !! l = Some (Obj (Some its) ps) ->
  array_items (<[l := Obj (Some its') ps]> h) (VRef l) = Some its'.
Proof.
  intros H. simpl. rewrite list_lookup_insert_eq by (eapply lookup_lt_Some; exact H).
  reflexivity.
Qed.

Lemma has_id_read h h' v id :
  read_prop h' v "id" = read_prop h v "id" -> has_id h' id v = has_id h id v.
Proof. unfold has_id. intros ->. reflexivity. Qed.

(** ** Quiet steps *)

Lemma quiet_valid h h' v : quiet_heap h h' -> valid h v -> valid h' v.
Proof. intros [H _]. apply valid_le, H. Qed.

Lemma quiet_refl h : quiet_heap h h.
Proof. split; [lia|]. intros v _. split; reflexivity. Qed.

Lemma quiet_trans h1 h2 h3 : quiet_heap h1 h2 -> quiet_heap h2 h3 -> quiet_heap h1 h3.
Proof.
  intros [L1 Q1] [L2 Q2]. split; [lia|]. intros v Hv.
  destruct (Q1 v Hv) as [R1 I1].
  destruct (Q2 v (valid_le _ _ _ L1 Hv)) as [R2 I2]. split.
  - intros k Hk. rewrite (R2 k Hk). apply R1, Hk.
  - rewrite I2. exact I1.
Qed.

Lemma quiet_alloc h o : quiet_heap h (h ++ [o]).
Proof.
  split; [rewrite length_app; lia|]. intros v Hv. split.
  - intros k _. apply read_alloc, Hv.
  - apply items_alloc, Hv.
Qed.

Lemma quiet_write h l o k x :
  h !! l = Some o -> ~ In k protected ->
  quiet_heap h (<[l := Obj (elems o) (assoc_set k x (props o))]> h).
Proof.
  intros H Hk. split; [rewrite length_insert; lia|]. intros v _. split.
  - intros k' Hk'. apply read_write_key; [exact H|].
    destruct (String.eqb k' k) eqn:E; [|reflexivity].
    apply String.eqb_eq in E. subst. contradiction.
  - apply items_write, H.
Qed.

Lemma quiet_has_id h h' v id : quiet_heap h h' -> valid h v -> has_id h' id v = has_id h id v.
Proof.
  intros [_ Q] Hv. apply has_id_read. apply (Q v Hv). simpl. tauto.
Qed.

Lemma quiet_filter h h' id l :
  quiet_heap h h' -> Forall (valid h) l ->
  List.filter (has_id h' id) l = List.filter (has_id h id) l.
Proof.
  intros Q. induction 1 as [|v l Hv Hl IH]; simpl; [reflexivity|].
  rewrite (quiet_has_id _ _ _ _ Q Hv), IH. reflexivity.
Qed.

Lemma quiet_chain h h' c ca cat l :
  quiet_heap h h' -> chain h c ca cat l -> chain h' c ca cat l.
Proof.
  intros Q (R1 & R2 & R3 & V1 & V2 & V3 & V4).
  pose proof Q as [L Q'].
  destruct (Q' c V1) as [Rc _]. destruct (Q' ca V2) as [Rca _]. destruct (Q' cat V3) as [_ Icat].
  unfold chain. rewrite Rc, Rca, Icat by (simpl; tauto).
  split; [exact R1|]. split; [exact R2|]. split; [exact R3|].
  split; [apply (valid_le _ _ _ L V1)|]. split; [apply (valid_le _ _ _ L V2)|].
  split; [apply (valid_le _ _ _ L V3)|].
  eapply Forall_impl; [exact V4|]. intros v. apply valid_le, L.
Qed.

Lemma quiet_steady c h h' : quiet_heap h h' -> steady c h h'.
Proof.
  intros Q. pose proof Q as [L Q']. split; [exact L|]. split.
  - intros v id Hv. apply (quiet_has_id _ _ _ _ Q Hv).
  - intros (Vc & Hc). destruct (Q' c Vc) as [Rc _].
    assert (E1 : read_prop h' c "contextActivities" = read_prop h c "contextActivities")
      by (apply Rc; simpl; tauto).
    split.
    + split; [apply (valid_le _ _ _ L Vc)|]. intros ca Hca. rewrite E1 in Hca.
      destruct (Hc ca Hca) as (Vca & Hcat). split; [apply (valid_le _ _ _ L Vca)|].
      intros cat Hcat'. destruct (Q' ca Vca) as [Rca _].
      rewrite Rca in Hcat' by (simpl; tauto).
      destruct (Hcat cat Hcat') as (Vcat & Hl). split; [apply (valid_le _ _ _ L Vcat)|].
      intros l Hl'. destruct (Q' cat Vcat) as [_ Icat]. rewrite Icat in Hl'.
      eapply Forall_impl; [exact (Hl l Hl')|]. intros v. apply valid_le, L.
    + unfold category_items. rewrite E1.
      destruct (read_prop h c "contextActivities") as [ca|] eqn:Hca; [|reflexivity].
      destruct (Hc ca eq_refl) as (Vca & Hcat). destruct (Q' ca Vca) as [Rca _].
      rewrite Rca by (simpl; tauto).
      destruct (read_prop h ca "category") as [cat|] eqn:Hcat'; [|reflexivity].
      destruct (Hcat cat eq_refl) as (Vcat & _). destruct (Q' cat Vcat) as [_ Icat].
      rewrite Icat. reflexivity.
Qed.

Lemma steady_refl c h : steady c h h.
Proof. apply quiet_steady, quiet_refl. Qed.

Lemma steady_trans c h1 h2 h3 : steady c h1 h2 -> steady c h2 h3 -> steady c h1 h3.
Proof.
  intros (L1 & I1 & R1) (L2 & I2 & R2). split; [lia|]. split.
  - intros v id Hv. rewrite (I2 v id (valid_le _ _ _ L1 Hv)). apply I1, Hv.
  - intros H. destruct (R1 H) as (H2 & E2). destruct (R2 H2) as (H3 & E3).
    split; [exact H3|congruence].
Qed.

(** ** Quiet computations *)

Lemma quietly_run {A} (m : M A) w r w' :
  quietly m -> m w = (r, w') -> quiet_heap (heap w) (heap w').
Proof. intros Q E. specialize (Q w). rewrite E in Q. exact Q. Qed.

Lemma quietly_ret {A} (a : A) : quietly (ret a).
Proof. intros w. apply quiet_refl. Qed.

Lemma quietly_bind {A C} (m : M A) (k : A -> M C) :
  quietly m -> (forall a, quietly (k a)) -> quietly (bind m k).
Proof.
  intros Hm Hk w. unfold bind. specialize (Hm w).
  destruct (m w) as [[a|e] w1]; simpl in *; [|exact Hm].
  eapply quiet_trans; [exact Hm|apply Hk].
Qed.

Lemma quietly_when b (m : M unit) : quietly m -> quietly (when b m).
Proof. intros H. destruct b; [exact H|apply quietly_ret]. Qed.

Lemma quietly_new o : quietly (new o).
Proof. intros w. unfold new, alloc. simpl. apply quiet_alloc. Qed.

Lemma quietly_set_prop v k x : ~ In k protected -> quietly (set_prop v k x).
Proof.
  intros Hk w. unfold set_prop, write_prop.
  destruct v as [| | b | q | s | l]; simpl; try apply quiet_refl.
  destruct (heap w !! l) as [o|] eqn:E; simpl; [|apply quiet_refl].
  apply quiet_write; assumption.
Qed.

(** ** What a step that returned has done *)

Lemma new_inv o (w : world) r w' :
  new o w = (r, w') -> r = Ret (VRef (length (heap w))) /\ w' = with_heap (heap w ++ [o]) w.
Proof. unfold new, alloc. intros H. inversion H. auto. Qed.

Lemma prop_ret v k (w : world) x w' :
  prop v k w = (Ret x, w') -> w' = w /\ read_prop (heap w) v k = Some x.
Proof. intros H. apply prop_inv in H as [-> H]. auto. Qed.

Lemma set_prop_inv v k x (w : world) u w' :
  set_prop v k x w = (Ret u, w') ->
  exists l o, v = VRef l /\ heap w !! l = Some o /\
    w' = with_heap (<[l := Obj (elems o) (assoc_set k x (props o))]> (heap w)) w.
Proof.
  unfold set_prop, write_prop. destruct v as [| | b | q | s | l]; try discriminate.
  destruct (heap w !! l) as [o|] eqn:E; [|discriminate].
  intros H. inversion H. eauto.
Qed.

Lemma push_inv v x (w : world) u w' :
  push v x w = (Ret u, w') ->
  exists l its ps, v = VRef l /\ heap w !! l = Some (Obj (Some its) ps) /\
    w' = with_heap (<[l := Obj (Some (its ++ [x])) ps]> (heap w)) w.
Proof.
  unfold push, array_push. destruct v as [| | b | q | s | l]; try discriminate.
  destruct (heap w !! l) as [[[its|] ps]|] eqn:E; simpl; try discriminate.
  intros H. inversion H. exists l, its, ps. auto.
Qed.

Lemma items_inv v (w : world) l w' :
  items v w = (Ret l, w') -> w' = w /\ array_items (heap w) v = Some l.
Proof.
  unfold items. destruct (array_items (heap w) v); [|discriminate].
  intros H. inversion H. auto.
Qed.

Lemma when_inv b (m : M unit) (w : world) u w' :
  when b m w = (Ret u, w') -> (b = true /\ m w = (Ret u, w')) \/ (b = false /\ w' = w).
Proof.
  destruct b; simpl; [auto|]. intros H. inversion H. auto.
Qed.

Lemma some_id_inv id l : forall (w : world) b w',
  some_id id l w = (Ret b, w') -> w' = w /\ b = existsb (has_id (heap w) id) l.
Proof.
  induction l as [|c r IH]; intros w b w' H; simpl in H.
  - inversion H. auto.
  - bret H as i w1 Hp. apply prop_ret in Hp as [-> Hr].
    simpl. unfold has_id at 1. rewrite Hr.
    destruct (strict_eq i (VStr id)); simpl.
    + inversion H. auto.
    + apply IH, H.
Qed.

Lemma has_category_inv c id (w : world) b w' :
  has_category c id w = (Ret b, w') ->
  w' = w /\ exists ca cat l,
    read_prop (heap w) c "contextActivities" = Some ca /\
    read_prop (heap w) ca "category" = Some cat /\
    array_items (heap w) cat = Some l /\
    b = existsb (has_id (heap w) id) l.
Proof.
  unfold has_category. intros H.
  bret H as ca w1 H1. apply prop_ret in H1 as [-> R1].
  bret H as cat w2 H2. apply prop_ret in H2 as [-> R2].
  bret H as l w3 H3. apply items_inv in H3 as [-> R3].
  apply some_id_inv in H as [-> Hb]. split; [reflexivity|].
  exists ca, cat, l. auto.
Qed.

(** ** The heap a template was copied into *)

Lemma rep_valid h v j : rep h v j -> valid h v.
Proof.
  destruct j; simpl; try (intros ->; exact I).
  - intros (l & vs & -> & H & _). simpl. eapply lookup_lt_Some. exact H.
  - intros (l & ps & -> & H & _). simpl. eapply lookup_lt_Some. exact H.
Qed.

Lemma rep_has_id h v j id : rep h v j -> has_id h id v = jhas_id id j.
Proof.
  destruct j as [| b | q | s | items | fields]; simpl; try (intros ->; reflexivity).
  - intros (l & vs & -> & H & _). unfold has_id. simpl. rewrite H. reflexivity.
  - intros (l & ps & -> & H & R). unfold has_id. simpl. rewrite H. simpl.
    pose proof (rep_fields_assoc _ fields ps "id" R) as A.
    destruct (assoc "id" fields) as [[| b | q | s | its | fs]|].
    + destruct A as (v & -> & ->). reflexivity.
    + destruct A as (v & -> & ->). reflexivity.
    + destruct A as (v & -> & ->). reflexivity.
    + destruct A as (v & -> & ->). reflexivity.
    + destruct A as (v & -> & (l' & vs & -> & _)). reflexivity.
    + destruct A as (v & -> & (l' & vs & -> & _)). reflexivity.
    + rewrite A. reflexivity.
Qed.

Lemma rep_items_filter h id : forall js vs,
  rep_items (fun v j => rep h v j) js vs ->
  Forall (valid h) vs /\
  length (List.filter (has_id h id) vs) = length (List.filter (jhas_id id) js).
Proof.
  induction js as [|j js IH]; intros [|v vs]; simpl; try tauto.
  - auto.
  - intros [R Rs]. destruct (IH vs Rs) as [F E]. split.
    + constructor; [eapply rep_valid; exact R|exact F].
    + rewrite (rep_has_id _ _ _ id R). destruct (jhas_id id j); simpl; congruence.
Qed.

Lemma rep_category h cat jcat id :
  rep h cat jcat ->
  valid h cat /\
  (forall l, array_items h cat = Some l -> Forall (valid h) l) /\
  length (List.filter (has_id h id) (default [] (array_items h cat)))
  = length (List.filter (jhas_id id)
              (match jcat with JArr items => items | _ => [] end)).
Proof.
  intros R. split; [eapply rep_valid; exact R|].
  destruct jcat as [| b | q | s | items | fields]; simpl in R;
    try (subst cat; simpl; split; [discriminate|reflexivity]).
  - destruct R as (l & vs & -> & H & R). simpl. rewrite H. simpl.
    destruct (rep_items_filter h id items vs R) as [F E]. split; [|exact E].
    intros l' Hl'. inversion Hl'; subst. exact F.
  - destruct R as (l & ps & -> & H & R). simpl. rewrite H. simpl.
    split; [discriminate|reflexivity].
Qed.

Lemma rep_activities h ca jca id :
  rep h ca jca ->
  valid h ca /\
  (forall cat, read_prop h ca "category" = Some cat ->
     valid h cat /\ forall l, array_items h cat = Some l -> Forall (valid h) l) /\
  length (List.filter (has_id h id)
            (match read_prop h ca "category" with
             | Some cat => default [] (array_items h cat)
             | None => []
             end))
  = length (List.filter (jhas_id id)
              (match jca with
               | JObj fs => match assoc "category" fs with
                            | Some (JArr items) => items
                            | _ => []
                            end
               | _ => []
               end)).
Proof.
  intros R. split; [eapply rep_valid; exact R|].
  assert (U : forall v : val, Some VUndef = Some v ->
            valid h v /\ forall l, array_items h v = Some l -> Forall (valid h) l).
  { intros v Hv. inversion Hv; subst. split; [exact I|]. simpl. discriminate. }
  destruct jca as [| b | q | s | items | fields]; simpl in R;
    try (subst ca; simpl; split; [first [discriminate | exact U]|reflexivity]).
  - destruct R as (l & vs & -> & H & R). simpl. rewrite H. simpl.
    split; [exact U|reflexivity].
  - destruct R as (l & ps & -> & H & R). simpl. rewrite H. simpl.
    pose proof (rep_fields_assoc _ fields ps "category" R) as A.
    destruct (assoc "category" fields) as [jcat|].
    + destruct A as (v & -> & Rv). simpl.
      destruct (rep_category h v jcat id Rv) as (V & F & E). split.
      * intros cat Hc. inversion Hc; subst. auto.
      * rewrite E. destruct jcat; reflexivity.
    + rewrite A. simpl. split; [exact U|reflexivity].
Qed.

(** The context a template was copied to: nothing dangles on the way
    to its category list, and the list holds the marker as often as the
    template does. *)
Lemma rep_reach h c j id :
  rep h c j ->
  reach_valid h c /\
  length (List.filter (has_id h id) (category_items h c))
  = length (List.filter (jhas_id id) (jcategory j)).
Proof.
  intros R. unfold reach_valid, category_items, jcategory.
  assert (Vc : valid h c) by (eapply rep_valid; exact R).
  assert (U : forall ca : val, Some VUndef = Some ca ->
            valid h ca /\
            forall cat, read_prop h ca "category" = Some cat ->
              valid h cat /\ forall l, array_items h cat = Some l -> Forall (valid h) l).
  { intros ca Hca. inversion Hca; subst. split; [exact I|]. simpl. discriminate. }
  destruct j as [| b | q | s | items | fields]; simpl in R;
    try (subst c; simpl; split; [split; [exact I|first [discriminate | exact U]]|reflexivity]).
  - destruct R as (l & vs & -> & H & R). simpl. rewrite H. simpl.
    split; [split; [exact Vc|exact U]|reflexivity].
  - destruct R as (l & ps & -> & H & R). simpl. rewrite H. simpl.
    pose proof (rep_fields_assoc _ fields ps "contextActivities" R) as A.
    destruct (assoc "contextActivities" fields) as [jca|].
    + destruct A as (v & -> & Rv). simpl.
      destruct (rep_activities h v jca id Rv) as (V & F & E). split.
      * split; [exact Vc|]. intros ca Hca. inversion Hca; subst. auto.
      * rewrite E. destruct jca; reflexivity.
    + rewrite A. simpl. split; [split; [exact Vc|exact U]|reflexivity].
Qed.

(** ** The steps of [buildStatement] after the copy *)

Lemma falsy_no_category h v :
  truthy v = false ->
  match read_prop h v "category" with
  | Some cat => default [] (array_items h cat)
  | None => []
  end = [].
Proof. destruct v; simpl; try reflexivity. discriminate. Qed.

Lemma falsy_no_items h v : truthy v = false -> default [] (array_items h v) = [].
Proof. destruct v; simpl; try reflexivity. discriminate. Qed.

(** [if (!context.contextActivities) context.contextActivities = {}] *)
Lemma ensure_contextActivities c ca (w w' : world) u :
  read_prop (heap w) c "contextActivities" = Some ca ->
  when (negb (truthy ca)) (o <- new (plain []) ;; set_prop c "contextActivities" o) w
    = (Ret u, w') ->
  steady c (heap w) (heap w').
Proof.
  intros Rca H. apply when_inv in H as [[Hb H]|[_ ->]]; [|apply steady_refl].
  apply negb_true_iff in Hb.
  bret H as o w1 Hn. apply new_inv in Hn as [Ho ->]. inversion Ho; subst o; clear Ho.
  apply set_prop_inv in H as (lc & oc & -> & Hl & ->). cbn [heap with_heap] in *.
  set (h := heap w) in *. set (o := VRef (length h)).
  assert (Hlen : length (<[lc := Obj (elems oc) (assoc_set "contextActivities" o (props oc))]>
                          (h ++ [plain []])) = S (length h)).
  { rewrite length_insert, length_app. simpl. lia. }
  split; [rewrite Hlen; lia|]. split.
  - intros v id Hv. apply has_id_read.
    rewrite (read_write_key _ _ _ _ _ _ _ _ Hl) by reflexivity.
    apply read_alloc, Hv.
  - intros (Vc & _). simpl in Vc.
    assert (Ro : read_prop (<[lc := Obj (elems oc) (assoc_set "contextActivities" o (props oc))]>
                              (h ++ [plain []])) o "category" = Some VUndef).
    { rewrite (read_write_key _ _ _ _ _ _ _ _ Hl) by reflexivity.
      unfold o. rewrite read_fresh. reflexivity. }
    split.
    + split; [simpl; rewrite Hlen; lia|]. intros ca' Hca'.
      rewrite (read_write_same _ _ _ _ _ _ Hl) in Hca'. inversion Hca'; subst ca'.
      split; [simpl; rewrite Hlen; lia|]. intros cat Hcat. rewrite Ro in Hcat.
      inversion Hcat; subst. split; [exact I|]. simpl. discriminate.
    + unfold category_items. rewrite (read_write_same _ _ _ _ _ _ Hl), Ro, Rca.
      simpl. symmetry. apply falsy_no_category, Hb.
Qed.

(** [if (!context.contextActivities.category)
      context.contextActivities.category = []] *)
Lemma ensure_category c ca cat (w w' : world) u :
  read_prop (heap w) c "contextActivities" = Some ca ->
  read_prop (heap w) ca "category" = Some cat ->
  when (negb (truthy cat))
    (o <- new (array []) ;;
     ca' <- prop c "contextActivities" ;;
     set_prop ca' "category" o) w = (Ret u, w') ->
  steady c (heap w) (heap w').
Proof.
  intros Rca Rcat H. apply when_inv in H as [[Hb H]|[_ ->]]; [|apply steady_refl].
  apply negb_true_iff in Hb.
  bret H as o w1 Hn. apply new_inv in Hn as [Ho ->]. inversion Ho; subst o; clear Ho.
  bret H as ca' w2 Hp. apply prop_ret in Hp as [-> Rca'].
  apply set_prop_inv in H as (la & oa & -> & Hl & ->). cbn [heap with_heap] in *.
  set (h := heap w) in *. set (o := VRef (length h)).
  assert (Hlen : length (<[la := Obj (elems oa) (assoc_set "category" o (props oa))]>
                          (h ++ [array []])) = S (length h)).
  { rewrite length_insert, length_app. simpl. lia. }
  split; [rewrite Hlen; lia|]. split.
  - intros v id Hv. apply has_id_read.
    rewrite (read_write_key _ _ _ _ _ _ _ _ Hl) by reflexivity.
    apply read_alloc, Hv.
  - intros (Vc & Hc).
    rewrite (read_alloc _ _ _ _ Vc), Rca in Rca'. inversion Rca'; subst ca; clear Rca'.
    destruct (Hc _ Rca) as (Va & _).
    assert (Rc : read_prop (<[la := Obj (elems oa) (assoc_set "category" o (props oa))]>
                              (h ++ [array []])) c "contextActivities" = Some (VRef la)).
    { rewrite (read_write_key _ _ _ _ _ _ _ _ Hl) by reflexivity.
      rewrite (read_alloc _ _ _ _ Vc). exact Rca. }
    assert (Io : array_items (<[la := Obj (elems oa) (assoc_set "category" o (props oa))]>
                                (h ++ [array []])) o = Some []).
    { rewrite (items_write _ _ _ _ _ Hl). unfold o. rewrite items_fresh. reflexivity. }
    split.
    + split; [apply (valid_le h); [rewrite Hlen; lia|exact Vc]|].
      intros ca' Hca'. rewrite Rc in Hca'. inversion Hca'; subst ca'.
      split; [apply (valid_le h); [rewrite Hlen; lia|exact Va]|].
      intros cat' Hcat'. rewrite (read_write_same _ _ _ _ _ _ Hl) in Hcat'.
      inversion Hcat'; subst cat'. split; [simpl; rewrite Hlen; lia|].
      intros l Hl'. rewrite Io in Hl'. inversion Hl'; subst. constructor.
    + unfold category_items. rewrite Rc, (read_write_same _ _ _ _ _ _ Hl), Io, Rca, Rcat.
      simpl. symmetry. apply falsy_no_items, Hb.
Qed.

(** [context.contextActivities.category.push({ id, objectType })] *)
Lemma push_category_chain c ca cat l id (w w' : world) u :
  chain (heap w) c ca cat l ->
  push_category c id w = (Ret u, w') ->
  exists marker,
    chain (heap w') c ca cat (l ++ [marker]) /\
    (forall id', has_id (heap w') id' marker = String.eqb id id') /\
    (forall v id', valid (heap w) v -> has_id (heap w') id' v = has_id (heap w) id' v).
Proof.
  intros (R1 & R2 & R3 & V1 & V2 & V3 & V4) H. unfold push_category in H.
  bret H as ca' w1 H1. apply prop_ret in H1 as [-> R1']. rewrite R1 in R1'.
  inversion R1'; subst ca'; clear R1'.
  bret H as cat' w2 H2. apply prop_ret in H2 as [-> R2']. rewrite R2 in R2'.
  inversion R2'; subst cat'; clear R2'.
  bret H as marker w3 Hn. apply new_inv in Hn as [Hm ->]. inversion Hm; subst marker; clear Hm.
  apply push_inv in H as (lc & its & ps & -> & Hl & ->). cbn [heap with_heap] in *.
  set (h := heap w) in *.
  set (o := plain [("id", VStr id); ("objectType", VStr "Activity")]) in *.
  assert (Hits : its = l).
  { simpl in R3. rewrite lookup_app_l in Hl by exact V3. rewrite Hl in R3. simpl in R3.
    inversion R3. reflexivity. }
  subst its.
  assert (Hlen : length (<[lc := Obj (Some (l ++ [VRef (length h)])) ps]> (h ++ [o]))
                 = S (length h)).
  { rewrite length_insert, length_app. simpl. lia. }
  assert (Hread : forall v k, valid h v ->
            read_prop (<[lc := Obj (Some (l ++ [VRef (length h)])) ps]> (h ++ [o])) v k
            = read_prop h v k).
  { intros v k Hv. rewrite (read_push _ _ _ _ _ _ _ Hl). apply read_alloc, Hv. }
  exists (VRef (length h)). split; [|split].
  - unfold chain. rewrite (Hread _ _ V1), (Hread _ _ V2), (items_push_same _ _ _ _ _ Hl).
    split; [exact R1|]. split; [exact R2|]. split; [reflexivity|].
    split; [apply (valid_le h); [rewrite Hlen; lia|exact V1]|].
    split; [apply (valid_le h); [rewrite Hlen; lia|exact V2]|].
    split; [apply (valid_le h); [rewrite Hlen; lia|exact V3]|].
    apply Forall_app. split.
    + eapply Forall_impl; [exact V4|]. intros v. apply valid_le. rewrite Hlen. lia.
    + constructor; [|constructor]. simpl. rewrite Hlen. lia.
  - intros id'. unfold has_id. rewrite (read_push _ _ _ _ _ _ _ Hl), read_fresh. reflexivity.
  - intros v id' Hv. apply has_id_read, Hread, Hv.
Qed.

Lemma existsb_filter {A} (f : A -> bool) l :
  existsb f l = negb (Nat.eqb (length (List.filter f l)) 0).
Proof.
  induction l as [|x l IH]; simpl; [reflexivity|].
  destruct (f x); simpl; [reflexivity|exact IH].
Qed.

Lemma filter_steady h h' id l :
  (forall v id', valid h v -> has_id h' id' v = has_id h id' v) ->
  Forall (valid h) l ->
  List.filter (has_id h' id) l = List.filter (has_id h id) l.
Proof.
  intros Hs. induction 1 as [|v l Hv Hl IH]; simpl; [reflexivity|].
  rewrite (Hs v id Hv), IH. reflexivity.
Qed.

(** The marker is pushed when the list does not hold it: afterwards it
    holds it once, or as often as before. *)
Lemma marker_block c ca cat l (w w' : world) u :
  chain (heap w) c ca cat l ->
  when (negb (existsb (has_id (heap w) CATEGORY_CMI5) l)) (push_category c CATEGORY_CMI5) w
    = (Ret u, w') ->
  exists l', chain (heap w') c ca cat l' /\
    length (List.filter (has_id (heap w') CATEGORY_CMI5) l')
    = Nat.max 1 (length (List.filter (has_id (heap w) CATEGORY_CMI5) l)).
Proof.
  intros C H. rewrite existsb_filter, negb_involutive in H.
  apply when_inv in H as [[Hb H]|[Hb ->]].
  - apply Nat.eqb_eq in Hb.
    destruct (push_category_chain _ _ _ _ _ _ _ _ C H) as (m & C' & Hm & Hs).
    exists (l ++ [m]). split; [exact C'|].
    rewrite List.filter_app, length_app. simpl. rewrite Hm, String.eqb_refl. simpl.
    rewrite (filter_steady _ _ _ _ Hs) by apply C. rewrite Hb. reflexivity.
  - apply Nat.eqb_neq in Hb. exists l. split; [exact C|]. lia.
Qed.

(** The moveon category of [passed] and [failed] is another entry. *)
Lemma moveon_block c ca cat l b (w w' : world) u :
  chain (heap w) c ca cat l ->
  when b (hasMoveOnCategory <- has_category c CATEGORY_MOVEON ;;
          when (negb hasMoveOnCategory) (push_category c CATEGORY_MOVEON)) w
    = (Ret u, w') ->
  exists l', chain (heap w') c ca cat l' /\
    length (List.filter (has_id (heap w') CATEGORY_CMI5) l')
    = length (List.filter (has_id (heap w) CATEGORY_CMI5) l).
Proof.
  intros C H. apply when_inv in H as [[_ H]|[_ ->]]; [|exists l; auto].
  bret H as has w1 Hh. apply has_category_inv in Hh as [-> _].
  apply when_inv in H as [[_ H]|[_ ->]]; [|exists l; auto].
  destruct (push_category_chain _ _ _ _ _ _ _ _ C H) as (m & C' & Hm & Hs).
  exists (l ++ [m]). split; [exact C'|].
  rewrite List.filter_app, length_app. simpl. rewrite Hm.
  change (String.eqb CATEGORY_MOVEON CATEGORY_CMI5) with false. simpl.
  rewrite (filter_steady _ _ _ _ Hs) by apply C. lia.
Qed.

Lemma reach_valid_items h c : reach_valid h c -> Forall (valid h) (category_items h c).
Proof.
  intros (_ & Hc). unfold category_items.
  destruct (read_prop h c "contextActivities") as [ca|]; [|constructor].
  destruct (Hc ca eq_refl) as (_ & Hcat).
  destruct (read_prop h ca "category") as [cat|]; [|constructor].
  destruct (Hcat cat eq_refl) as (_ & Hl).
  destruct (array_items h cat) as [l|]; [|constructor]. simpl. apply Hl. reflexivity.
Qed.

Lemma fr_run {A} h0 V0 (m : M A) post (w : world) r w' :
  framed h0 V0 w -> m w = (r, w') -> fr h0 V0 m post -> framed h0 V0 w'.
Proof. intros F E H. destruct (H w F) as [F' _]. rewrite E in F'. exact F'. Qed.

Ltac not_protected :=
  unfold EXT_SESSIONID; simpl;
  let H := fresh in intros H; repeat (destruct H as [H|H]; [discriminate H|]); contradiction.

Ltac quietly_auto :=
  repeat first
    [ apply quietly_when
    | apply quietly_bind; [|intros ?]
    | apply quietly_new
    | apply quietly_ret
    | apply quietly_set_prop; not_protected ].

(** The cmi5 category marker of a built statement. With the context
    template the tree [j] (the empty object when there is none), the
    category list of the statement [buildStatement] returns holds the
    marker as often as the template does, and once when the template
    does not hold it: the builder adds the marker only when it is
    missing, and never a second one. *)
Theorem buildStatement_markers B verb result objectOverride (w : world) j st w' :
  template_is w j ->
  buildStatement B verb result objectOverride w = (Ret st, w') ->
  markers (heap w') st = Some (Nat.max 1 (template_markers j)).
Proof.
  intros T E. unfold buildStatement in E.
  pose proof (framed_start w) as F.
  bret E as id w1 H.
  assert (F1 : framed (heap w) (vars w) w1) by (eapply (fr_run _ _ _ _ _ _ _ F H); fr_go).
  clear F H.
  bret E as a w2 H. apply get_inv in H as [_ ->].
  bret E as object w3 H.
  assert (F3 : framed (heap w) (vars w) w3) by (eapply (fr_run _ _ _ _ _ _ _ F1 H); fr_go).
  clear F1 H.
  bret E as ts w4 H.
  assert (F4 : framed (heap w) (vars w) w4) by (eapply (fr_run _ _ _ _ _ _ _ F3 H); fr_go).
  clear F3 H.
  bret E as statement w5 H.
  assert (F : framed (heap w) (vars w) w5) by (eapply (fr_run _ _ _ _ _ _ _ F4 H); fr_go).
  clear F4 H.
  bret E as empty w6 H. apply new_inv in H as [He ->]. inversion He; subst empty; clear He.
  bret E as template w7 H. apply get_inv in H as [Ht ->]. inversion Ht; subst template; clear Ht.
  cbn [vars with_heap] in E.
  destruct F as ((ext & Fh) & _ & Fv).
  (* the context *)
  bret E as c w8 Hc.
  assert (R : rep (heap w8) c j).
  { unfold template_is in T. rewrite Fv in Hc.
    destruct (truthy (vars w contextTemplate)).
    - destruct T as [R D].
      bret Hc as s w9 Hs. unfold JSON_stringify, stringify in Hs.
      cbn [heap with_heap] in Hs.
      rewrite (rep_stringify _ j) in Hs.
      + inversion Hs; subst s w9; clear Hs.
        unfold parse in Hc. cbn [heap with_heap] in Hc.
        destruct (build_spec j (heap w5 ++ [plain []])) as (e1 & _ & _ & Rb).
        destruct (build j (heap w5 ++ [plain []])) as [v h1]. inversion Hc; subst.
        exact Rb.
      + eapply rep_grows; [|exact R]. rewrite Fh, <- app_assoc. apply grows_app.
      + rewrite Fh, !length_app. lia.
    - subst j. inversion Hc; subst. cbn [heap with_heap]. simpl.
      exists (length (heap w5)), []. split; [reflexivity|]. split; [|exact I].
      apply list_lookup_middle. reflexivity. }
  clear Hc T Fh Fv.
  destruct (rep_reach _ _ _ CATEGORY_CMI5 R) as (RV & Hcount).
  fold (template_markers j) in Hcount. rewrite <- Hcount. clear R Hcount.
  (* registration, extensions *)
  bret E as reg w9 H. apply get_inv in H as [_ ->].
  bret E as u1 w10 H.
  eapply quietly_run in H; [|quietly_auto]. apply (quiet_steady c) in H. rename H into S.
  bret E as ext1 w11 H. apply prop_ret in H as [-> _].
  bret E as u2 w12 H.
  eapply quietly_run in H; [|quietly_auto]. apply (quiet_steady c) in H.
  pose proof (steady_trans _ _ _ _ S H) as S'. clear S H. rename S' into S.
  bret E as ext2 w13 H. apply prop_ret in H as [-> _].
  bret E as sid w14 H. apply get_inv in H as [_ ->].
  bret E as u3 w15 H.
  eapply quietly_run in H; [|quietly_auto]. apply (quiet_steady c) in H.
  pose proof (steady_trans _ _ _ _ S H) as S'. clear S H. rename S' into S.
  (* contextActivities, category *)
  bret E as ca1 w16 H. apply prop_ret in H as [-> Rca1].
  bret E as u4 w17 H. apply (ensure_contextActivities _ _ _ _ _ Rca1) in H.
  pose proof (steady_trans _ _ _ _ S H) as S'. clear S H Rca1. rename S' into S.
  bret E as ca2 w18 H. apply prop_ret in H as [-> Rca2].
  bret E as cat2 w19 H. apply prop_ret in H as [-> Rcat2].
  bret E as u5 w20 H. apply (ensure_category _ _ _ _ _ _ Rca2 Rcat2) in H.
  pose proof (steady_trans _ _ _ _ S H) as S'. clear S H Rca2 Rcat2. rename S' into S.
  destruct S as (_ & Sid & Sreach). destruct (Sreach RV) as (RV' & Sitems).
  (* the marker *)
  bret E as has w21 H. apply has_category_inv in H as (-> & ca & cat & l & R1 & R2 & R3 & ->).
  assert (Hl : l = category_items (heap w8) c).
  { rewrite <- Sitems. unfold category_items. rewrite R1, R2, R3. reflexivity. }
  assert (C : chain (heap w20) c ca cat l).
  { destruct RV' as (V1 & Hc). destruct (Hc ca R1) as (V2 & Hcat).
    destruct (Hcat cat R2) as (V3 & Hitems). unfold chain. auto 10. }
  assert (Hn : length (List.filter (has_id (heap w20) CATEGORY_CMI5) l)
               = length (List.filter (has_id (heap w8) CATEGORY_CMI5)
                           (category_items (heap w8) c))).
  { rewrite <- Hl. f_equal. apply filter_steady; [exact Sid|].
    rewrite Hl. apply reach_valid_items, RV. }
  rewrite <- Hn. clear Hn Hl Sid Sreach Sitems RV RV' R1 R2 R3.
  bret E as u6 w22 H. destruct (marker_block _ _ _ _ _ _ _ C H) as (l1 & C1 & N1).
  rewrite <- N1. clear N1 C H.
  bret E as verbId w23 H. apply prop_ret in H as [-> _].
  bret E as u7 w24 H. destruct (moveon_block _ _ _ _ _ _ _ _ C1 H) as (l2 & C2 & N2).
  rewrite <- N2. clear N2 C1 H.
  (* the statement *)
  bret E as u8 w25 H. apply set_prop_inv in H as (ls & os & -> & Hls & ->).
  bret E as u9 w26 H. unfold ret in E. inversion E; subst st w'; clear E.
  assert (Q1 : quiet_heap (heap w24)
                 (<[ls := Obj (elems os) (assoc_set "context" c (props os))]> (heap w24))).
  { apply quiet_write; [exact Hls|not_protected]. }
  assert (Rs1 : read_prop (<[ls := Obj (elems os) (assoc_set "context" c (props os))]> (heap w24))
                  (VRef ls) "context" = Some c) by (apply read_write_same, Hls).
  assert (Q2 : quiet_heap (<[ls := Obj (elems os) (assoc_set "context" c (props os))]> (heap w24))
                 (heap w26) /\
               read_prop (heap w26) (VRef ls) "context" = Some c).
  { apply when_inv in H as [[_ H]|[_ ->]]; [|split; [apply quiet_refl|exact Rs1]].
    apply set_prop_inv in H as (ls' & os' & Els & Hls' & ->). cbn [heap with_heap] in *.
    split; [apply quiet_write; [exact Hls'|not_protected]|].
    rewrite (read_write_key _ _ _ _ _ _ _ _ Hls') by reflexivity. exact Rs1. }
  destruct Q2 as (Q2 & Rs2).
  pose proof (quiet_trans _ _ _ Q1 Q2) as Q.
  destruct (quiet_chain _ _ _ _ _ _ Q C2) as (R1 & R2 & R3 & _).
  unfold markers, category_of. rewrite Rs2, R1, R2, R3.
  rewrite (quiet_filter _ _ _ _ Q) by apply C2. reflexivity.
Qed.

Lemma buildStatement_markers_witness :
  exists st w',
    buildStatement lms (fst completed_verb) VNull VNull (snd completed_verb) = (Ret st, w') /\
    markers (heap w') st = Some (Nat.max 1 (template_markers template)).
Proof.
  eexists _, _. split.
  - vm_compute. reflexivity.
  - apply (buildStatement_markers lms (fst completed_verb) VNull VNull (snd completed_verb)
             template).
    + vm_compute. split; [|lia]. repeat (first [eexists | split | reflexivity]).
    + vm_compute. reflexivity.
Defined.

End MarkerFacts.
(* ===================================================================== *)
(** * Allowed statements *)
(* ===================================================================== *)

Module AllowedFacts.
Import JS Browser Cmi5 HeapSpec WrapperSpec WrapperSamples RequestSamples FrameSpec MarkerSpec
  AllowedSpec MonadFacts HeapFacts FrameFacts MarkerFacts.
Local Open Scope js_scope.
Local Open Scope string_scope.
Local Open Scope list_scope.

Section Writes.
Context (ks : list string).

Lemma writes_same {A} (m : M A) : keeps heap m -> writes_under ks m.
Proof. intros K w. rewrite (K w). auto. Qed.

Lemma writes_ret {A} (a : A) : writes_under ks (ret a).
Proof. apply writes_same. intros w. reflexivity. Qed.

Lemma writes_bind {A C} (m : M A) (k : A -> M C) :
  writes_under ks m -> (forall a, writes_under ks (k a)) -> writes_under ks (bind m k).
Proof.
  intros Hm Hk w. unfold bind. destruct (Hm w) as [L R].
  destruct (m w) as [[a|e] w1]; cbn [snd] in *; [|auto].
  destruct (Hk a w1) as [L' R']. split; [congruence|].
  intros v key Hn. rewrite (R' v key Hn). apply R, Hn.
Qed.

Lemma writes_when b (m : M unit) : writes_under ks m -> writes_under ks (when b m).
Proof. intros H. destruct b; [exact H|apply writes_ret]. Qed.

Lemma writes_prop v k : writes_under ks (prop v k).
Proof. apply writes_same. keeps_prim. Qed.

Lemma writes_opt_prop v k : writes_under ks (opt_prop v k).
Proof. apply writes_same. keeps_prim. Qed.

Lemma writes_set_prop v k x : In k ks -> writes_under ks (set_prop v k x).
Proof.
  intros Hk w. unfold set_prop, write_prop.
  destruct v as [| | b | q | s | l]; try (split; reflexivity).
  destruct (heap w !! l) as [o|] eqn:E; [|split; reflexivity].
  cbn [snd heap with_heap]. split; [apply length_insert|].
  intros v' k' Hn. apply (read_write_key _ _ _ _ _ _ _ _ E).
  apply String.eqb_neq. intros ->. exact (Hn Hk).
Qed.

End Writes.

Ltac writes_auto :=
  repeat first
    [ apply writes_when
    | apply writes_bind; [|intros ?]
    | apply writes_ret
    | apply writes_prop
    | apply writes_opt_prop
    | apply writes_set_prop; cbn [In]; tauto ].

Ltac other_key := unfold EXT_SESSIONID; cbn [In]; intuition discriminate.

Lemma writes_run {A} ks (m : M A) (w : world) r w' :
  writes_under ks m -> m w = (r, w') ->
  length (heap w') = length (heap w) /\
  forall v k, ~ In k ks -> read_prop (heap w') v k = read_prop (heap w) v k.
Proof. intros H E. specialize (H w). rewrite E in H. exact H. Qed.

(** The statement built for the public [sendStatement] (an "allowed"
    statement). It carries the actor and the verb given; its context
    holds the registration and, under the cmi5 session extension, the
    session id; and it has no category list, with or without a context
    template: the cmi5 category that marks a "defined" statement is
    never on it. *)
Theorem allowed_statement_context B verb result object (w : world) st w' :
  Public.allowed_statement B verb result object w = (Ret st, w') ->
  exists context extensions,
    read_prop (heap w') st "actor" = Some (vars w actor) /\
    read_prop (heap w') st "verb" = Some verb /\
    read_prop (heap w') st "context" = Some context /\
    read_prop (heap w') context "registration" = Some (vars w registration) /\
    read_prop (heap w') context "extensions" = Some extensions /\
    read_prop (heap w') extensions EXT_SESSIONID = Some (vars w sessionId) /\
    category_of (heap w') st = None.
Proof.
  intros E. unfold Public.allowed_statement in E.
  bret E as id w1 H. unfold generateUUID in H. inversion H; subst id w1; clear H.
  bret E as a w2 H. apply get_inv in H as [Ha ->]. inversion Ha; subst a; clear Ha.
  cbn [vars with_uuids] in E.
  bret E as o w3 H.
  assert (V3 : vars w3 = vars w).
  { destruct (truthy object).
    - inversion H; subst. reflexivity.
    - bret H as act w4 H'. apply get_inv in H' as [_ ->].
      apply new_inv in H as [_ ->]. reflexivity. }
  clear H.
  bret E as ts w4 H.
  assert (V4 : vars w4 = vars w /\ heap w4 = heap w3).
  { unfold timestamp in H. bret H as t w5 H'. unfold Date_now in H'.
    inversion H'; subst. inversion H; subst. auto. }
  destruct V4 as [V4 H4]. clear H V3.
  bret E as reg w5 H. apply get_inv in H as [Hr ->]. inversion Hr; subst reg; clear Hr.
  bret E as sid w6 H. apply get_inv in H as [Hs ->]. inversion Hs; subst sid; clear Hs.
  rewrite V4 in E.
  bret E as extensions w7 H. apply new_inv in H as [Hx ->]. inversion Hx; subst extensions; clear Hx.
  bret E as context w8 H. apply new_inv in H as [Hx ->]. inversion Hx; subst context; clear Hx.
  bret E as statement w9 H. apply new_inv in H as [Hx ->]. inversion Hx; subst statement; clear Hx.
  cbn [heap with_heap] in E.
  set (h := heap w4) in *.
  set (oe := plain [(EXT_SESSIONID, vars w sessionId)]) in *.
  set (oc := plain [("registration", vars w registration);
                    ("extensions", VRef (length h))]) in *.
  set (os := plain [("id", VStr (randomUUID B (uuids w))); ("actor", vars w actor);
                    ("verb", verb); ("object", o); ("timestamp", ts);
                    ("context", VRef (length (h ++ [oe])))]) in *.
  set (le := length h) in *.
  set (lc := length (h ++ [oe])) in *.
  set (ls := length ((h ++ [oe]) ++ [oc])) in *.
  set (h0 := ((h ++ [oe]) ++ [oc]) ++ [os]) in *.
  assert (Vc : valid ((h ++ [oe]) ++ [oc]) (VRef lc))
    by (unfold lc; cbn [valid]; rewrite !length_app; cbn [length]; lia).
  assert (Ve : valid (h ++ [oe]) (VRef le))
    by (unfold le; cbn [valid]; rewrite !length_app; cbn [length]; lia).
  assert (Ve' : valid ((h ++ [oe]) ++ [oc]) (VRef le))
    by (unfold le; cbn [valid]; rewrite !length_app; cbn [length]; lia).
  assert (Fa : read_prop h0 (VRef ls) "actor" = Some (vars w actor))
    by (unfold h0, ls; rewrite read_fresh; reflexivity).
  assert (Fv : read_prop h0 (VRef ls) "verb" = Some verb)
    by (unfold h0, ls; rewrite read_fresh; reflexivity).
  assert (Fc : read_prop h0 (VRef ls) "context" = Some (VRef lc))
    by (unfold h0, ls; rewrite read_fresh; reflexivity).
  assert (Fr : read_prop h0 (VRef lc) "registration" = Some (vars w registration))
    by (unfold h0; rewrite (read_alloc _ _ _ _ Vc); unfold lc; rewrite read_fresh;
        reflexivity).
  assert (Fx : read_prop h0 (VRef lc) "extensions" = Some (VRef le))
    by (unfold h0; rewrite (read_alloc _ _ _ _ Vc); unfold lc; rewrite read_fresh;
        reflexivity).
  assert (Fs : read_prop h0 (VRef le) EXT_SESSIONID = Some (vars w sessionId))
    by (unfold h0; rewrite (read_alloc _ _ _ _ Ve'), (read_alloc _ _ _ _ Ve); unfold le;
        rewrite read_fresh; reflexivity).
  assert (Fn : read_prop h0 (VRef lc) "contextActivities" = Some VUndef)
    by (unfold h0; rewrite (read_alloc _ _ _ _ Vc); unfold lc; rewrite read_fresh;
        reflexivity).
  assert (Vl : valid h0 (VRef lc) /\ valid h0 (VRef ls) /\ valid h0 (VRef le))
    by (unfold h0, lc, ls, le; cbn [valid]; rewrite !length_app; cbn [length]; lia).
  match type of E with
  | bind _ _ ?W = _ => set (W0 := W) in *; assert (H0 : heap W0 = h0) by reflexivity;
                       clearbody W0
  end.
  clearbody h0 ls lc le. clear Vc Ve Ve' oe oc os.
  (* the result *)
  bret E as u1 w10 H.
  apply (writes_run ["result"]) in H; [|writes_auto].
  destruct H as [L10 R10]. rewrite H0 in L10, R10.
  assert (K1 : forall v k, ~ In k ["result"] -> read_prop (heap w10) v k = read_prop h0 v k)
    by exact R10.
  clear R10.
  rewrite <- (K1 _ "actor") in Fa by other_key.
  rewrite <- (K1 _ "verb") in Fv by other_key.
  rewrite <- (K1 _ "context") in Fc by other_key.
  rewrite <- (K1 _ "registration") in Fr by other_key.
  rewrite <- (K1 _ "extensions") in Fx by other_key.
  rewrite <- (K1 _ EXT_SESSIONID) in Fs by other_key.
  rewrite <- (K1 _ "contextActivities") in Fn by other_key.
  assert (Vl10 : valid (heap w10) (VRef lc) /\ valid (heap w10) (VRef ls) /\
                 valid (heap w10) (VRef le)) by (cbn [valid] in *; lia).
  destruct Vl10 as (Vl10 & Vs & Ve).
  clear K1 L10 H0 Vl W0.
  (* the template *)
  bret E as template w11 H. apply get_inv in H as [_ ->].
  bret E as u2 w12 H. unfold ret in E. inversion E; subst st w'; clear E.
  apply when_inv in H as [[_ H]|[_ ->]].
  2:{ exists (VRef lc), (VRef le). unfold category_of. rewrite Fc, Fn. auto 10. }
  bret H as context w13 Hp. apply prop_ret in Hp as [-> Hp].
  rewrite Fc in Hp. inversion Hp; subst context; clear Hp.
  bret H as ca w13 Hp. apply prop_ret in Hp as [-> Hp].
  rewrite Fn in Hp. inversion Hp; subst ca; clear Hp.
  cbn [truthy] in H.
  bret H as ca' w13 Hp. apply new_inv in Hp as [Hx ->]. inversion Hx; subst ca'; clear Hx.
  bret H as u3 w14 Hp. apply set_prop_inv in Hp as (l & oc & El & Hl & ->).
  inversion El; subst l; clear El. cbn [heap with_heap] in Hl.
  apply (writes_run ["parent"; "grouping"]) in H; [|writes_auto].
  destruct H as [_ R]. cbn [heap with_heap] in R.
  set (la := length (heap w10)) in *.
  set (h1 := <[lc := Obj (elems oc) (assoc_set "contextActivities" (VRef la) (props oc))]>
               (heap w10 ++ [plain []])) in *.
  assert (K2 : forall v k, valid (heap w10) v -> String.eqb k "contextActivities" = false ->
            ~ In k ["parent"; "grouping"] ->
            read_prop (heap w12) v k = read_prop (heap w10) v k).
  { intros v k Hv Hk Hn. rewrite (R v k Hn). unfold h1.
    rewrite (read_write_key _ _ _ _ _ _ _ _ Hl Hk). apply read_alloc, Hv. }
  exists (VRef lc), (VRef le).
  rewrite <- (K2 _ "actor" Vs) in Fa by (reflexivity || other_key).
  rewrite <- (K2 _ "verb" Vs) in Fv by (reflexivity || other_key).
  rewrite <- (K2 _ "context" Vs) in Fc by (reflexivity || other_key).
  rewrite <- (K2 _ "registration" Vl10) in Fr by (reflexivity || other_key).
  rewrite <- (K2 _ "extensions" Vl10) in Fx by (reflexivity || other_key).
  rewrite <- (K2 _ EXT_SESSIONID Ve) in Fs by (reflexivity || other_key).
  split; [exact Fa|]. split; [exact Fv|]. split; [exact Fc|]. split; [exact Fr|].
  split; [exact Fx|]. split; [exact Fs|].
  unfold category_of. rewrite Fc.
  assert (Fn' : read_prop (heap w12) (VRef lc) "contextActivities" = Some (VRef la)).
  { rewrite R by other_key. unfold h1. apply read_write_same, Hl. }
  rewrite Fn'.
  assert (Fg : read_prop (heap w12) (VRef la) "category" = Some VUndef).
  { rewrite R by other_key. unfold h1.
    rewrite (read_write_key _ _ _ _ _ _ _ _ Hl) by reflexivity.
    unfold la. rewrite read_fresh. reflexivity. }
  rewrite Fg. reflexivity.
Qed.

Lemma allowed_statement_context_witness :
  exists st w',
    Public.allowed_statement lms (fst completed_verb) VNull VNull (snd completed_verb)
      = (Ret st, w') /\
    exists context extensions,
      read_prop (heap w') st "actor" = Some (vars (snd completed_verb) actor) /\
      read_prop (heap w') st "verb" = Some (fst completed_verb) /\
      read_prop (heap w') st "context" = Some context /\
      read_prop (heap w') context "registration"
        = Some (vars (snd completed_verb) registration) /\
      read_prop (heap w') context "extensions" = Some extensions /\
      read_prop (heap w') extensions EXT_SESSIONID
        = Some (vars (snd completed_verb) sessionId) /\
      category_of (heap w') st = None.
Proof.
  eexists _, _. split.
  - vm_compute. reflexivity.
  - apply (allowed_statement_context lms (fst completed_verb) VNull VNull
             (snd completed_verb)).
    vm_compute. reflexivity.
Defined.

End AllowedFacts.

(* ===================================================================== *)
(** * Requests to the record store: retries *)
(* ===================================================================== *)

Module RequestFacts.
Import JS Browser Cmi5 HeapSpec WrapperSpec WrapperSamples RequestSpec RequestSamples
  MonadFacts HeapFacts WrapperFacts.
Local Open Scope js_scope.
Local Open Scope string_scope.
Local Open Scope list_scope.

Lemma world_eta (w : world) :
  w = {| heap := heap w; sessionStorage := sessionStorage w; network := network w;
         requests := requests w; now := now w; uuids := uuids w;
         statementLog := statementLog w; vars := vars w |}.
Proof. destruct w; reflexivity. Qed.

(** The body is serialised without a trace in the world. *)
Lemma payload_run (w : world) body :
  serialisable (heap w) body ->
  (if truthy body then s <- JSON_stringify body ;; ret (ser_body s) else ret None)%js w
  = (Ret (payload_of (heap w) body), w).
Proof.
  intros S. unfold payload_of. destruct (truthy body) eqn:T; [|reflexivity].
  specialize (S T). unfold bind, JSON_stringify.
  destruct (stringify (heap w) body); [contradiction| |]; reflexivity.
Qed.

(** One attempt: the request goes out, the next answer is read. *)
Lemma attempt_run n path method body (w : world) r net :
  configured w -> serialisable (heap w) body -> network w = r :: net ->
  lrsRequest_from n path method body w =
  (outcome <-
     try_catch
       (match r with
        | NetworkError => throw (TypeError "Failed to fetch")
        | Response status statusText text parsed =>
            if negb (ok status) then
              if ((status =? 404)%Z) && String.eqb method "GET" then ret (Some VNull)
              else if (0 <? n)%nat && ((500 <=? status)%Z || (status =? 0)%Z)
              then ret None
              else throw (Error (failure_message status statusText text))
            else if String.eqb text "" then ret (Some VNull)
            else match parsed with
                 | Some j => v <- parse j ;; ret (Some v)
                 | None => ret (Some (VStr text))
                 end
        end)
       (fun error =>
          if (0 <? n)%nat && String.eqb (e_name error) "TypeError"
          then ret None
          else throw error) ;;
   match outcome, n with
   | Some v, _ => ret v
   | None, S n' =>
       sleep (RETRY_DELAY_MS * (Z.of_nat (MAX_RETRIES - n) + 1))%Z ;;
       lrsRequest_from n' path method body
   | None, O => ret VNull
   end)%js
    (with_network net (request_of w path method body :: requests w) w).
Proof.
  intros (es & He & Hes & Ha) Hs Hn.
  assert (Hrq : request_of w path method body =
                {| rq_sync := false; rq_method := method;
                   rq_base := VStr (if endsWith es "/" then es else es ++ "/");
                   rq_resource := path; rq_authorization := Some (vars w authToken);
                   rq_body := payload_of (heap w) body |}).
  { unfold request_of. rewrite He. reflexivity. }
  rewrite Hrq. clear Hrq.
  destruct n as [|n']; cbn [lrsRequest_from];
    unfold bind at 1; unfold get at 1; unfold bind at 1; unfold get at 1;
    rewrite He, (truthy_VStr es Hes), Ha; cbn [negb orb];
    unfold bind at 1; rewrite (payload_run w body Hs);
    unfold bind at 1; unfold try_catch at 1; unfold bind at 1; unfold transmit at 1;
    rewrite Hn; reflexivity.
Qed.

(** A transient answer with tries left: the wrapper sleeps and starts
    over with one try less. *)
Lemma attempt_transient n path method body (w : world) r net :
  configured w -> serialisable (heap w) body -> network w = r :: net ->
  transient method r = true ->
  lrsRequest_from (S n) path method body w =
  lrsRequest_from n path method body
    (after_retries 1 (MAX_RETRIES - S n) (request_of w path method body) net w).
Proof.
  intros C Hs Hn T. rewrite (attempt_run _ _ _ _ _ _ _ C Hs Hn).
  unfold after_retries. cbn [backoff repeat app].
  replace (RETRY_DELAY_MS * (Z.of_nat (MAX_RETRIES - S n) + 1) + 0)%Z
    with (RETRY_DELAY_MS * (Z.of_nat (MAX_RETRIES - S n) + 1))%Z by lia.
  destruct r as [|status statusText text parsed]; simpl in T.
  - reflexivity.
  - apply andb_prop in T as [T T3]. apply andb_prop in T as [T1 T2].
    unfold bind at 1. unfold try_catch at 1.
    rewrite T1. apply negb_true_iff in T2. rewrite T2, T3. reflexivity.
Qed.

Lemma after_none first rq (w : world) : after_retries 0 first rq (network w) w = w.
Proof.
  unfold after_retries. cbn [backoff repeat app]. rewrite Z.add_0_r.
  destruct w; reflexivity.
Qed.

Lemma after_more k first rq net net' (w : world) :
  after_retries k (S first) rq net (after_retries 1 first rq net' w)
  = after_retries (S k) first rq net w.
Proof.
  unfold after_retries. cbn [backoff repeat app now requests with_now with_network].
  rewrite Z.add_0_r.
  replace (repeat rq k ++ rq :: requests w) with (rq :: repeat rq k ++ requests w).
  - rewrite <- Z.add_assoc. reflexivity.
  - change (rq :: repeat rq k ++ requests w) with ((rq :: repeat rq k) ++ requests w).
    rewrite (repeat_cons k rq), <- app_assoc. reflexivity.
Qed.

(** [k] transient answers in a row use up [k] tries: the wrapper has
    sent the same request [k] times, has slept in between, and goes on
    as a call with the tries that are left. *)
Lemma retries_skip path method body k : forall n (w : world) ts net,
  configured w -> serialisable (heap w) body ->
  network w = ts ++ net -> length ts = k ->
  Forall (fun r => transient method r = true) ts ->
  (k + n <= MAX_RETRIES)%nat ->
  lrsRequest_from (k + n) path method body w =
  lrsRequest_from n path method body
    (after_retries k (MAX_RETRIES - (k + n)) (request_of w path method body) net w).
Proof.
  induction k as [|k IH]; intros n w ts net C Hs Hn Hl F Hle.
  - destruct ts; [|discriminate]. simpl in Hn. rewrite <- Hn, after_none. reflexivity.
  - destruct ts as [|r ts]; [discriminate|]. simpl in Hn, Hl.
    apply Nat.succ_inj in Hl. subst k.
    inversion F as [|? ? Hr Hts]; subst.
    cbn [Nat.add].
    rewrite (attempt_transient _ _ _ _ _ _ _ C Hs Hn Hr).
    set (w1 := after_retries 1 (MAX_RETRIES - S (length ts + n))
                 (request_of w path method body) (ts ++ net) w).
    assert (C1 : configured w1) by exact C.
    assert (Hs1 : serialisable (heap w1) body) by exact Hs.
    rewrite (IH n w1 ts net C1 Hs1 eq_refl eq_refl Hts) by lia.
    replace (request_of w1 path method body) with (request_of w path method body)
      by reflexivity.
    replace (MAX_RETRIES - (length ts + n))%nat
      with (S (MAX_RETRIES - S (length ts + n))) by lia.
    unfold w1. rewrite after_more. reflexivity.
Qed.

(** The answer the wrapper stops at: one that is not transient, or any
    answer when no try is left. *)
Lemma attempt_final n path method body (w : world) r net :
  configured w -> serialisable (heap w) body -> network w = r :: net ->
  transient method r = false \/ n = O ->
  lrsRequest_from n path method body w =
  conclude method r (with_network net (request_of w path method body :: requests w) w).
Proof.
  intros C Hs Hn T. rewrite (attempt_run _ _ _ _ _ _ _ C Hs Hn).
  set (w1 := with_network net (request_of w path method body :: requests w) w).
  assert (Hc : (if (0 <? n)%nat then transient method r else false) = false).
  { destruct T as [T| ->]; [rewrite T; destruct (0 <? n)%nat; reflexivity|reflexivity]. }
  clear T. destruct r as [|status statusText text parsed]; simpl in Hc.
  - unfold bind at 1. unfold try_catch at 1. unfold throw at 1. cbn [e_name TypeError].
    destruct (0 <? n)%nat; [discriminate|]. reflexivity.
  - unfold conclude, bind at 1, try_catch at 1.
    destruct (negb (ok status)) eqn:Ok.
    + destruct ((status =? 404)%Z && String.eqb method "GET") eqn:E404; [reflexivity|].
      simpl in Hc.
      destruct ((0 <? n)%nat && ((500 <=? status)%Z || (status =? 0)%Z)) eqn:Er.
      * apply andb_prop in Er as [E1 E2]. rewrite E1, E2 in Hc. discriminate.
      * unfold throw at 1. cbn [e_name Error]. rewrite andb_false_r. reflexivity.
    + destruct (String.eqb text ""); [reflexivity|].
      destruct parsed as [j|]; [|reflexivity].
      unfold bind at 1. destruct (parse j w1) as [[v|e] w2] eqn:Ep; [reflexivity|].
      unfold parse in Ep. destruct (build j (heap w1)). discriminate.
Qed.

(** The retry schedule of [lrsRequest]. After at most [MAX_RETRIES]
    transient answers in a row the wrapper stops at the next answer: if
    that one is not transient, or the tries are used up. It has then
    sent the same request once more than it was answered transiently,
    has slept [RETRY_DELAY_MS * i] before the [i]-th retry, and returns
    or throws what the last answer says. *)
Theorem lrsRequest_retries_then_settles path method body (w : world) ts r net :
  configured w -> serialisable (heap w) body ->
  network w = ts ++ r :: net ->
  Forall (fun a => transient method a = true) ts ->
  (length ts <= MAX_RETRIES)%nat ->
  transient method r = false \/ length ts = MAX_RETRIES ->
  lrsRequest path method body w =
  conclude method r (after_tries (length ts) (request_of w path method body) net w) /\
  requests (after_tries (length ts) (request_of w path method body) net w)
    = repeat (request_of w path method body) (S (length ts)) ++ requests w /\
  now (after_tries (length ts) (request_of w path method body) net w)
    = (now w + RETRY_DELAY_MS * Z.of_nat (length ts * (length ts + 1) / 2))%Z.
Proof.
  intros C Hs Hn F Hle T. split; [|split].
  - unfold lrsRequest.
    replace MAX_RETRIES with (length ts + (MAX_RETRIES - length ts))%nat at 1 by lia.
    rewrite (retries_skip path method body (length ts) _ w ts (r :: net) C Hs Hn eq_refl F)
      by lia.
    replace (MAX_RETRIES - (length ts + (MAX_RETRIES - length ts)))%nat with O by lia.
    set (w1 := after_retries (length ts) 0 (request_of w path method body) (r :: net) w).
    rewrite (attempt_final _ path method body w1 r net); [reflexivity|exact C|exact Hs|reflexivity|].
    destruct T as [T|T]; [left; exact T|right; lia].
  - unfold after_tries, after_retries. cbn [requests with_network with_now]. reflexivity.
  - unfold after_tries, after_retries. cbn [now with_network with_now]. f_equal.
    assert (G : forall k first,
              backoff first k
              = (RETRY_DELAY_MS * (Z.of_nat (k * first) + Z.of_nat (k * (k + 1) / 2)))%Z).
    { induction k as [|k IH]; intros first; cbn [backoff]; [reflexivity|].
      rewrite IH.
      replace (S k * (S k + 1) / 2)%nat with (k * (k + 1) / 2 + (k + 1))%nat.
      - lia.
      - replace (S k * (S k + 1))%nat with (k * (k + 1) + (k + 1) * 2)%nat by lia.
        rewrite Nat.div_add by lia. reflexivity. }
    rewrite G. rewrite Nat.mul_0_r. simpl Z.of_nat at 1. lia.
Qed.

Lemma lrsRequest_retries_then_settles_witness :
  lrsRequest (Statements VUndef) "POST" (vars recovering actor) recovering =
  conclude "POST" no_content
    (after_tries 2 (request_of recovering (Statements VUndef) "POST" (vars recovering actor))
       [] recovering) /\
  requests (after_tries 2
              (request_of recovering (Statements VUndef) "POST" (vars recovering actor))
              [] recovering)
    = repeat (request_of recovering (Statements VUndef) "POST" (vars recovering actor)) 3
      ++ requests recovering /\
  now (after_tries 2
         (request_of recovering (Statements VUndef) "POST" (vars recovering actor))
         [] recovering)
    = (now recovering + RETRY_DELAY_MS * 3)%Z.
Proof.
  apply (lrsRequest_retries_then_settles (Statements VUndef) "POST"
           (vars recovering actor) recovering [unavailable; NetworkError] no_content []).
  - exists "https://lrs.example/xapi". vm_compute. repeat split; discriminate.
  - intros _. vm_compute. discriminate.
  - reflexivity.
  - repeat constructor.
  - vm_compute. lia.
  - left. reflexivity.
Defined.

Section Sends.
Context (P : request -> Prop).

Lemma sends_keeps {A} (m : M A) : keeps requests m -> sends P 0 m.
Proof. intros K w. exists []. rewrite (K w). repeat split; [simpl; lia|constructor]. Qed.

Lemma sends_weaken {A} a b (m : M A) : (a <= b)%nat -> sends P a m -> sends P b m.
Proof.
  intros L Hs w. destruct (Hs w) as (l & E & Hl & F). exists l.
  repeat split; [exact E|lia|exact F].
Qed.

Lemma sends_ret {A} (a : A) : sends P 0 (ret a).
Proof. apply sends_keeps, keeps_ret. Qed.

Lemma sends_throw {A} (e : exn) : sends P 0 (@throw _ A e).
Proof. apply sends_keeps, keeps_throw. Qed.

Lemma sends_bind {A C} a b n (m : M A) (k : A -> M C) :
  sends P a m -> (forall x, sends P b (k x)) -> (a + b <= n)%nat -> sends P n (bind m k).
Proof.
  intros Sm Sk L w. unfold bind. destruct (Sm w) as (l & E & Hl & F).
  destruct (m w) as [[x|e] w1]; cbn [snd] in *.
  - destruct (Sk x w1) as (l' & E' & Hl' & F'). exists (l' ++ l).
    rewrite E', E, app_assoc, length_app. repeat split; [lia|].
    apply Forall_app; split; assumption.
  - exists l. repeat split; [exact E|lia|exact F].
Qed.

Lemma sends_try_catch {A} a b n (m : M A) (h : exn -> M A) :
  sends P a m -> (forall e, sends P b (h e)) -> (a + b <= n)%nat -> sends P n (try_catch m h).
Proof.
  intros Sm Sh L w. unfold try_catch. destruct (Sm w) as (l & E & Hl & F).
  destruct (m w) as [[x|e] w1]; cbn [snd] in *.
  - exists l. repeat split; [exact E|lia|exact F].
  - destruct (Sh e w1) as (l' & E' & Hl' & F'). exists (l' ++ l).
    rewrite E', E, app_assoc, length_app. repeat split; [lia|].
    apply Forall_app; split; assumption.
Qed.

Lemma sends_transmit rq : P rq -> sends P 1 (transmit rq).
Proof.
  intros H w. exists [rq]. unfold transmit.
  destruct (network w); cbn [snd requests with_network]; repeat split;
    try (simpl; lia); repeat constructor; exact H.
Qed.

End Sends.

(** A step that sends nothing. *)
Ltac silent := apply sends_keeps; keeps_auto.

Lemma sends_lrsRequest_from path method body n :
  sends (fetch_of path method) (S n) (lrsRequest_from n path method body).
Proof.
  induction n as [|n IH].
  - cbn [lrsRequest_from].
    apply (sends_bind _ 0 1); [silent| |lia]. intros e.
    apply (sends_bind _ 0 1); [silent| |lia]. intros a.
    destruct (negb (truthy e) || negb (truthy a));
      [apply (sends_weaken _ 0); [lia|apply sends_throw]|].
    destruct e; try (apply (sends_weaken _ 0); [lia|apply sends_throw]).
    apply (sends_bind _ 0 1); [silent| |lia]. intros payload.
    apply (sends_bind _ 1 0); [| |lia].
    + apply (sends_try_catch _ 1 0); [| |lia].
      * apply (sends_bind _ 1 0); [apply sends_transmit; repeat split| |lia].
        intros r. silent.
      * intros err. silent.
    + intros [v|]; apply sends_ret.
  - cbn [lrsRequest_from].
    apply (sends_bind _ 0 (S (S n))); [silent| |lia]. intros e.
    apply (sends_bind _ 0 (S (S n))); [silent| |lia]. intros a.
    destruct (negb (truthy e) || negb (truthy a));
      [apply (sends_weaken _ 0); [lia|apply sends_throw]|].
    destruct e; try (apply (sends_weaken _ 0); [lia|apply sends_throw]).
    apply (sends_bind _ 0 (S (S n))); [silent| |lia]. intros payload.
    apply (sends_bind _ 1 (S n)); [| |lia].
    + apply (sends_try_catch _ 1 0); [| |lia].
      * apply (sends_bind _ 1 0); [apply sends_transmit; repeat split| |lia].
        intros r. silent.
      * intros err. silent.
    + intros [v|].
      * apply (sends_weaken _ 0); [lia|apply sends_ret].
      * apply (sends_bind _ 0 (S n)); [silent| |lia]. intros _. exact IH.
Qed.

(** Whatever the network answers, one call of [lrsRequest] issues at
    most [MAX_RETRIES + 1] requests, and each of them is an asynchronous
    request of the method and the resource of the call. *)
Theorem lrsRequest_sends_at_most_four path method body :
  sends (fetch_of path method) (S MAX_RETRIES) (lrsRequest path method body).
Proof. apply sends_lrsRequest_from. Qed.

(** What is known to leave the requests alone. *)
Lemma keeps_requests_of_quiet {A} (m : M A) : keeps quiet m -> keeps requests m.
Proof. apply keeps_weaken. intros w w' H. unfold quiet in H. congruence. Qed.

Ltac silent_known :=
  first [ apply keeps_requests_of_quiet;
          first [ apply keeps_buildStatement | apply keeps_verb_literal
                | apply keeps_calculateDuration | apply keeps_add_score
                | apply keeps_verbName_of ]
        | solve [keeps_auto] ].

Ltac hush := apply sends_keeps; keeps_auto; try silent_known.

(** One step of a sequence of which at most one part sends. *)
Ltac sends_step :=
  match goal with
  | |- sends _ _ (ret _) => apply (sends_weaken _ 0); [lia|apply sends_ret]
  | |- sends _ _ (throw _) => apply (sends_weaken _ 0); [lia|apply sends_throw]
  | |- sends _ ?n (bind _ _) =>
      first [ apply (sends_bind _ 0 n); [solve [hush]|intros ?|lia]
            | apply (sends_bind _ n 0); [|intros ?; solve [hush]|lia] ]
  | |- sends _ ?n (try_catch _ _) =>
      apply (sends_try_catch _ n 0); [|intros ?; solve [hush]|lia]
  | |- sends _ _ (when ?b _) => unfold when at 1; destruct b
  | |- sends _ _ (if ?b then _ else _) => destruct b
  | |- sends _ _ (match ?x with _ => _ end) => destruct x
  end.

Lemma sends_lrsRequestSync path method body :
  sends (fun rq => rq_sync rq = true /\ rq_method rq = method /\ rq_resource rq = path) 1
    (lrsRequestSync path method body).
Proof.
  unfold lrsRequestSync. repeat sends_step.
  apply sends_transmit. repeat split.
Qed.

Lemma sends_sendStatementSync st : sends sync_put 1 (sendStatementSync st).
Proof.
  unfold sendStatementSync. repeat sends_step.
  match goal with
  | |- sends _ _ (lrsRequestSync (Statements ?i) _ _) =>
      intros w; destruct (sends_lrsRequestSync (Statements i) "PUT" st w) as (l & E & Hl & F)
  end.
  exists l. repeat split; [exact E|exact Hl|].
  eapply Forall_impl; [exact F|]. intros rq (H1 & H2 & H3). repeat split; eauto.
Qed.

Lemma sends_sendTerminatedSync B : sends sync_put 1 (sendTerminatedSync B).
Proof.
  unfold sendTerminatedSync. repeat sends_step. apply sends_sendStatementSync.
Qed.

(** A run of the unload handler ([beforeunload] or [pagehide]) issues
    at most one request, and that is a synchronous [PUT] of a
    statement: the handler never starts an asynchronous request, which
    the browser would drop with the page, and it does not retry. *)
Theorem unload_sends_one_synchronous_put B : sends sync_put 1 (beforeunload B).
Proof.
  unfold beforeunload, Public.terminateSync, Public.isInitialized, Public.isTerminated,
    Public.isConnected.
  repeat sends_step; apply sends_sendTerminatedSync.
Qed.

(** ** Without a connection *)

Lemma keeps_traffic_of_quiet {A} (m : M A) : keeps quiet m -> keeps traffic m.
Proof. apply keeps_weaken. intros w w' H. unfold quiet in H. unfold traffic. congruence. Qed.

Lemma traffic_vars (w w' : world) : traffic w' = traffic w -> vars w' = vars w.
Proof. unfold traffic. congruence. Qed.

Ltac calm_known :=
  first [ apply keeps_traffic_of_quiet;
          first [ apply keeps_buildStatement | apply keeps_verb_literal
                | apply keeps_calculateDuration | apply keeps_add_score
                | apply keeps_verbName_of ]
        | solve [keeps_auto] ].

Ltac calm := keeps_auto; try calm_known.

Section Offline.
Context (P : (var -> val) -> Prop).

Lemma fails_throw {A} (e : exn) : fails P (@throw _ A e).
Proof. intros w _. split; [reflexivity|]. exists e. reflexivity. Qed.

Lemma fails_bind_keeps {A C} (m : M A) (k : A -> M C) :
  keeps traffic m -> (forall a, fails P (k a)) -> fails P (bind m k).
Proof.
  intros K F w Hw. unfold bind. specialize (K w).
  destruct (m w) as [[a|e] w1]; cbn [snd fst] in *.
  - assert (Hw1 : P (vars w1)) by (rewrite (traffic_vars _ _ K); exact Hw).
    destruct (F a w1 Hw1) as [T E]. split; [congruence|exact E].
  - split; [exact K|]. exists e. reflexivity.
Qed.

Lemma fails_bind {A C} (m : M A) (k : A -> M C) : fails P m -> fails P (bind m k).
Proof.
  intros F w Hw. unfold bind. destruct (F w Hw) as [T [e E]].
  destruct (m w) as [[a|e'] w1]; cbn [snd fst] in *; [discriminate|].
  split; [exact T|]. exists e'. reflexivity.
Qed.

Lemma fails_rethrown {A} (m : M A) (h : exn -> M A) :
  fails P m -> (forall e, fails P (h e)) -> fails P (try_catch m h).
Proof.
  intros F H w Hw. unfold try_catch. destruct (F w Hw) as [T [e E]].
  destruct (m w) as [[a|e'] w1]; cbn [snd fst] in *; [discriminate|].
  assert (Hw1 : P (vars w1)) by (rewrite (traffic_vars _ _ T); exact Hw).
  destruct (H e' w1 Hw1) as [T' E']. split; [congruence|exact E'].
Qed.

Lemma inert_fails (m : M val) : fails P m -> inert P m.
Proof.
  intros F w Hw. destruct (F w Hw) as [T [e E]]. split; [exact T|].
  rewrite E. reflexivity.
Qed.

Lemma inert_null : inert P (ret VNull).
Proof. intros w _. split; reflexivity. Qed.

Lemma inert_bind_keeps {A} (m : M A) (k : A -> M val) :
  keeps traffic m -> (forall a, inert P (k a)) -> inert P (bind m k).
Proof.
  intros K F w Hw. unfold bind. specialize (K w).
  destruct (m w) as [[a|e] w1]; cbn [snd fst] in *.
  - assert (Hw1 : P (vars w1)) by (rewrite (traffic_vars _ _ K); exact Hw).
    destruct (F a w1 Hw1) as [T E]. split; [congruence|exact E].
  - split; [exact K|reflexivity].
Qed.

(** [id <- m ;; if (id) { ... } ;; return id] *)
Lemma inert_then (m : M val) (k : M unit) :
  inert P m -> inert P (id <- m ;; when (truthy id) k ;; ret id).
Proof.
  intros F w Hw. destruct (F w Hw) as [T E]. unfold bind, when, ret.
  destruct (m w) as [[id|e] w1]; cbn [snd fst sent] in *.
  - rewrite E. cbn [snd fst sent]. split; [exact T|exact E].
  - split; [exact T|reflexivity].
Qed.

End Offline.

Lemma fails_lrsRequest_from n path method body :
  fails offline (lrsRequest_from n path method body).
Proof.
  intros w Hw. unfold offline in Hw.
  assert (E : lrsRequest_from n path method body w =
              (Throw (Error "LRS not configured (missing endpoint or authToken)"), w)).
  { destruct n; cbn [lrsRequest_from]; unfold bind at 1; unfold get at 1;
      unfold bind at 1; unfold get at 1;
      rewrite <- negb_andb, Hw; reflexivity. }
  rewrite E. split; [reflexivity|]. eexists. reflexivity.
Qed.

Lemma fails_weaken {A} (P Q : (var -> val) -> Prop) (m : M A) :
  (forall vs, Q vs -> P vs) -> fails P m -> fails Q m.
Proof. intros H F w Hw. exact (F w (H _ Hw)). Qed.

Lemma inert_weaken (P Q : (var -> val) -> Prop) (m : M val) :
  (forall vs, Q vs -> P vs) -> inert P m -> inert Q m.
Proof. intros H F w Hw. exact (F w (H _ Hw)). Qed.

(** The part of [sendStatement] after the guard. *)
Lemma fails_delivery st verbName ts :
  fails offline
    (log_push {| lg_timestamp := ts; lg_verb := verbName; lg_success := VNull;
                 lg_error := VNull; lg_sync := false |} ;;
     try_catch
       (id <- prop st "id" ;;
        lrsRequest (Statements id) "PUT" st ;;
        log_update_last mark_success ;;
        prop st "id")
       (fun error =>
          log_update_last (mark_error (e_message error)) ;;
          throw error))%js.
Proof.
  apply fails_bind_keeps; [calm|]. intros _.
  apply fails_rethrown.
  - apply fails_bind_keeps; [calm|]. intros id.
    apply fails_bind. apply fails_lrsRequest_from.
  - intros e. apply fails_bind_keeps; [calm|]. intros _. apply fails_throw.
Qed.

Lemma inert_sendStatement st : inert offline (sendStatement st).
Proof.
  unfold sendStatement.
  apply inert_bind_keeps; [calm|]. intros t.
  apply inert_bind_keeps; [calm|]. intros [|]; [apply inert_null|].
  apply inert_bind_keeps; [calm|]. intros verbName.
  apply inert_bind_keeps; [calm|]. intros ts.
  apply inert_fails, fails_delivery.
Qed.

Lemma fails_sendStatement_open st : fails offline_open (sendStatement st).
Proof.
  assert (F : fails offline
                (verbName <- verbName_of st ;;
                 ts <- prop st "timestamp" ;;
                 log_push {| lg_timestamp := ts; lg_verb := verbName; lg_success := VNull;
                             lg_error := VNull; lg_sync := false |} ;;
                 try_catch
                   (id <- prop st "id" ;;
                    lrsRequest (Statements id) "PUT" st ;;
                    log_update_last mark_success ;;
                    prop st "id")
                   (fun error =>
                      log_update_last (mark_error (e_message error)) ;;
                      throw error))%js).
  { apply fails_bind_keeps; [calm|]. intros verbName.
    apply fails_bind_keeps; [calm|]. intros ts. apply fails_delivery. }
  intros w [Hw Ht].
  match type of F with
  | fails _ ?t => assert (E : sendStatement st w = t w)
  end.
  { unfold sendStatement, bind at 1, get at 1. rewrite Ht.
    unfold bind at 1, ret at 1. reflexivity. }
  rewrite E. exact (F w Hw).
Qed.

Lemma inert_sendCompleted B : inert offline (sendCompleted B).
Proof.
  unfold sendCompleted.
  apply inert_bind_keeps; [calm|]. intros c.
  destruct (truthy c); [apply inert_null|].
  apply inert_bind_keeps; [calm|]. intros verb.
  apply inert_bind_keeps; [calm|]. intros d.
  apply inert_bind_keeps; [calm|]. intros result.
  apply inert_bind_keeps; [calm|]. intros statement.
  apply inert_then, inert_sendStatement.
Qed.

Lemma inert_sendPassed B score : inert offline (sendPassed B score).
Proof.
  unfold sendPassed.
  apply inert_bind_keeps; [calm|]. intros c.
  destruct (truthy c); [apply inert_null|].
  apply inert_bind_keeps; [calm|]. intros verb.
  apply inert_bind_keeps; [calm|]. intros d.
  apply inert_bind_keeps; [calm|]. intros result.
  apply inert_bind_keeps; [calm|]. intros _.
  apply inert_bind_keeps; [calm|]. intros statement.
  apply inert_then, inert_sendStatement.
Qed.

Lemma inert_sendFailed B score : inert offline (sendFailed B score).
Proof.
  unfold sendFailed.
  apply inert_bind_keeps; [calm|]. intros c.
  destruct (truthy c); [apply inert_null|].
  apply inert_bind_keeps; [calm|]. intros verb.
  apply inert_bind_keeps; [calm|]. intros d.
  apply inert_bind_keeps; [calm|]. intros result.
  apply inert_bind_keeps; [calm|]. intros _.
  apply inert_bind_keeps; [calm|]. intros statement.
  apply inert_then, inert_sendStatement.
Qed.

Lemma inert_sendTerminated B : inert offline (sendTerminated B).
Proof.
  assert (F : fails offline_open
                (verb <- verb_literal VERB_TERMINATED "terminated" ;;
                 d <- calculateDuration ;;
                 result <- new (plain [("duration", VStr d)]) ;;
                 statement <- buildStatement B verb result VNull ;;
                 try_catch
                   (id <- sendStatement statement ;;
                    Browser.set terminated (VBool true) ;;
                    clearSessionData ;;
                    ret id)
                   (fun error => throw error))%js).
  { apply fails_bind_keeps; [calm|]. intros verb.
    apply fails_bind_keeps; [calm|]. intros d.
    apply fails_bind_keeps; [calm|]. intros result.
    apply fails_bind_keeps; [calm|]. intros statement.
    apply fails_rethrown; [|intros e; apply fails_throw].
    apply fails_bind, fails_sendStatement_open. }
  intros w Hw.
  destruct (truthy (vars w terminated)) eqn:Ht.
  - assert (E : sendTerminated B w = (Ret VNull, w)).
    { unfold sendTerminated, bind at 1, get at 1. rewrite Ht. reflexivity. }
    rewrite E. split; reflexivity.
  - match type of F with
    | fails _ ?t => assert (E : sendTerminated B w = t w)
    end.
    { unfold sendTerminated, bind at 1, get at 1. rewrite Ht. reflexivity. }
    rewrite E. exact (inert_fails _ _ F w (conj Hw Ht)).
Qed.

(** Without a connection (the endpoint or the credential is missing) no
    call of [complete], [pass], [fail] or [terminate] reports a statement
    as sent, none issues a request, and none touches the variables (the
    flags [completionSent], [successSent] and [terminated] among them)
    or the session store. *)
Theorem defined_calls_inert_when_not_connected B (c : defined_call) (w : world) :
  connected w = false ->
  traffic (snd (send_defined B c w)) = traffic w /\
  sent (fst (send_defined B c w)) = false.
Proof.
  intros Hw.
  assert (G : forall m : M val, inert offline m ->
                inert offline (i <- get initialized ;;
                               if negb (truthy i) then ret VNull else m)%js).
  { intros m F. apply inert_bind_keeps; [calm|]. intros i.
    destruct (negb (truthy i)); [apply inert_null|exact F]. }
  destruct c; cbn [send_defined].
  - apply (G _ (inert_sendCompleted B)), Hw.
  - apply (G _ (inert_sendPassed B score)), Hw.
  - apply (G _ (inert_sendFailed B score)), Hw.
  - apply (G _ (inert_sendTerminated B)), Hw.
Qed.

Lemma defined_calls_inert_when_not_connected_witness :
  connected standalone_page = false /\
  traffic (snd (send_defined standalone (Passed (Some (9 # 10))) standalone_page))
    = traffic standalone_page /\
  sent (fst (send_defined standalone (Passed (Some (9 # 10))) standalone_page)) = false.
Proof.
  assert (H : connected standalone_page = false) by (vm_compute; reflexivity).
  split; [exact H|].
  exact (defined_calls_inert_when_not_connected standalone (Passed (Some (9 # 10)))
           standalone_page H).
Defined.

End RequestFacts.
(* ===================================================================== *)
(** * Launches that do not reach the record store *)
(* ===================================================================== *)

Module LaunchFacts.
Import JS Browser Cmi5 HeapSpec WrapperSpec WrapperSamples RequestSpec RequestSamples
  LaunchSpec MonadFacts HeapFacts WrapperFacts SessionFacts RequestFacts.
Local Open Scope js_scope.
Local Open Scope string_scope.
Local Open Scope list_scope.

(** The [actor] block of [parseLaunchParameters]. *)
Lemma actor_parameter B (w : world) :
  exists w',
    (match param B "actor" with
     | VStr s =>
         when (truthy (VStr s))
           (match JSON_parse B s with
            | Some j => a <- parse j ;; Browser.set actor a
            | None => ret tt
            end)
     | _ => ret tt
     end)%js w = (Ret tt, w') /\
    (forall x, x <> actor -> vars w' x = vars w x) /\
    (truthy (param B "actor") = false -> vars w' actor = vars w actor) /\
    sessionStorage w' = sessionStorage w /\ requests w' = requests w /\
    network w' = network w.
Proof.
  destruct (param B "actor") as [| | | |s|]; try (exists w; repeat split; reflexivity).
  unfold when. destruct (truthy (VStr s)) eqn:T; [|exists w; repeat split; reflexivity].
  destruct (JSON_parse B s) as [j|]; [|exists w; repeat split; reflexivity].
  unfold bind, parse, Browser.set. destruct (build j (heap w)) as [v h].
  eexists. split; [reflexivity|]. cbn [vars with_vars with_heap sessionStorage requests network].
  repeat split; try discriminate.
  intros x Hx. destruct (decide (actor = x)); [congruence|reflexivity].
Qed.

Lemma parseLaunchParameters_incomplete B (w : world) :
  missing_parameter B -> truthy (vars w actor) = false ->
  exists w', parseLaunchParameters B w = (Ret false, w') /\
    vars w' authToken = vars w authToken /\
    vars w' initialized = vars w initialized /\
    vars w' fetchUrl = param B "fetch" /\
    sessionStorage w' = sessionStorage w /\ requests w' = requests w /\
    network w' = network w.
Proof.
  intros (k & Hk & Hf) Ha. unfold parseLaunchParameters.
  unfold bind at 1. unfold Browser.set at 1. set (W1 := with_vars _ w).
  unfold bind at 1. unfold Browser.set at 1. set (W2 := with_vars _ W1).
  unfold bind at 1. unfold Browser.set at 1. set (W3 := with_vars _ W2).
  unfold bind at 1. unfold Browser.set at 1. set (W4 := with_vars _ W3).
  destruct (actor_parameter B W4) as (w5 & E5 & Hv & Hact & Hs & Hq & Hn).
  unfold bind at 1. rewrite E5.
  unfold bind, get, ret.
  exists w5.
  rewrite (Hv endpoint), (Hv fetchUrl), (Hv registration), (Hv activityId),
    (Hv authToken), (Hv initialized) by discriminate.
  split; [|repeat split; assumption || reflexivity].
  f_equal. f_equal.
  change (vars W4 endpoint) with (param B "endpoint").
  change (vars W4 fetchUrl) with (param B "fetch").
  change (vars W4 registration) with (param B "registration").
  change (vars W4 activityId) with (param B "activityId").
  unfold launch_parameters in Hk. cbn [In] in Hk.
  destruct Hk as [<-|[<-|[<-|[<-|[<-|[]]]]]].
  all: try (rewrite (Hact Hf); change (vars W4 actor) with (vars w actor); rewrite Ha).
  all: rewrite ?Hf, ?andb_false_r; cbn [andb]; rewrite ?andb_false_r; reflexivity.
Qed.

Lemma choose_sessionId_total B (w : world) :
  exists w', Public.choose_sessionId B w = (Ret tt, w') /\
    (forall x, x <> sessionId -> vars w' x = vars w x) /\
    sessionStorage w' = sessionStorage w /\ requests w' = requests w /\
    network w' = network w.
Proof.
  assert (Hne : forall (x : var) (v : val) (f : var -> val),
             x <> sessionId -> (if decide (sessionId = x) then v else f x) = f x).
  { intros x v f Hx. destruct (decide (sessionId = x)); [congruence|reflexivity]. }
  unfold Public.choose_sessionId. unfold bind at 1. unfold get at 1.
  destruct (truthy (vars w fetchUrl));
    [destruct (session_of_url B (vars w fetchUrl)) as [s|]; [destruct (truthy s) eqn:Ts|]|];
    unfold bind, Browser.set, generateUUID, ret; rewrite ?Ts;
    (eexists; split; [reflexivity|]);
    cbn [vars with_vars with_uuids sessionStorage requests network];
    (split; [intros x Hx; rewrite ?Hne by exact Hx; reflexivity|]);
    repeat split; reflexivity.
Qed.

(** A page opened without a complete set of launch parameters, and with
    nothing in the session store, runs standalone: [initialize] returns
    true and the wrapper counts as initialised, but no request has been
    issued and the wrapper is not connected. *)
Theorem standalone_launch (B : browser) (w : world) :
  missing_parameter B -> sessionStorage w = None ->
  fst (page_load B w) = Ret true /\
  vars (snd (page_load B w)) initialized = VBool true /\
  connected (snd (page_load B w)) = false /\
  requests (snd (page_load B w)) = requests w /\
  network (snd (page_load B w)) = network w /\
  sessionStorage (snd (page_load B w)) = None.
Proof.
  intros Hm Hs.
  assert (Hrun : exists w', page_load B w = (Ret true, w') /\
            vars w' initialized = VBool true /\ vars w' authToken = VNull /\
            requests w' = requests w /\ network w' = network w /\
            sessionStorage w' = None).
  { unfold page_load, Public.initialize.
    unfold bind at 1. unfold get at 1.
    change (truthy (vars (fresh_page w) initialized)) with false. cbv iota.
    unfold bind at 1. rewrite (loadSessionData_none B (fresh_page w) Hs).
    unfold bind at 1. unfold get at 1. unfold bind at 1. unfold get at 1.
    cbn [andb].
    unfold bind at 1. unfold Date_now at 1.
    unfold bind at 1. unfold Browser.set at 1. set (W1 := with_vars _ (fresh_page w)).
    destruct (parseLaunchParameters_incomplete B W1 Hm eq_refl)
      as (w2 & E2 & Ha2 & Hi2 & Hf2 & Hs2 & Hq2 & Hn2).
    unfold bind at 1. rewrite E2.
    destruct (choose_sessionId_total B w2) as (w3 & E3 & Hv3 & Hs3 & Hq3 & Hn3).
    unfold bind at 1. rewrite E3. cbn [negb].
    unfold bind, Browser.set, ret. eexists. split; [reflexivity|].
    cbn [vars with_vars sessionStorage requests network].
    split; [reflexivity|]. split.
    - rewrite (Hv3 authToken) by discriminate. rewrite Ha2. reflexivity.
    - rewrite Hq3, Hq2, Hn3, Hn2, Hs3, Hs2. repeat split. exact Hs. }
  destruct Hrun as (w' & E & Hi & Ha & Hq & Hn & Hs').
  rewrite E. cbn [fst snd]. unfold connected. rewrite Ha. cbn [truthy].
  rewrite andb_false_r. auto 10.
Qed.

Lemma standalone_launch_witness :
  fst (page_load standalone (opened [])) = Ret true /\
  vars (snd (page_load standalone (opened []))) initialized = VBool true /\
  connected (snd (page_load standalone (opened []))) = false /\
  requests (snd (page_load standalone (opened []))) = requests (opened []) /\
  network (snd (page_load standalone (opened []))) = network (opened []) /\
  sessionStorage (snd (page_load standalone (opened []))) = None.
Proof.
  apply (standalone_launch standalone (opened [])).
  - exists "endpoint". split; [left; reflexivity|reflexivity].
  - reflexivity.
Defined.

(** An exchange that is refused: the request has gone out, the error is
    thrown on, and no credential is held or stored. *)
Lemma fetchAuthToken_refused (w : world) first rest :
  truthy (vars w fetchUrl) = true -> truthy (vars w authToken) = false ->
  network w = first :: rest -> refuses_exchange first ->
  exists e w', fetchAuthToken w = (Throw e, w') /\
    truthy (vars w' authToken) = false /\
    (forall x, x <> authToken -> vars w' x = vars w x) /\
    requests w' = {| rq_sync := false; rq_method := "POST"; rq_base := vars w fetchUrl;
                     rq_resource := Exchange; rq_authorization := None;
                     rq_body := None |} :: requests w /\
    network w' = rest /\ sessionStorage w' = sessionStorage w.
Proof.
  intros Hf Ha Hn Hr.
  unfold fetchAuthToken. unfold bind at 1. unfold get at 1. rewrite Hf. cbn [negb].
  unfold try_catch. unfold bind at 1. unfold transmit at 1. rewrite Hn.
  destruct first as [|status statusText text parsed].
  { unfold throw. eexists _, _. split; [reflexivity|].
    cbn [vars with_network requests network sessionStorage]. auto 10. }
  cbn [refuses_exchange] in Hr.
  destruct (ok status) eqn:Hok; cbn [negb].
  2:{ unfold throw. eexists _, _. split; [reflexivity|].
      cbn [vars with_network requests network sessionStorage]. auto 10. }
  destruct parsed as [j|].
  2:{ unfold throw. eexists _, _. split; [reflexivity|].
      cbn [vars with_network requests network sessionStorage]. auto 10. }
  destruct Hr as [Hr|[Hr|(fs & Hj & Htok)]]; try discriminate.
  inversion Hj; subst j; clear Hj.
  match goal with
  | |- context [bind (parse (JObj fs)) _ ?W] =>
      destruct (parse_stored W fs) as (l & ext & Ep & Hrep);
      unfold bind at 1; rewrite Ep; clear Ep
  end.
  cbn [heap with_network] in Hrep.
  match goal with
  | |- context [bind (prop (VRef l) "auth-token") _ ?W] => set (W0 := W) in *
  end.
  assert (Hr0 : rep (heap W0) (VRef l) (JObj fs)) by exact Hrep.
  destruct (prop_stored W0 l fs "auth-token" Hr0) as (t1 & E1 & R1).
  destruct (prop_stored W0 l fs "authToken" Hr0) as (t2 & E2 & R2).
  destruct (prop_stored W0 l fs "token" Hr0) as (t3 & E3 & R3).
  assert (Htail : forall t, truthy t = false ->
            exists e w',
              (Browser.set authToken t ;;
               if negb (truthy t) then throw (Error "No auth token in response") else
               match t with
               | VStr s =>
                   when (negb (startsWith s "Basic ") && negb (startsWith s "Bearer "))
                     (Browser.set authToken (VStr ("Basic " ++ s))) ;;
                   saveSessionData ;;
                   ret true
               | _ => throw (TypeError "authToken.startsWith is not a function")
               end)%js W0 = (Throw e, w') /\
              truthy (vars w' authToken) = false /\
              (forall x, x <> authToken -> vars w' x = vars w x) /\
              requests w' = requests W0 /\ network w' = rest /\
              sessionStorage w' = sessionStorage w).
  { intros t Ht. unfold bind at 1. unfold Browser.set at 1. rewrite Ht. cbn [negb].
    unfold throw. eexists _, _. split; [reflexivity|].
    cbn [vars with_vars requests network sessionStorage].
    split; [exact Ht|]. split; [|auto].
    intros x Hx. destruct (decide (authToken = x)); [congruence|reflexivity]. }
  unfold token_field in Htok.
  unfold bind at 1. rewrite E1. rewrite (reads_truthy _ _ R1).
  destruct (jtruthy (assoc "auth-token" fs)) eqn:J1.
  { rewrite <- (reads_truthy _ _ R1) in Htok. unfold bind at 1. unfold ret at 1.
    destruct (Htail t1) as (e & w' & E & H); [|].
    - rewrite (reads_truthy _ _ R1). rewrite (reads_truthy _ _ R1) in Htok. exact Htok.
    - rewrite E. eauto. }
  unfold bind at 1. unfold bind at 1. rewrite E2. rewrite (reads_truthy _ _ R2).
  destruct (jtruthy (assoc "authToken" fs)) eqn:J2.
  { unfold ret at 1. destruct (Htail t2) as (e & w' & E & H).
    - rewrite (reads_truthy _ _ R2). exact Htok.
    - rewrite E. eauto. }
  rewrite E3. destruct (Htail t3) as (e & w' & E & H).
  - rewrite (reads_truthy _ _ R3). exact Htok.
  - rewrite E. eauto.
Qed.

(** A launch whose exchange is refused. [initialize] returns false, the
    wrapper counts as initialised and is not connected; the exchange is
    the only request that was issued, and nothing is stored for a later
    load. *)
Theorem refused_exchange_leaves_wrapper_offline
    (B : browser) (w : world) (first : response) (rest : list response) :
  complete_launch B -> sessionStorage w = None ->
  network w = first :: rest -> refuses_exchange first ->
  fst (page_load B w) = Ret false /\
  vars (snd (page_load B w)) initialized = VBool true /\
  connected (snd (page_load B w)) = false /\
  requests (snd (page_load B w)) = exchange_request B :: requests w /\
  network (snd (page_load B w)) = rest /\
  sessionStorage (snd (page_load B w)) = None.
Proof.
  intros HB Hs Hn Hr.
  assert (Hrun : exists w', page_load B w = (Ret false, w') /\
            vars w' initialized = VBool true /\ truthy (vars w' authToken) = false /\
            requests w' = exchange_request B :: requests w /\ network w' = rest /\
            sessionStorage w' = None).
  { unfold page_load, Public.initialize.
    unfold bind at 1. unfold get at 1.
    change (truthy (vars (fresh_page w) initialized)) with false. cbv iota.
    unfold bind at 1. rewrite (loadSessionData_none B (fresh_page w) Hs).
    unfold bind at 1. unfold get at 1. unfold bind at 1. unfold get at 1.
    cbn [andb].
    unfold bind at 1. unfold Date_now at 1.
    unfold bind at 1. unfold Browser.set at 1. set (W1 := with_vars _ (fresh_page w)).
    destruct (parseLaunchParameters_complete B W1 HB)
      as (w1 & E1 & T1 & He1 & Hf1 & Hr1 & Ha1 & Hs1 & Hq1 & Hn1).
    { intros x. unfold W1. cbn [vars with_vars fresh_page].
      destruct (decide (startTime = x)); [exact I|apply initial_primitive]. }
    unfold bind at 1. rewrite E1.
    destruct HB as (e & f & a & r & i & ja & He & Hen & Hf & Hfn & Ha & Han & Hj & Hjt
                    & Hr' & Hrn & Hi' & Hin).
    destruct (choose_sessionId_run B w1)
      as (w2 & sid & E2 & Hsid & Hcs & Hv2 & Hh2 & Hs2 & Hq2 & Hn2).
    { exact Hf1. }
    { rewrite (param_value _ _ _ Hf). apply truthy_VStr, Hfn. }
    unfold bind at 1. rewrite E2. cbn [negb].
    destruct (fetchAuthToken_refused w2 first rest)
      as (err & w3 & E3 & Ha3 & Hv3 & Hq3 & Hn3 & Hs3).
    { rewrite (Hv2 fetchUrl) by discriminate. rewrite Hf1.
      rewrite (param_value _ _ _ Hf). apply truthy_VStr, Hfn. }
    { rewrite (Hv2 authToken) by discriminate. rewrite Ha1. reflexivity. }
    { rewrite Hn2, Hn1. exact Hn. }
    { exact Hr. }
    unfold try_catch. unfold bind at 1. rewrite E3.
    unfold bind, Browser.set, ret. eexists. split; [reflexivity|].
    cbn [vars with_vars sessionStorage requests network].
    split; [reflexivity|]. split; [exact Ha3|].
    split; [|split; [exact Hn3|]].
    - rewrite Hq3, Hq2, Hq1. unfold exchange_request.
      rewrite (Hv2 fetchUrl) by discriminate. rewrite Hf1. reflexivity.
    - rewrite Hs3, Hs2, Hs1. exact Hs. }
  destruct Hrun as (w' & E & Hi & Ha & Hq & Hn' & Hs').
  rewrite E. cbn [fst snd]. unfold connected. rewrite Ha.
  rewrite andb_false_r. auto 10.
Qed.

Lemma refused_exchange_leaves_wrapper_offline_witness :
  fst (page_load lms (opened [forbidden])) = Ret false /\
  vars (snd (page_load lms (opened [forbidden]))) initialized = VBool true /\
  connected (snd (page_load lms (opened [forbidden]))) = false /\
  requests (snd (page_load lms (opened [forbidden])))
    = exchange_request lms :: requests (opened [forbidden]) /\
  network (snd (page_load lms (opened [forbidden]))) = [] /\
  sessionStorage (snd (page_load lms (opened [forbidden]))) = None.
Proof.
  apply (refused_exchange_leaves_wrapper_offline lms (opened [forbidden]) forbidden []).
  - exact lms_complete.
  - reflexivity.
  - reflexivity.
  - left. reflexivity.
Defined.

(** ** The optional documents *)

Lemma prop_truthy d k (w : world) :
  truthy d = true -> exists v, prop d k w = (Ret v, w).
Proof.
  intros T. unfold prop, read_prop.
  destruct d; try discriminate; try (eexists; reflexivity).
  destruct (heap w !! l); eexists; reflexivity.
Qed.

Lemma JSON_stringify_run (w : world) v :
  stringify (heap w) v <> SerCyclic ->
  JSON_stringify v w = (Ret (stringify (heap w) v), w).
Proof.
  intros H. unfold JSON_stringify. destruct (stringify (heap w) v); congruence.
Qed.

Lemma or_val_truthy x d : truthy d = true -> truthy (or_val x d) = true.
Proof. intros H. unfold or_val. destruct (truthy x) eqn:T; assumption. Qed.

Lemma fetchLearnerPreferences_run (w : world) :
  stringify (heap w) (vars w actor) <> SerCyclic ->
  exists w', fetchLearnerPreferences w = (Ret true, w') /\
             truthy (vars w' learnerPreferences) = true.
Proof.
  intros Hs. unfold fetchLearnerPreferences.
  unfold bind at 1. unfold get at 1. unfold bind at 1.
  rewrite (JSON_stringify_run w _ Hs).
  unfold try_catch. unfold bind at 1.
  destruct (lrsRequest (AgentProfile "cmi5LearnerPreferences" _) "GET" VNull w)
    as [[p|e] w1].
  - unfold bind at 1. unfold Browser.set at 1. unfold bind at 1.
    destruct (truthy p) eqn:T.
    + unfold ret. eexists. split; [reflexivity|]. exact T.
    + unfold bind, new, alloc, Browser.set, ret. eexists. split; reflexivity.
  - unfold bind, new, alloc, Browser.set, ret. eexists. split; reflexivity.
Qed.

Lemma fetchLaunchData_run (w : world) :
  stringify (heap w) (vars w actor) <> SerCyclic ->
  exists w', fetchLaunchData w = (Ret true, w') /\
             (launch_defaults (vars w) -> launch_defaults (vars w')).
Proof.
  intros Hs. unfold fetchLaunchData.
  unfold bind at 1. unfold get at 1. unfold bind at 1. unfold get at 1.
  unfold bind at 1. rewrite (JSON_stringify_run w _ Hs).
  unfold bind at 1. unfold get at 1.
  unfold try_catch. unfold bind at 1.
  pose proof (keeps_lrsRequest
                (ActivityState "LMS.LaunchData" (vars w activityId)
                   (stringify (heap w) (vars w actor)) (vars w registration))
                "GET" VNull I w) as K.
  destruct (lrsRequest _ "GET" VNull w) as [[d|e] w1]; cbn [snd] in K;
    assert (Hv : vars w1 = vars w) by (unfold core_log in K; congruence).
  2:{ unfold ret. eexists. split; [reflexivity|]. rewrite Hv. auto. }
  unfold bind at 1. unfold Browser.set at 1. set (W1 := with_vars _ w1).
  unfold bind at 1.
  destruct (truthy d) eqn:T.
  - destruct (prop_truthy d "contextTemplate" W1 T) as (x1 & E1).
    unfold bind at 1. rewrite E1.
    unfold bind at 1. unfold Browser.set at 1. set (W2 := with_vars _ W1).
    destruct (prop_truthy d "launchMode" W2 T) as (x2 & E2).
    unfold bind at 1. rewrite E2.
    unfold bind at 1. unfold Browser.set at 1. set (W3 := with_vars _ W2).
    destruct (prop_truthy d "masteryScore" W3 T) as (x3 & E3).
    unfold bind at 1. rewrite E3.
    unfold bind at 1. unfold Browser.set at 1. set (W4 := with_vars _ W3).
    destruct (prop_truthy d "moveOn" W4 T) as (x4 & E4).
    unfold bind at 1. rewrite E4.
    unfold bind at 1. unfold Browser.set at 1. set (W5 := with_vars _ W4).
    destruct (prop_truthy d "returnURL" W5 T) as (x5 & E5).
    unfold bind at 1. rewrite E5.
    unfold Browser.set, ret. eexists. split; [reflexivity|].
    intros _. unfold launch_defaults. cbn [vars with_vars].
    change (vars W5 launchMode) with (or_val x2 (VStr "Normal")).
    change (vars W5 moveOn) with (or_val x4 (VStr "CompletedOrPassed")).
    change (vars W5 masteryScore) with (nullish x3 (VNum (3 # 4))).
    split; [apply or_val_truthy; reflexivity|].
    split; [apply or_val_truthy; reflexivity|].
    destruct x3; exact I.
  - unfold ret. eexists. split; [reflexivity|].
    unfold launch_defaults.
    change (vars W1 launchMode) with (vars w1 launchMode).
    change (vars W1 moveOn) with (vars w1 moveOn).
    change (vars W1 masteryScore) with (vars w1 masteryScore).
    rewrite Hv. auto.
Qed.



End LaunchFacts.
(* ===================================================================== *)
(** * Durations and scores *)
(* ===================================================================== *)

Module ValueFacts.
Import JS Browser Cmi5 WrapperSpec WrapperSamples RequestSamples ValueSpec MonadFacts.
Local Open Scope js_scope.
Local Open Scope string_scope.

Lemma whole_seconds (ms : Q) : (0 <= ms)%Q -> 0 <= Qfloor (ms / 1000).
Proof.
  intros H. change 0 with (Qfloor 0). apply Qfloor_resp_le.
  apply Qle_shift_div_l; [reflexivity|]. rewrite Qmult_0_l. exact H.
Qed.

Lemma seconds_split (n : Z) :
  0 <= n -> splits n (n / 60 / 60) (Z.rem (n / 60) 60) (Z.rem n 60).
Proof.
  intros H. unfold splits.
  assert (H60 : 0 <= n / 60) by (apply Z.div_pos; lia).
  rewrite (Z.rem_mod_nonneg n 60), (Z.rem_mod_nonneg (n / 60) 60) by lia.
  pose proof (Z.mod_pos_bound n 60 ltac:(lia)).
  pose proof (Z.mod_pos_bound (n / 60) 60 ltac:(lia)).
  pose proof (Z.div_mod n 60 ltac:(lia)).
  pose proof (Z.div_mod (n / 60) 60 ltac:(lia)).
  assert (0 <= n / 60 / 60) by (apply Z.div_pos; lia).
  lia.
Qed.






End ValueFacts.
(* ===================================================================== *)
(** * What a reload brings back *)
(* ===================================================================== *)

Module ReloadFacts.
Import JS Browser Cmi5 HeapSpec WrapperSpec WrapperSamples MonadFacts HeapFacts WrapperFacts
  SessionFacts.
Local Open Scope js_scope.
Local Open Scope string_scope.
Local Open Scope list_scope.

(** A property read from a parsed object is the stored field, as a
    tree. *)
Lemma prop_rep (w : world) l fs k j :
  rep (heap w) (VRef l) (JObj fs) -> assoc k fs = Some j ->
  exists v, prop (VRef l) k w = (Ret v, w) /\ rep (heap w) v j.
Proof.
  intros R A. pose proof R as R'. cbn [rep] in R'.
  destruct R' as (l' & ps & El & Hl & Hf). inversion El; subst l'; clear El.
  pose proof (rep_fields_assoc (fun v j => rep (heap w) v j) fs ps k Hf) as H.
  rewrite A in H. destruct H as (v & Av & Rv).
  exists v. split; [|exact Rv].
  unfold prop, read_prop. rewrite Hl. cbn [props plain]. rewrite Av. reflexivity.
Qed.

Lemma restore_rep fs l fields : forall w : world,
  rep (heap w) (VRef l) (JObj fs) ->
  exists g, restore (VRef l) fields w = (Ret tt, with_vars g w) /\
    (forall x, ~ In x (map (fun c => snd (fst c)) fields) -> g x = vars w x) /\
    (NoDup (map (fun c => snd (fst c)) fields) ->
     forall k x d j, In (k, x, d) fields -> assoc k fs = Some j ->
       exists v, g x = d v /\ rep (heap w) v j).
Proof.
  induction fields as [|[[k0 x0] d0] rest IH]; intros w Hrep.
  - exists (vars w). split; [destruct w; reflexivity|]. split; [reflexivity|].
    intros _ k x d j [].
  - destruct (prop_stored w l fs k0 Hrep) as (v0 & E0 & _).
    cbn [restore]. unfold bind at 1. rewrite E0. unfold bind at 1, Browser.set at 1.
    match goal with |- context [restore _ rest ?W] => destruct (IH W Hrep) as (g & Eg & Hout & Hin) end.
    exists g. split; [exact Eg|]. split.
    + intros x Hx. cbn [map In fst snd] in Hx. rewrite Hout by tauto.
      cbn [vars with_vars]. destruct (decide (x0 = x)); [tauto|reflexivity].
    + intros N k x d j Hi A. cbn [map fst snd] in N.
      apply NoDup_cons in N as [Nx N].
      destruct Hi as [Hi|Hi].
      * inversion Hi; subst k0 x0 d0; clear Hi.
        destruct (prop_rep w l fs k j Hrep A) as (v & Ev & Rv).
        rewrite Ev in E0. inversion E0; subst v0; clear E0.
        exists v. split; [|exact Rv].
        rewrite Hout by (intros Hx; apply Nx, list_elem_of_In, Hx).
        cbn [vars with_vars]. destruct (decide (x = x)); [reflexivity|congruence].
      * exact (Hin N k x d j Hi A).
Qed.

Lemma restored_vars_NoDup : NoDup (map (fun c => snd (fst c)) (restored_fields)).
Proof. apply (bool_decide_unpack _). vm_compute. exact I. Qed.

(** A load that accepts the stored object brings every stored field
    back. *)
Lemma loadSessionData_restores B (w : world) fs :
  sessionStorage w = Some (JObj fs) ->
  registrationMatches B fs = true -> sessionMatches B fs = true ->
  jtruthy (assoc "authToken" fs) = true ->
  exists w', loadSessionData B w = (Ret true, w') /\
    forall k x d j, In (k, x, d) restored_fields -> assoc k fs = Some j ->
      exists v, vars w' x = d v /\ rep (heap w') v j.
Proof.
  intros Hs Cr Cs Ct.
  destruct (parse_stored w fs) as (l & ext & Ep & Hrep).
  unfold loadSessionData, try_catch.
  unfold bind at 1. unfold getItem at 1. rewrite Hs.
  unfold bind at 1. rewrite Ep.
  run_prop Hrep.
  fold (current_session B).
  match goal with
  | |- context [bind _ _ ?W] => set (w1 := W)
  end.
  assert (Hrep1 : rep (heap w1) (VRef l) (JObj fs)) by exact Hrep.
  assert (Hsm : (if negb (truthy (current_session B)) then ret true
                 else d_sessionId <- prop (VRef l) "sessionId" ;;
                      ret (strict_eq d_sessionId (current_session B)))%js w1
                = (Ret (sessionMatches B fs), w1)).
  { unfold sessionMatches.
    destruct (negb (truthy (current_session B))); [reflexivity|]. simpl.
    destruct (prop_stored w1 l fs "sessionId" Hrep1) as (v' & E & R').
    unfold bind. rewrite E. unfold ret.
    rewrite (reads_strict_eq _ _ _ R' (current_session_prim B)). reflexivity. }
  unfold bind at 1. rewrite Hsm.
  rewrite (reads_truthy _ _ R), (reads_strict_eq _ _ _ R (param_prim B _)).
  fold (registrationMatches B fs). rewrite Cr, Cs. cbn [andb].
  destruct (prop_stored w1 l fs "authToken" Hrep1) as (t & Et & Rt).
  unfold bind at 1. rewrite Et. rewrite (reads_truthy _ _ Rt), Ct.
  destruct (restore_rep fs l restored_fields w1 Hrep1) as (g & Eg & _ & Hin).
  unfold bind at 1. rewrite Eg. unfold ret.
  eexists. split; [reflexivity|].
  intros k x d j Hi A. cbn [vars heap with_vars].
  exact (Hin restored_vars_NoDup k x d j Hi A).
Qed.

Lemma restored_is_stored k x d : In (k, x, d) restored_fields -> In (k, x) stored_fields.
Proof.
  intros H. cbn [In restored_fields] in H.
  repeat (destruct H as [H|H]; [inversion H; in_fields|]). contradiction.
Qed.

(** What [saveSessionData] stores when the variables hold trees: an
    object with every variable under its name. *)
Lemma saveSessionData_tree (w : world) :
  Trees w ->
  exists fs, sessionStorage (snd (saveSessionData w)) = Some (JObj fs) /\
    forall k x j, In (k, x) stored_fields ->
      rep (heap w) (vars w x) j -> (json_depth j <= length (heap w))%nat ->
      assoc k fs = Some j.
Proof.
  intros T. rewrite saveSessionData_run. cbn [snd].
  pose proof (fun k x H => stored_field w k x H stored_fields_NoDup) as Hfield.
  set (ps := map (fun f => (fst f, vars w (snd f))) stored_fields) in *.
  cbv zeta.
  set (f := stringify_at (S (length (heap w))) (heap w ++ [plain ps])) in *.
  destruct (ser_fields_ok f ps []) as (jo & Ej).
  { subst ps f. apply Forall_forall. intros p Hp. apply list_elem_of_In, in_map_iff in Hp.
    destruct Hp as (c & <- & _). simpl. apply Trees_ser_ok, T. }
  rewrite Ej. destruct (ser_fields_assoc _ _ _ _ Ej) as (fs & -> & Hf).
  exists fs. split; [reflexivity|].
  intros k x j Hi R D. apply (Hf k (vars w x)); [apply Hfield, Hi|].
  unfold f. apply rep_stringify; [|lia].
  eapply rep_grows; [apply grows_app|exact R].
Qed.

Lemma saveSessionData_fields B (w : world) :
  Launched B w -> Trees w ->
  exists fs, sessionStorage (snd (saveSessionData w)) = Some (JObj fs) /\
    registrationMatches B fs = true /\ sessionMatches B fs = true /\
    jtruthy (assoc "authToken" fs) = true /\
    forall k x j, In (k, x) stored_fields ->
      rep (heap w) (vars w x) j -> (json_depth j <= length (heap w))%nat ->
      assoc k fs = Some j.
Proof.
  intros L T.
  destruct (saveSessionData_stores B w L) as (_ & _ & C).
  destruct (C T) as (fs & Hs & Cr & Cs & Ct & _).
  destruct (saveSessionData_tree w T) as (fs' & Hs' & Hf).
  assert (E : fs' = fs) by congruence. subst fs'.
  exists fs. auto 10.
Qed.


Lemma launched_is_Launched : Launched lms launched.
Proof.
  exists "https://lrs.example/xapi", "Basic QWxhZGRpbg==", "R1", "S1".
  vm_compute. repeat split; try discriminate; reflexivity.
Qed.

Lemma launched_holds_trees : Trees launched.
Proof.
  intros x.
  destruct x; try (left; vm_compute; exact I); right.
  - exists (JObj [("name", JStr "Ann")]).
    split; [|vm_compute; lia]. vm_compute. repeat (first [reflexivity | eexists | split]).
  - exists (JObj [("contextTemplate", template); ("masteryScore", JNum (4 # 5))]).
    split; [|vm_compute; lia]. vm_compute. repeat (first [reflexivity | eexists | split]).
  - exists template.
    split; [|vm_compute; lia]. vm_compute. repeat (first [reflexivity | eexists | split]).
  - exists (JObj []).
    split; [|vm_compute; lia]. vm_compute. repeat (first [reflexivity | eexists | split]).
Qed.


End ReloadFacts.
(* ===================================================================== *)
(** * The statement log *)
(* ===================================================================== *)

Module LogFacts.
Import JS Browser Cmi5 HeapSpec WrapperSpec WrapperSamples RequestSamples MonadFacts HeapFacts
  WrapperFacts.
Local Open Scope js_scope.
Local Open Scope string_scope.
Local Open Scope list_scope.

Lemma prop_log v k (w : world) r w' : prop v k w = (r, w') -> w' = w.
Proof. intros H. unfold prop in H. destruct (read_prop (heap w) v k); congruence. Qed.

Lemma prop_again v k k' (w w1 : world) x :
  prop v k w = (Ret x, w) -> exists y, prop v k' w1 = (Ret y, w1).
Proof.
  unfold prop, read_prop. destruct v; try discriminate; intros _;
    try (eexists; reflexivity).
  destruct (heap w1 !! l); eexists; reflexivity.
Qed.



(** The synchronous delivery logs its outcome too: one entry, marked as
    synchronous, with the verdict of the request. *)
Lemma sendStatementSync_logged st (w : world) :
  match sendStatementSync st w with
  | (Ret id, w') =>
      core w' = core w /\
      exists e, statementLog w' = statementLog w ++ [e] /\ lg_sync e = true /\
                (truthy id = true -> lg_success e = VBool true)
  | (Throw err, w') => core w' = core w /\ statementLog w' = statementLog w
  end.
Proof.
  destruct (sendStatementSync st w) as [r w'] eqn:E. unfold sendStatementSync in E.
  pose proof (keeps_verbName_of st w) as Kn.
  unfold bind at 1 in E. destruct (verbName_of st w) as [[name|e0] w1]; cbn [snd] in Kn.
  2:{ inversion E; subst. unfold quiet in Kn. unfold core, exchanges. split; congruence. }
  assert (C1 : core w1 = core w /\ statementLog w1 = statementLog w)
    by (unfold quiet in Kn; unfold core, exchanges; split; congruence).
  destruct C1 as [C1 L1]. clear Kn.
  unfold bind at 1 in E. destruct (prop st "id" w1) as [[sid|e0] w2] eqn:Ep.
  2:{ apply prop_log in Ep. inversion E; subst. auto. }
  pose proof (prop_log _ _ _ _ _ Ep) as ->.
  unfold bind at 1 in E.
  pose proof (keeps_lrsRequestSync (Statements sid) "PUT" st I w1) as K.
  destruct (lrsRequestSync (Statements sid) "PUT" st w1) as [[success|e0] w3]; cbn [snd] in K;
    assert (C3 : core w3 = core w /\ statementLog w3 = statementLog w)
      by (unfold core_log in K; unfold core in *; split; congruence); clear K;
    destruct C3 as [C3 L3].
  2:{ inversion E; subst. auto. }
  unfold bind at 1 in E. destruct (prop st "timestamp" w3) as [[ts|e0] w4] eqn:Et.
  2:{ apply prop_log in Et. inversion E; subst. auto. }
  pose proof (prop_log _ _ _ _ _ Et) as ->.
  unfold bind at 1 in E. unfold log_push at 1 in E.
  set (entry := {| lg_timestamp := ts; lg_verb := name; lg_success := VBool success;
                   lg_error := VUndef; lg_sync := true |}) in *.
  destruct success.
  - destruct (prop_again st "id" "id" w1 (with_statementLog (statementLog w3 ++ [entry]) w3)
                sid Ep) as (y & Ey).
    rewrite Ey in E. inversion E; subst. split; [exact C3|].
    exists entry. cbn [statementLog with_statementLog]. rewrite L3. auto.
  - unfold ret in E. inversion E; subst. split; [exact C3|].
    exists entry. cbn [statementLog with_statementLog truthy]. rewrite L3.
    repeat split. discriminate.
Qed.

(** [sendTerminatedSync] in a session that is not terminated. When it
    returns it has logged one synchronous entry. Only when it returns
    the id of the statement is the session terminated and the store
    emptied, and the entry then records a success; when it returns
    [null] or throws, [terminated] and the store are what they were,
    so that a later call tries again. *)
Theorem sendTerminatedSync_atomic (B : browser) (w : world) :
  truthy (vars w terminated) = false ->
  match sendTerminatedSync B w with
  | (Ret id, w') =>
      (exists e, statementLog w' = statementLog w ++ [e] /\ lg_sync e = true /\
                 (truthy id = true -> lg_success e = VBool true)) /\
      if truthy id
      then vars w' terminated = VBool true /\ sessionStorage w' = None
      else vars w' terminated = vars w terminated /\ sessionStorage w' = sessionStorage w
  | (Throw err, w') =>
      vars w' terminated = vars w terminated /\ sessionStorage w' = sessionStorage w /\
      statementLog w' = statementLog w
  end.
Proof.
  intros Ht. destruct (sendTerminatedSync B w) as [r w'] eqn:E.
  unfold sendTerminatedSync in E.
  unfold bind at 1 in E. unfold get at 1 in E. rewrite Ht in E.
  assert (Q : forall {A} (m : M A) (w0 w1 : world) (r0 : res A),
            keeps quiet m -> m w0 = (r0, w1) ->
            core w1 = core w0 /\ statementLog w1 = statementLog w0).
  { intros A m w0 w1 r0 K Em. specialize (K w0). rewrite Em in K. cbn [snd] in K.
    unfold quiet in K. unfold core, exchanges. split; congruence. }
  unfold bind at 1 in E.
  destruct (verb_literal VERB_TERMINATED "terminated" w) as [[verb|e0] w1] eqn:E1;
    destruct (Q _ _ _ _ _ (keeps_verb_literal _ _) E1) as [C1 L1].
  2:{ inversion E; subst. destruct (core_eq _ _ C1). auto. }
  unfold bind at 1 in E.
  destruct (calculateDuration w1) as [[d|e0] w2] eqn:E2;
    destruct (Q _ _ _ _ _ keeps_calculateDuration E2) as [C2 L2].
  2:{ inversion E; subst. destruct (core_eq w w' ltac:(congruence)). split; [|split]; congruence. }
  unfold bind at 1 in E.
  destruct (new (plain [("duration", VStr d)]) w2) as [[result|e0] w3] eqn:E3;
    destruct (Q _ _ _ _ _ (keeps_new _) E3) as [C3 L3].
  2:{ inversion E; subst. destruct (core_eq w w' ltac:(congruence)). split; [|split]; congruence. }
  unfold bind at 1 in E.
  destruct (buildStatement B verb result VNull w3) as [[st|e0] w4] eqn:E4;
    destruct (Q _ _ _ _ _ (keeps_buildStatement _ _ _ _) E4) as [C4 L4].
  2:{ inversion E; subst. destruct (core_eq w w' ltac:(congruence)). split; [|split]; congruence. }
  assert (C : core w4 = core w) by congruence.
  assert (L : statementLog w4 = statementLog w) by congruence.
  clear E1 E2 E3 E4 C1 C2 C3 C4 L1 L2 L3 L4 Q.
  unfold bind at 1 in E.
  pose proof (sendStatementSync_logged st w4) as S.
  destruct (sendStatementSync st w4) as [[id|e0] w5].
  2:{ destruct S as [C5 L5]. inversion E; subst.
      destruct (core_eq w w' ltac:(congruence)). split; [|split]; congruence. }
  destruct S as (C5 & e & L5 & Hsync & Hsucc).
  rewrite L in L5.
  destruct (truthy id) eqn:Tid.
  - unfold when, bind, Browser.set, clearSessionData, try_catch, removeItem, ret in E.
    cbn in E. inversion E; subst. cbn.
    split; [exists e; auto|]. rewrite Tid. split; reflexivity.
  - unfold when, bind, ret in E. inversion E; subst.
    split; [exists e; split; [exact L5|]; split; [exact Hsync|]; intros; congruence|].
    rewrite Tid. destruct (core_eq w w' ltac:(congruence)). split; congruence.
Qed.

Lemma sendTerminatedSync_atomic_witness :
  match sendTerminatedSync lms launched_refused with
  | (Ret id, w') =>
      (exists e, statementLog w' = statementLog launched_refused ++ [e] /\ lg_sync e = true /\
                 (truthy id = true -> lg_success e = VBool true)) /\
      if truthy id
      then vars w' terminated = VBool true /\ sessionStorage w' = None
      else vars w' terminated = vars launched_refused terminated /\
           sessionStorage w' = sessionStorage launched_refused
  | (Throw err, w') =>
      vars w' terminated = vars launched_refused terminated /\
      sessionStorage w' = sessionStorage launched_refused /\
      statementLog w' = statementLog launched_refused
  end.
Proof.
  apply (sendTerminatedSync_atomic lms launched_refused). vm_compute. reflexivity.
Defined.

End LogFacts.
(* ===================================================================== *)
(** * Utilities of the tracker *)
(* ===================================================================== *)

Module UtilFacts.
Import JS TrackerUtil UtilSpec.
Local Open Scope string_scope.

Lemma nibble (q : Q) : (0 <= q)%Q -> (q < 1)%Q -> 0 <= or_zero (q * 16) < 16.
Proof.
  destruct q as [a b]. unfold Qle, Qlt, or_zero, truncate. cbn [Qnum Qden Qmult].
  intros H0 H1.
  assert (Ha : 0 <= a) by lia. assert (Hb : a < Z.pos b) by lia.
  rewrite Z.quot_div_nonneg by lia.
  assert (Hd : 0 <= a * 16 / Z.pos (b * 1) < 16).
  { split; [apply Z.div_pos; lia|]. apply Z.div_lt_upper_bound; lia. }
  unfold ToInt32. rewrite Z.mod_small by lia. lia.
Qed.

Lemma one_digit (v : Z) :
  0 <= v < 16 ->
  exists c, toString16 v = String c "" /\ is_hex c = true /\
            (8 <= v < 12 -> existsb (Ascii.eqb c) (list_ascii_of_string "89ab") = true).
Proof.
  intros H.
  assert (C : v = 0 \/ v = 1 \/ v = 2 \/ v = 3 \/ v = 4 \/ v = 5 \/ v = 6 \/ v = 7 \/
              v = 8 \/ v = 9 \/ v = 10 \/ v = 11 \/ v = 12 \/ v = 13 \/ v = 14 \/ v = 15)
    by lia.
  repeat (destruct C as [C|C]; [subst v; eexists; split; [vm_compute; reflexivity|];
                                split; [reflexivity|]; intros ?; first [reflexivity | lia]|]).
  subst v. eexists. split; [vm_compute; reflexivity|].
  split; [reflexivity|]. intros ?. lia.
Qed.

Lemma variant_bits (r : Z) : 0 <= r < 16 -> 8 <= Z.lor (Z.land r 3) 8 < 12.
Proof.
  intros H.
  assert (C : r = 0 \/ r = 1 \/ r = 2 \/ r = 3 \/ r = 4 \/ r = 5 \/ r = 6 \/ r = 7 \/
              r = 8 \/ r = 9 \/ r = 10 \/ r = 11 \/ r = 12 \/ r = 13 \/ r = 14 \/ r = 15)
    by lia.
  repeat (destruct C as [C|C]; [subst r; vm_compute; split; [discriminate|reflexivity]|]).
  subst r. vm_compute. split; [discriminate|reflexivity].
Qed.

Lemma replace_follows (random : nat -> Q) :
  (forall n, (0 <= random n)%Q /\ (random n < 1)%Q) ->
  forall template calls, follows template (replace_xy template random calls) = true.
Proof.
  intros Hr. induction template as [|c rest IH]; intros calls; [reflexivity|].
  cbn [replace_xy]. destruct (Hr calls) as [H0 H1].
  pose proof (nibble (random calls) H0 H1) as Hn.
  destruct (Ascii.eqb c "x") eqn:Ex; cbn [orb].
  - destruct (one_digit _ Hn) as (h & -> & Hh & _).
    change (String h "" ++ replace_xy rest random (S calls))
      with (String h (replace_xy rest random (S calls))).
    cbn [follows]. rewrite Ex, Hh, IH. reflexivity.
  - destruct (Ascii.eqb c "y") eqn:Ey.
    + pose proof (variant_bits _ Hn) as Hv.
      destruct (one_digit (Z.lor (Z.land (or_zero (random calls * 16)) 3) 8)) as (h & -> & _ & Hh);
        [lia|].
      change (String h "" ++ replace_xy rest random (S calls))
        with (String h (replace_xy rest random (S calls))).
      cbn [follows]. rewrite Ex, Ey, (Hh Hv), IH. reflexivity.
    + cbn [follows]. rewrite Ex, Ey, Ascii.eqb_refl, IH. reflexivity.
Qed.

(** In a browser without [crypto.randomUUID], what [generateUUID] makes
    of the random numbers (each in the range of [Math.random()], from 0
    up to but not 1) is a version 4 UUID in canonical form: 36
    characters, hyphens in their places, the version digit [4], a
    variant digit among [8], [9], [a], [b], and lower-case hexadecimal
    digits elsewhere. *)
Theorem generateUUID_fallback_is_v4 (random : nat -> Q) :
  (forall n, (0 <= random n)%Q /\ (random n < 1)%Q) ->
  uuid_v4 (generateUUID None random) = true.
Proof. intros Hr. apply replace_follows, Hr. Qed.

Lemma generateUUID_fallback_is_v4_witness :
  uuid_v4 (generateUUID None (fun n => inject_Z (Z.of_nat (n mod 7)) / 7)%Q) = true.
Proof.
  apply (generateUUID_fallback_is_v4 (fun n => inject_Z (Z.of_nat (n mod 7)) / 7)%Q).
  intros n. pose proof (Nat.mod_upper_bound n 7 ltac:(lia)) as H.
  split.
  - apply Qle_shift_div_l; [reflexivity|]. rewrite Qmult_0_l.
    change 0%Q with (inject_Z 0). rewrite <- Zle_Qle. lia.
  - apply Qlt_shift_div_r; [reflexivity|]. rewrite Qmult_1_l.
    change 7%Q with (inject_Z 7). rewrite <- Zlt_Qlt. lia.
Defined.

(** ** Activity ids *)

Lemma kept_unreserved c : kept c = true -> unreserved c = true.
Proof.
  unfold kept, unreserved. destruct (is_word c); [reflexivity|]. cbn [orb existsb].
  destruct (c =? 45)%N; [reflexivity|]. destruct (c =? 46)%N; [reflexivity|].
  discriminate.
Qed.

Lemma encode_kept (l : units) :
  Forall (fun c => kept c = true) l -> encodeURIComponent l = Some l.
Proof.
  induction l as [|c l IH]; intros F; [reflexivity|].
  inversion F as [|? ? Hc Hl]; subst. cbn [encodeURIComponent].
  rewrite (kept_unreserved c Hc), (IH Hl). reflexivity.
Qed.

Lemma clean_kept (seg : units) : Forall (fun c => kept c = true) (clean_segment seg).
Proof.
  unfold clean_segment. apply Forall_take. apply Forall_forall. intros c Hc.
  apply list_elem_of_In, List.filter_In in Hc. tauto.
Qed.

Lemma encode_all_clean (segments : list units) :
  encode_all segments = Some (map clean_segment segments).
Proof.
  induction segments as [|seg r IH]; [reflexivity|].
  cbn [encode_all map]. rewrite (encode_kept _ (clean_kept seg)), IH. reflexivity.
Qed.

(** [makeActivityId] never throws, whatever the segments are. Of every
    segment at most 50 units are left, each a letter, a digit, an
    underscore, a hyphen or a dot, so that the URI encoding changes
    nothing; they follow the base path, which has lost its trailing
    slashes, each after one slash. *)
Theorem makeActivityId_segments_are_safe (basePath : units) (segments : list units) :
  makeActivityId basePath segments
    = Some (cleanBase basePath ++ 47%N :: join (map clean_segment segments))%list /\
  last (cleanBase basePath) <> Some 47%N /\
  Forall (fun seg => (length (clean_segment seg) <= 50)%nat /\
                     Forall (fun c => kept c = true) (clean_segment seg)) segments.
Proof.
  split; [|split].
  - unfold makeActivityId. rewrite encode_all_clean. reflexivity.
  - unfold cleanBase.
    assert (H : forall l, match drop_slashes l with
                          | [] => True
                          | c :: _ => c <> 47%N
                          end).
    { induction l as [|c l IH]; [exact I|]. cbn [drop_slashes].
      destruct (c =? 47)%N eqn:E; [exact IH|]. apply N.eqb_neq, E. }
    specialize (H (rev basePath)).
    destruct (drop_slashes (rev basePath)) as [|c r]; [discriminate|].
    cbn [rev]. rewrite last_snoc. congruence.
  - apply Forall_forall. intros seg _. split; [|apply clean_kept].
    unfold clean_segment. rewrite length_take. lia.
Qed.

(** ** Stored events *)

Section Events.
Context {event : Type}.

Lemma tail_drop (l : list event) : tail l = drop 1 l.
Proof. destruct l; reflexivity. Qed.

(** One more event, with a store that takes everything. *)
Lemma logEvent_last_thousand (all : list event) (e : event) (s : event_log event) :
  default [] (xapi_events s) = drop (length all - 1000) all ->
  xapi_events (logEvent (fun _ => true) e s)
  = Some (drop (length (all ++ [e]) - 1000) (all ++ [e])%list).
Proof.
  intros H. unfold logEvent. cbn [xapi_events]. rewrite H. f_equal.
  destruct (decide (length all < 1000)%nat) as [Hlt|Hge].
  - assert (E1 : drop (length all - 1000) all = all)
      by (replace (length all - 1000)%nat with 0%nat by lia; reflexivity).
    rewrite E1.
    assert (E2 : (1000 <? length (all ++ [e]))%nat = false)
      by (apply Nat.ltb_ge; rewrite length_app; cbn [length]; lia).
    rewrite E2.
    replace (length (all ++ [e]) - 1000)%nat with 0%nat
      by (rewrite length_app; cbn [length]; lia).
    reflexivity.
  - assert (E2 : (1000 <? length (drop (length all - 1000) all ++ [e]))%nat = true)
      by (apply Nat.ltb_lt; rewrite length_app, length_drop; cbn [length]; lia).
    rewrite E2, tail_drop, <- (drop_app_le all [e]) by lia.
    rewrite drop_drop. f_equal. rewrite length_app. cbn [length]. lia.
Qed.

Lemma log_all_memory fits (es : list event) : forall s : event_log event,
  allEvents (log_all fits es s) = (allEvents s ++ es)%list /\
  eventQueue (log_all fits es s) = (eventQueue s ++ es)%list.
Proof.
  induction es as [|e es IH]; intros s; cbn [log_all fold_left].
  - rewrite !app_nil_r. auto.
  - destruct (IH (logEvent fits e s)) as [H1 H2]. unfold log_all in H1, H2.
    rewrite H1, H2. cbn [allEvents eventQueue logEvent]. rewrite <- !app_assoc. auto.
Qed.

Lemma log_all_capped fits (es : list event) : forall s : event_log event,
  (length (default [] (xapi_events s)) <= 1000)%nat ->
  (length (default [] (xapi_events (log_all fits es s))) <= 1000)%nat.
Proof.
  induction es as [|e es IH]; intros s H; cbn [log_all fold_left]; [exact H|].
  apply IH. unfold logEvent. cbn [xapi_events].
  set (stored := (default [] (xapi_events s) ++ [e])%list).
  assert (Hs : length stored = S (length (default [] (xapi_events s))))
    by (unfold stored; rewrite length_app; cbn [length]; lia).
  destruct (fits (if (1000 <? length stored)%nat then tail stored else stored)); [|exact H].
  destruct (1000 <? length stored)%nat eqn:E.
  - change (length (tail stored) <= 1000)%nat. rewrite tail_drop, length_drop. lia.
  - change (length stored <= 1000)%nat. apply Nat.ltb_ge in E. exact E.
Qed.

Lemma log_all_last_thousand (es : list event) : forall (all : list event) s,
  default [] (xapi_events s) = drop (length all - 1000) all ->
  default [] (xapi_events (log_all (fun _ => true) es s))
  = drop (length (all ++ es) - 1000) (all ++ es)%list.
Proof.
  induction es as [|e es IH]; intros all s H; cbn [log_all fold_left].
  - rewrite app_nil_r. exact H.
  - replace (all ++ e :: es)%list with ((all ++ [e]) ++ es)%list
      by (rewrite <- app_assoc; reflexivity).
    apply IH. rewrite (logEvent_last_thousand all e s H). reflexivity.
Qed.

End Events.

(** The events [logEvent] keeps. However many events are logged, and
    whether or not the session store takes them, the stored list never
    grows beyond 1000 events once it is within that bound, while the
    two lists in memory keep every event. With a store that takes
    everything and was empty, the stored events are the last 1000 of
    those logged. *)
Theorem stored_events_are_capped {event : Type} (fits : list event -> bool)
    (es : list event) (s : event_log event) :
  (length (default [] (xapi_events s)) <= 1000)%nat ->
  (length (default [] (xapi_events (log_all fits es s))) <= 1000)%nat /\
  allEvents (log_all fits es s) = (allEvents s ++ es)%list /\
  eventQueue (log_all fits es s) = (eventQueue s ++ es)%list /\
  (xapi_events s = None ->
   default [] (xapi_events (log_all (fun _ => true) es s))
   = drop (length es - 1000) es).
Proof.
  intros H. split; [apply log_all_capped, H|].
  destruct (log_all_memory fits es s) as [H1 H2].
  split; [exact H1|]. split; [exact H2|].
  intros Hn. apply (log_all_last_thousand es [] s). rewrite Hn. reflexivity.
Qed.

Lemma stored_events_are_capped_witness :
  (length (default [] (xapi_events (log_all (fun l => (length l <? 3)%nat) [1; 2; 3; 4]%nat
                                      {| allEvents := []; eventQueue := [];
                                         xapi_events := None |}))) <= 1000)%nat /\
  allEvents (log_all (fun l => (length l <? 3)%nat) [1; 2; 3; 4]%nat
               {| allEvents := []; eventQueue := []; xapi_events := None |})
  = ([] ++ [1; 2; 3; 4])%nat%list /\
  eventQueue (log_all (fun l => (length l <? 3)%nat) [1; 2; 3; 4]%nat
                {| allEvents := []; eventQueue := []; xapi_events := None |})
  = ([] ++ [1; 2; 3; 4])%nat%list /\
  (xapi_events {| allEvents := @nil nat; eventQueue := []; xapi_events := None |} = None ->
   default [] (xapi_events (log_all (fun _ => true) [1; 2; 3; 4]%nat
                              {| allEvents := []; eventQueue := []; xapi_events := None |}))
   = drop (length [1; 2; 3; 4]%nat - 1000) [1; 2; 3; 4]%nat).
Proof.
  apply (stored_events_are_capped (fun l => (length l <? 3)%nat) [1; 2; 3; 4]%nat
           {| allEvents := []; eventQueue := []; xapi_events := None |}).
  cbn. lia.
Defined.

End UtilFacts.
